(** * StoryFlow: the generation client, the view controller and the export,
      embedded from [src/services/geminiService.ts], [src/App.tsx],
      [src/types.ts] and [src/components/SceneCard.tsx]. *)

From Stdlib Require Import DecimalFacts DecimalPos.
From Stdlib Require Import Bool Arith ZArith NArith QArith Qround Qpower Qabs Lqa.
From Stdlib Require Import Ascii String List Lia.
Import ListNotations.

Set Warnings "-register-all".


(** ** JavaScript strings

    A JavaScript string is a sequence of 16-bit code units.  A code unit is
    kept as an [N]; a literal of the source is written as a Rocq string and
    read through [str] (every literal of the modelled source is ASCII). *)

Definition code_unit := N.
Definition jsstring := list code_unit.

Definition str (s : string) : jsstring :=
  map N_of_ascii (list_ascii_of_string s).

Coercion str : string >-> jsstring.

Definition cu (a : ascii) : code_unit := N_of_ascii a.

(** [a === b] on strings. *)
Fixpoint jsstring_eqb (a b : jsstring) : bool :=
  match a, b with
  | [], [] => true
  | x :: a', y :: b' => N.eqb x y && jsstring_eqb a' b'
  | _, _ => false
  end.

(** A string is truthy when it is not empty. *)
Definition truthy (s : jsstring) : bool :=
  match s with [] => false | _ :: _ => true end.

Fixpoint startsWith (s p : jsstring) {struct p} : bool :=
  match p, s with
  | [], _ => true
  | x :: p', y :: s' => N.eqb x y && startsWith s' p'
  | _ :: _, [] => false
  end.

(** [String.prototype.includes]. *)
Fixpoint includes (s sub : jsstring) : bool :=
  startsWith s sub ||
  match s with
  | [] => false
  | _ :: s' => includes s' sub
  end.

(** [String.prototype.toLowerCase], one code unit at a time.  The mapping is
    that of the Unicode tables for U+0000..U+00FF; of the code units above,
    the two whose lower case is or starts with an ASCII letter are kept
    (U+212A and U+0130), the others are left as they are: the tables above
    U+00FF are not part of this model. *)
Definition toLowerCase_unit (c : code_unit) : jsstring :=
  (if (65 <=? c) && (c <=? 90) then [c + 32]
   else if (192 <=? c) && (c <=? 222) && negb (c =? 215) then [c + 32]
   else if c =? 8490 then [107]
   else if c =? 304 then [105; 775]
   else [c])%N.

Definition toLowerCase (s : jsstring) : jsstring :=
  flat_map toLowerCase_unit s.

(** White space and line terminators of ECMAScript, as [trim] strips them. *)
Definition isWhiteSpace (c : code_unit) : bool :=
  ((9 <=? c) && (c <=? 13) || (c =? 32) || (c =? 160) || (c =? 5760)
   || (8192 <=? c) && (c <=? 8202) || (c =? 8232) || (c =? 8233)
   || (c =? 8239) || (c =? 8287) || (c =? 12288) || (c =? 65279))%N.

Fixpoint trimStart (s : jsstring) : jsstring :=
  match s with
  | [] => []
  | c :: s' => if isWhiteSpace c then trimStart s' else s
  end.

Definition trimEnd (s : jsstring) : jsstring := rev (trimStart (rev s)).

(** [String.prototype.trim]. *)
Definition trim (s : jsstring) : jsstring := trimEnd (trimStart s).

(** [s.slice(0, n)] for a non-negative [n]. *)
Definition slice0 (n : nat) (s : jsstring) : jsstring := firstn n s.

(** ** JavaScript numbers

    A duration is a [number] of the source.  The component only ever holds
    [Number(v)] for the value [v] of a numeric input, which is the empty
    string or a decimal literal, so that a duration is never NaN and never
    infinite.  A finite binary64 number is kept as the rational it is;
    comparisons, [Math.round] and [Math.max] are exact on such numbers, and
    the one product of the source, [durationMinutes * 6], is rounded as
    binary64 arithmetic rounds it ([Number_multiply] below).  The infinities
    are not values of [number]: a product that overflows is outside the
    model, and what is proved of a product carries the hypothesis that it
    does not ([binary64_finite]). *)

Definition number := Q.

(** The position of the leading bit of a positive rational [x]: the [l]
    with [2^l <= x < 2^(l+1)]. *)
Definition ilog2 (x : Q) : Z :=
  let l := (Z.log2 (Qnum x) - Z.log2 (Zpos (Qden x)))%Z in
  if Qle_bool (2 ^ l) x then l else (l - 1)%Z.

(** The nearest integer, a tie going to the even one. *)
Definition round_half_even (y : Q) : Z :=
  let f := Qfloor y in
  match Qcompare (y - inject_Z f) (1 # 2) with
  | Lt => f
  | Gt => (f + 1)%Z
  | Eq => if Z.even f then f else (f + 1)%Z
  end.

(** The exponent of the last bit of the binary64 numbers around a positive
    [x]: 53 bits are kept, and no bit below [2^-1074]. *)
Definition binary64_exponent (x : Q) : Z := Z.max (-1074) (ilog2 x - 52).

Definition round_binary64_pos (x : Q) : Q :=
  let e := binary64_exponent x in
  inject_Z (round_half_even (x / 2 ^ e)) * 2 ^ e.

(** roundTiesToEven of IEEE 754 for binary64, of a result that does not
    overflow. *)
Definition round_binary64 (x : Q) : Q :=
  match Qcompare x 0 with
  | Eq => 0
  | Gt => round_binary64_pos x
  | Lt => - round_binary64_pos (- x)
  end.

(** From this magnitude on a result is rounded to an infinity: half way
    between the largest binary64 number, [2^1024 - 2^971], and [2^1024]. *)
Definition binary64_overflow : Q := 2 ^ 1024 - 2 ^ 970.


(** [a * b] ([Number::multiply]) of two finite numbers whose product does
    not overflow. *)
Definition Number_multiply (a b : number) : number := round_binary64 (a * b).

(** [Number.MAX_SAFE_INTEGER]: up to it, in absolute value, every integer
    is a binary64 number. *)
Definition MAX_SAFE_INTEGER : Z := 9007199254740991.

(** [Math.round]: the nearest integer, a tie going towards plus infinity. *)
Definition Math_round (x : number) : number := inject_Z (Qfloor (x + (1 # 2))).

(** [Math.max] of two numbers. *)
Definition Math_max (a b : number) : number := if Qle_bool a b then b else a.

(** [a > b] and [a <= b] on numbers. *)
Definition num_gt (a b : number) : bool := negb (Qle_bool a b).
Definition num_le (a b : number) : bool := Qle_bool a b.

(** The decimal digits of an integer, as [Number.prototype.toString] writes
    an integral number (below 10^21 in absolute value, where JavaScript
    changes to the exponent notation). *)
Fixpoint digits_of_uint (u : Decimal.uint) : jsstring :=
  match u with
  | Decimal.Nil => []
  | Decimal.D0 u' => 48%N :: digits_of_uint u'
  | Decimal.D1 u' => 49%N :: digits_of_uint u'
  | Decimal.D2 u' => 50%N :: digits_of_uint u'
  | Decimal.D3 u' => 51%N :: digits_of_uint u'
  | Decimal.D4 u' => 52%N :: digits_of_uint u'
  | Decimal.D5 u' => 53%N :: digits_of_uint u'
  | Decimal.D6 u' => 54%N :: digits_of_uint u'
  | Decimal.D7 u' => 55%N :: digits_of_uint u'
  | Decimal.D8 u' => 56%N :: digits_of_uint u'
  | Decimal.D9 u' => 57%N :: digits_of_uint u'
  end.

Definition Z_toString (z : Z) : jsstring :=
  match z with
  | Z0 => [cu "0"]
  | Zpos p => digits_of_uint (Pos.to_uint p)
  | Zneg p => cu "-" :: digits_of_uint (Pos.to_uint p)
  end.

(** ** JSON values, [JSON.parse] and [JSON.stringify]

    The values [JSON.parse] builds.  A number literal denotes the decimal
    [m / 10^k]; it is kept in that form with no trailing zero in the
    fraction, so that an integer is [JNum z 0].  A literal whose magnitude
    is beyond the binary64 numbers is read as an infinity, [JInf].  Below
    that a literal is kept as the decimal it denotes, where JavaScript
    rounds it to the nearest binary64 number: this is the same number for
    every integer up to [MAX_SAFE_INTEGER] in absolute value, and what is
    proved of the numbers of a document is stated for those.  An object
    keeps its members in creation order. *)

Inductive json : Type :=
| JNull
| JBool (b : bool)
| JNum (m : Z) (k : nat)
| JInf (negative : bool)
| JStr (s : jsstring)
| JArr (elements : list json)
| JObj (members : list (jsstring * json)).

Definition is_char (c : code_unit) (a : ascii) : bool := N.eqb c (cu a).

(** *** Reading *)

Definition is_json_ws (c : code_unit) : bool :=
  is_char c " " || (c =? 9)%N || (c =? 10)%N || (c =? 13)%N.

Fixpoint skip_ws (s : jsstring) : jsstring :=
  match s with
  | [] => []
  | c :: s' => if is_json_ws c then skip_ws s' else s
  end.

Definition is_digit (c : code_unit) : bool := ((48 <=? c) && (c <=? 57))%N.

Definition digit_cons (c : code_unit) (u : Decimal.uint) : Decimal.uint :=
  match (c - 48)%N with
  | 0 => Decimal.D0 u | 1 => Decimal.D1 u | 2 => Decimal.D2 u
  | 3 => Decimal.D3 u | 4 => Decimal.D4 u | 5 => Decimal.D5 u
  | 6 => Decimal.D6 u | 7 => Decimal.D7 u | 8 => Decimal.D8 u
  | _ => Decimal.D9 u
  end%N.

(** The longest prefix of digits, and what follows it. *)
Fixpoint read_digits (s : jsstring) : Decimal.uint * jsstring :=
  match s with
  | [] => (Decimal.Nil, [])
  | c :: s' =>
      if is_digit c
      then let (u, r) := read_digits s' in (digit_cons c u, r)
      else (Decimal.Nil, s)
  end.

(** Trailing zeros of a fraction are dropped. *)
Fixpoint normalise (m : Z) (k : nat) : Z * nat :=
  match k with
  | O => (m, O)
  | S k' => if (m mod 10 =? 0)%Z then normalise (m / 10)%Z k' else (m, k)
  end.

Definition decimal_value (neg : bool) (i f : Decimal.uint) (e : Z) : json :=
  let m0 := Z.of_uint (Decimal.app i f) in
  let m1 := if neg then (- m0)%Z else m0 in
  let scale := (e - Z.of_nat (Decimal.nb_digits f))%Z in
  if Qle_bool binary64_overflow (inject_Z m0 * 10 ^ scale) then JInf neg
  else if (0 <=? scale)%Z then JNum (m1 * 10 ^ scale)%Z 0
  else let (m, k) := normalise m1 (Z.to_nat (- scale)) in JNum m k.

Definition read_exponent (s : jsstring) : option (Z * jsstring) :=
  match s with
  | c :: s' =>
      if is_char c "e" || is_char c "E" then
        let (neg, s'') :=
          match s' with
          | d :: t => if is_char d "-" then (true, t)
                      else if is_char d "+" then (false, t) else (false, s')
          | [] => (false, s')
          end in
        match read_digits s'' with
        | (Decimal.Nil, _) => None
        | (u, r) => Some ((if neg then - Z.of_uint u else Z.of_uint u)%Z, r)
        end
      else Some (0%Z, s)
  | [] => Some (0%Z, s)
  end.

Definition read_fraction (s : jsstring) : option (Decimal.uint * jsstring) :=
  match s with
  | c :: s' =>
      if is_char c "." then
        match read_digits s' with
        | (Decimal.Nil, _) => None
        | (u, r) => Some (u, r)
        end
      else Some (Decimal.Nil, s)
  | [] => Some (Decimal.Nil, s)
  end.

(** The integer part: a single 0, or digits that do not start with 0. *)
Definition read_int (s : jsstring) : option (Decimal.uint * jsstring) :=
  match s with
  | c :: s' =>
      if is_char c "0" then Some (Decimal.D0 Decimal.Nil, s')
      else if is_digit c then Some (read_digits s)
      else None
  | [] => None
  end.

Definition read_number (s : jsstring) : option (json * jsstring) :=
  let (neg, s1) :=
    match s with
    | c :: s' => if is_char c "-" then (true, s') else (false, s)
    | [] => (false, s)
    end in
  match read_int s1 with
  | None => None
  | Some (i, s2) =>
      match read_fraction s2 with
      | None => None
      | Some (f, s3) =>
          match read_exponent s3 with
          | None => None
          | Some (e, s4) => Some (decimal_value neg i f e, s4)
          end
      end
  end.

Definition hexval (c : code_unit) : option N :=
  (if (48 <=? c) && (c <=? 57) then Some (c - 48)
   else if (97 <=? c) && (c <=? 102) then Some (c - 87)
   else if (65 <=? c) && (c <=? 70) then Some (c - 55)
   else None)%N.

Definition hex4 (a b c d : code_unit) : option code_unit :=
  match hexval a, hexval b, hexval c, hexval d with
  | Some x, Some y, Some z, Some w => Some (4096 * x + 256 * y + 16 * z + w)%N
  | _, _, _, _ => None
  end.

Definition simple_escape (c : code_unit) : option code_unit :=
  if (c =? 34)%N then Some 34%N
  else if is_char c "\" then Some 92%N
  else if is_char c "/" then Some 47%N
  else if is_char c "b" then Some 8%N
  else if is_char c "f" then Some 12%N
  else if is_char c "n" then Some 10%N
  else if is_char c "r" then Some 13%N
  else if is_char c "t" then Some 9%N
  else None.

Definition cons_fst {A B} (a : A) (r : option (list A * B)) : option (list A * B) :=
  match r with
  | Some (l, b) => Some (a :: l, b)
  | None => None
  end.

(** The characters of a string up to its closing quote. *)
Fixpoint read_string (s : jsstring) : option (jsstring * jsstring) :=
  match s with
  | [] => None
  | c :: r =>
      if (c =? 34)%N then Some ([], r)
      else if is_char c "\" then
        match r with
        | [] => None
        | e :: r' =>
            if is_char e "u" then
              match r' with
              | h1 :: h2 :: h3 :: h4 :: r'' =>
                  match hex4 h1 h2 h3 h4 with
                  | Some n => cons_fst n (read_string r'')
                  | None => None
                  end
              | _ => None
              end
            else
              match simple_escape e with
              | Some x => cons_fst x (read_string r')
              | None => None
              end
        end
      else if (c <? 32)%N then None
      else cons_fst c (read_string r)
  end.

Definition members_t := list (jsstring * json).

(** Defining a member: a key already there keeps its place and takes the new
    value (the last of two equal keys wins), a new key goes to the end.  Keys
    that are array indices, which JavaScript enumerates first, are kept where
    they were created. *)
Fixpoint obj_set (k : jsstring) (v : json) (ms : members_t) : members_t :=
  match ms with
  | [] => [(k, v)]
  | (k', v') :: r =>
      if jsstring_eqb k' k then (k', v) :: r else (k', v') :: obj_set k v r
  end.

Definition expect (word : jsstring) (s : jsstring) (v : json)
  : option (json * jsstring) :=
  if startsWith s word then Some (v, skipn (List.length word) s) else None.

(** A value, and what follows it.  [fuel] bounds the chain of calls; every
    call consumes a character before the next one, and [JSON_parse] gives as
    much fuel as the text is long, which is enough ([JSON_parse_fuel]
    below). *)
Fixpoint parse_value (fuel : nat) (s : jsstring) : option (json * jsstring) :=
  match fuel with
  | O => None
  | S f =>
      match skip_ws s with
      | [] => None
      | c :: r =>
          if is_char c "{" then
            match skip_ws r with
            | c' :: r' =>
                if is_char c' "}" then Some (JObj [], r')
                else parse_members f r []
            | [] => None
            end
          else if is_char c "[" then
            match skip_ws r with
            | c' :: r' =>
                if is_char c' "]" then Some (JArr [], r')
                else parse_elements f r []
            | [] => None
            end
          else if (c =? 34)%N then
            match read_string r with
            | Some (x, r') => Some (JStr x, r')
            | None => None
            end
          else if is_char c "t" then expect (str "rue") r (JBool true)
          else if is_char c "f" then expect (str "alse") r (JBool false)
          else if is_char c "n" then expect (str "ull") r JNull
          else read_number (c :: r)
      end
  end

with parse_elements (fuel : nat) (s : jsstring) (acc : list json)
  : option (json * jsstring) :=
  match fuel with
  | O => None
  | S f =>
      match parse_value f s with
      | None => None
      | Some (v, r) =>
          match skip_ws r with
          | c :: r' =>
              if is_char c "," then parse_elements f r' (v :: acc)
              else if is_char c "]" then Some (JArr (rev (v :: acc)), r')
              else None
          | [] => None
          end
      end
  end

with parse_members (fuel : nat) (s : jsstring) (acc : members_t)
  : option (json * jsstring) :=
  match fuel with
  | O => None
  | S f =>
      match skip_ws s with
      | c :: r =>
          if (c =? 34)%N then
            match read_string r with
            | Some (k, r1) =>
                match skip_ws r1 with
                | c1 :: r2 =>
                    if is_char c1 ":" then
                      match parse_value f r2 with
                      | Some (v, r3) =>
                          match skip_ws r3 with
                          | c3 :: r4 =>
                              if is_char c3 ","
                              then parse_members f r4 (obj_set k v acc)
                              else if is_char c3 "}"
                              then Some (JObj (obj_set k v acc), r4)
                              else None
                          | [] => None
                          end
                      | None => None
                      end
                    else None
                | [] => None
                end
            | None => None
            end
          else None
      | [] => None
      end
  end.

(** [JSON.parse(text)]: [None] stands for the [SyntaxError] it throws. *)
Definition JSON_parse (text : jsstring) : option json :=
  match parse_value (S (List.length text)) text with
  | Some (v, r) =>
      match skip_ws r with
      | [] => Some v
      | _ :: _ => None
      end
  | None => None
  end.

(** *** Writing *)

Definition hexdigit (d : N) : code_unit :=
  (if d <? 10 then 48 + d else 87 + d)%N.

(** [\uXXXX], in lower-case hexadecimal digits. *)
Definition UnicodeEscape (c : code_unit) : jsstring :=
  (str "\u" ++ [hexdigit (c / 4096 mod 16); hexdigit (c / 256 mod 16);
                hexdigit (c / 16 mod 16); hexdigit (c mod 16)])%N.

Definition is_high_surrogate (c : code_unit) : bool :=
  ((55296 <=? c) && (c <=? 56319))%N.
Definition is_low_surrogate (c : code_unit) : bool :=
  ((56320 <=? c) && (c <=? 57343))%N.

Definition escape_unit (c : code_unit) : jsstring :=
  (if c =? 8 then str "\b"
   else if c =? 9 then str "\t"
   else if c =? 10 then str "\n"
   else if c =? 12 then str "\f"
   else if c =? 13 then str "\r"
   else if c =? 34 then [92; 34]
   else if c =? 92 then [92; 92]
   else if c <? 32 then UnicodeEscape c
   else [c])%N.

(** A surrogate pair is written as it is, a lone surrogate is escaped. *)
Fixpoint escape (s : jsstring) : jsstring :=
  match s with
  | [] => []
  | c :: r =>
      if is_high_surrogate c then
        match r with
        | d :: r' =>
            if is_low_surrogate d then c :: d :: escape r'
            else UnicodeEscape c ++ escape r
        | [] => UnicodeEscape c
        end
      else if is_low_surrogate c then UnicodeEscape c ++ escape r
      else escape_unit c ++ escape r
  end.

Definition QuoteJSONString (s : jsstring) : jsstring :=
  34%N :: escape s ++ [34%N].

(** [Number::toString] of the decimal [m / 10^k]: the digits of an integer,
    and for a fraction the integer part, a point and the [k] digits of the
    fraction (as JavaScript writes a number of ordinary magnitude; the
    exponent notation of the very large and very small is not modelled). *)
Definition Number_toString (m : Z) (k : nat) : jsstring :=
  match k with
  | O => Z_toString m
  | S _ =>
      let a := Z.abs m in
      let d := Z_toString (a mod 10 ^ Z.of_nat k) in
      (if (m <? 0)%Z then [cu "-"] else []) ++
      Z_toString (a / 10 ^ Z.of_nat k) ++ [cu "."] ++
      repeat (cu "0") (k - List.length d) ++ d
  end.

Definition newline : jsstring := [10%N].
Definition spaces (n : nat) : jsstring := repeat (cu " ") n.

(** The parts of an array or of an object, joined by the separator. *)
Fixpoint join (sep : jsstring) (parts : list jsstring) : jsstring :=
  match parts with
  | [] => []
  | [p] => p
  | p :: ps => p ++ sep ++ join sep ps
  end.

(** [SerializeJSONProperty] with a gap of two spaces; [indent] is the
    current indentation.  A number that is not finite is written as
    [null].  An array is written as
    ["[" + "\n" + indent + join(partial, ",\n" + indent) + "\n" + stepback + "]"],
    an object likewise with a member written as [key + ": " + value]. *)
Fixpoint serialize (stepback : nat) (v : json) : jsstring :=
  let indent := (stepback + 2)%nat in
  let separator := str "," ++ newline ++ spaces indent in
  match v with
  | JNull => str "null"
  | JBool true => str "true"
  | JBool false => str "false"
  | JNum m k => Number_toString m k
  | JInf _ => str "null"
  | JStr s => QuoteJSONString s
  | JArr [] => str "[]"
  | JArr l =>
      str "[" ++ newline ++ spaces indent ++
      join separator (map (serialize indent) l) ++
      newline ++ spaces stepback ++ str "]"
  | JObj [] => str "{}"
  | JObj ms =>
      str "{" ++ newline ++ spaces indent ++
      join separator
        (map (fun kv : jsstring * json =>
                let (k, x) := kv in
                QuoteJSONString k ++ str ": " ++ serialize indent x) ms) ++
      newline ++ spaces stepback ++ str "}"
  end.

(** [JSON.stringify(value, null, 2)]. *)
Definition JSON_stringify2 (v : json) : jsstring := serialize 0 v.

(** ** [src/types.ts] *)

(** A scene whose two numbers are integers, as the response schema
    declares them ([INTEGER]).  The source holds them as binary64 numbers:
    an integer stands for the number of the source up to
    [MAX_SAFE_INTEGER] in absolute value ([Scene_safe] below), and what is
    proved of scenes is stated for those.  A scene with other numbers (a
    fraction, an infinity) is a [json] value and no [Scene]. *)
Record Scene : Type := {
  scene_number : Z;
  duration_seconds : Z;
  setting_description : jsstring;
  character_appearance : jsstring;
  action_description : jsstring;
  dialogue : jsstring;
  camera_angle : jsstring;
  lighting : jsstring;
  mood : jsstring
}.

Record User : Type := {
  email : jsstring;
  name : jsstring;
  avatar : jsstring
}.

Inductive Role : Type := role_user | role_admin.

(** [UserStats extends User]. *)
Record UserStats : Type := {
  stats_user : User;
  id : jsstring;
  storiesGenerated : Z;
  totalScenesGenerated : Z;
  lastActive : jsstring;
  role : Role
}.

Inductive AppState : Type :=
| LOGIN
| INPUT
| GENERATING_STORY
| STORY_REVIEW
| GENERATING_SCENES
| RESULTS
| ADMIN_LOGIN
| ADMIN_DASHBOARD.

(** A scene as the object that holds it, its keys in the order of the
    interface. *)
Definition json_of_Scene (sc : Scene) : json :=
  JObj [ (str "scene_number", JNum (scene_number sc) 0);
         (str "duration_seconds", JNum (duration_seconds sc) 0);
         (str "setting_description", JStr (setting_description sc));
         (str "character_appearance", JStr (character_appearance sc));
         (str "action_description", JStr (action_description sc));
         (str "dialogue", JStr (dialogue sc));
         (str "camera_angle", JStr (camera_angle sc));
         (str "lighting", JStr (lighting sc));
         (str "mood", JStr (mood sc)) ].

Definition json_of_Scenes (l : list Scene) : json := JArr (map json_of_Scene l).

Fixpoint lookup (k : jsstring) (ms : members_t) : option json :=
  match ms with
  | [] => None
  | (k', v) :: r => if jsstring_eqb k' k then Some v else lookup k r
  end.

Definition has_number (k : string) (ms : members_t) : bool :=
  match lookup (str k) ms with
  | Some (JNum _ _) | Some (JInf _) => true
  | _ => false
  end.

Definition has_string (k : string) (ms : members_t) : bool :=
  match lookup (str k) ms with Some (JStr _) => true | _ => false end.

(** Whether a value has the shape of the [Scene] interface, and of
    [Scene[]]. *)
Definition matches_Scene (v : json) : bool :=
  match v with
  | JObj ms =>
      has_number "scene_number" ms && has_number "duration_seconds" ms &&
      has_string "setting_description" ms &&
      has_string "character_appearance" ms &&
      has_string "action_description" ms && has_string "dialogue" ms &&
      has_string "camera_angle" ms && has_string "lighting" ms &&
      has_string "mood" ms
  | _ => false
  end.

Definition matches_Scene_array (v : json) : bool :=
  match v with
  | JArr l => forallb matches_Scene l
  | _ => false
  end.

(** ** [src/services/geminiService.ts] *)

(** A value that is thrown: an [Error] object with its message, or anything
    else, of which the controller only reads [String(error)]. *)
Inductive thrown : Type :=
| ErrorObject (message : jsstring)
| Thrown (toString : jsstring).

Inductive result (A : Type) : Type :=
| Ok (a : A)
| Throw (e : thrown).
Arguments Ok {A} a.
Arguments Throw {A} e.

(** A template literal: its text and the numbers it interpolates. *)
Inductive piece : Type :=
| Text (s : jsstring)
| Num (n : number).
Arguments Text s%_string.

Definition template := list piece.

Definition dq : jsstring := [34%N].
Definition nl : jsstring := [10%N].

Inductive Schema : Type :=
| TYPE_INTEGER
| TYPE_STRING
| TYPE_OBJECT (properties : list (jsstring * Schema)) (required : list jsstring)
| TYPE_ARRAY (items : Schema).

Record GenerateContentConfig : Type := {
  systemInstruction : jsstring;
  responseMimeType : option jsstring;
  responseSchema : option Schema
}.

Record GenerateContentParameters : Type := {
  model : jsstring;
  contents : template;
  config : GenerateContentConfig
}.

Record GoogleGenAI : Type := { apiKey : jsstring }.

(** What awaiting [ai.models.generateContent] gives: a rejection, or a
    response whose [text] is a string or undefined. *)
Inductive response : Type :=
| Rejects (e : thrown)
| Resolves (text : option jsstring).

(** What the module depends on: the environment variable, the endpoint, and
    the message the engine gives the [SyntaxError] of [JSON.parse]. *)
Record Env : Type := {
  API_KEY : option jsstring;
  generateContent : GoogleGenAI -> GenerateContentParameters -> response;
  syntaxErrorMessage : jsstring -> jsstring
}.

(** The state of the module ([aiClient]) and the requests sent so far, the
    latest first.  What is written to the console is not kept. *)
Record World : Type := {
  aiClient : option GoogleGenAI;
  network : list (GoogleGenAI * GenerateContentParameters)
}.

(** [!x] and [x || ""] for a string that may be undefined. *)
Definition not_ (x : option jsstring) : bool :=
  match x with
  | Some s => negb (truthy s)
  | None => true
  end.

Definition or_empty (x : option jsstring) : jsstring :=
  match x with
  | Some s => s
  | None => []
  end.

Definition getAiClient (env : Env) (w : World) : GoogleGenAI * World :=
  match aiClient w with
  | Some c => (c, w)
  | None =>
      let apiKey := API_KEY env in
      let c := {| apiKey := or_empty apiKey |} in
      (c, {| aiClient := Some c; network := network w |})
  end.

Definition getApiKey (env : Env) : option jsstring := API_KEY env.

Definition send (ai : GoogleGenAI) (req : GenerateContentParameters) (w : World)
  : World :=
  {| aiClient := aiClient w; network := (ai, req) :: network w |}.

Definition missing_key_message : jsstring :=
  str "API Key is missing. Please check your environment configuration.".

Definition no_story_message : jsstring := str "No story generated from Gemini.".

Definition no_response_message : jsstring :=
  str "No response generated from Gemini.".

(** The local [targetSceneCount] of [generateStoryDraft]. *)
Definition generateStoryDraft_targetSceneCount (durationMinutes : number)
  : number :=
  Math_max 1 (Math_round (Number_multiply durationMinutes 6)).

Definition generateStoryDraft_prompt (topic : jsstring)
  (customDialogue : option jsstring) (durationMinutes : number) : template :=
  let targetSceneCount := generateStoryDraft_targetSceneCount durationMinutes in
  [ Text nl; Text "    Write a narrative story based on this topic: ";
    Text dq; Text topic; Text dq; Text "."; Text nl; Text "    ";
    Text nl; Text "    CONSTRAINTS:"; Text nl;
    Text "    - Target Video Length: Exactly "; Num durationMinutes;
    Text " minute(s)."; Text nl;
    Text "    - Scene Count Requirement: The story MUST be detailed enough to be split into exactly ";
    Num targetSceneCount; Text " scenes of 10 seconds each."; Text nl;
    Text "    - Pacing: ";
    Text (if num_gt durationMinutes 2
          then str "This is a longer story. Include slower moments, environmental details, and character development."
          else str "This is a short story. Keep it focused but descriptive.");
    Text nl; Text "    " ] ++
  (if not_ customDialogue then []
   else [ Text "- Mandatory Dialogue: You MUST incorporate this specific dialogue naturally into the story: ";
          Text dq; Text (or_empty customDialogue); Text dq ]) ++
  [ Text nl; Text "    "; Text nl;
    Text "    Focus on visual details and clear action suitable for converting into video scenes.";
    Text nl; Text "  " ].

(** The argument of [ai.models.generateContent] in [generateStoryDraft]. *)
Definition generateStoryDraft_request (topic : jsstring)
  (customDialogue : option jsstring) (durationMinutes : number)
  : GenerateContentParameters :=
  {| model := str "gemini-2.5-flash";
     contents := generateStoryDraft_prompt topic customDialogue durationMinutes;
     config :=
       {| systemInstruction :=
            str "You are a creative writer for visual storytelling.";
          responseMimeType := None;
          responseSchema := None |} |}.

(** [generateStoryDraft(topic, customDialogue, durationMinutes)]; every call
    of the repository passes the three arguments. *)
Definition generateStoryDraft (env : Env) (topic : jsstring)
  (customDialogue : option jsstring) (durationMinutes : number) (w : World)
  : result jsstring * World :=
  let apiKey := getApiKey env in
  if not_ apiKey then (Throw (ErrorObject missing_key_message), w)
  else
    let (ai, w1) := getAiClient env w in
    let req := generateStoryDraft_request topic customDialogue durationMinutes in
    let w2 := send ai req w1 in
    match generateContent env ai req with
    | Rejects e => (Throw e, w2)
    | Resolves text =>
        if not_ text
        then (Throw (ErrorObject no_story_message), w2)
        else (Ok (or_empty text), w2)
    end.

(** The local [targetSceneCount] of [generateScenesFromStory]. *)
Definition generateScenesFromStory_targetSceneCount (durationMinutes : number)
  : number :=
  Math_max 1 (Math_round (Number_multiply durationMinutes 6)).

Definition strictInstruction : template :=
  [ Text nl;
    Text "    CRITICAL RULE: The 'character_appearance' field MUST contain the exact same detailed description text in every single scene to ensure the AI video generator maintains character consistency (identity preservation). Do not change clothes or physical features between scenes. Any changes in expression or pose should go in 'action_description', NOT 'character_appearance'.";
    Text nl; Text "  " ].

Definition flexibleInstruction : template :=
  [ Text nl;
    Text "    RULE: The 'character_appearance' field must fundamentally use the core description from Step 2 to maintain identity. However, you MAY include minor variations in the appearance string itself (e.g. 'slightly messy hair', 'ripped sleeve', 'dirty face') if the story progression physically alters the character. Keep core facial features and base outfit colors consistent.";
    Text nl; Text "  " ].

Definition generateScenesFromStory_prompt (storyText : jsstring)
  (durationMinutes : number) (allowVariations : bool) : template :=
  let targetSceneCount :=
    generateScenesFromStory_targetSceneCount durationMinutes in
  [ Text nl; Text "    Source Story: "; Text dq; Text storyText;
    Text dq; Text nl; Text nl; Text "    Step 1: Analyze the story above.";
    Text nl;
    Text "    Step 2: Define a SINGLE, DETAILED visual description for the main character based on the story. Include hair color/style, specific clothing items (with colors), and distinct facial features.";
    Text nl; Text "    Step 3: Split the story into EXACTLY ";
    Num targetSceneCount;
    Text " sequential scenes. Each scene represents a 10-second clip.";
    Text nl; Text nl; Text "    CONSTRAINT: You MUST output exactly ";
    Num targetSceneCount; Text " scenes to match the requested ";
    Num durationMinutes; Text " minute video length."; Text nl;
    Text "    If the story content seems short, you must expand the pacing by adding reaction shots, close-ups on details, environmental establishment shots, or character contemplation moments to reach exactly ";
    Num targetSceneCount; Text " scenes."; Text nl; Text nl;
    Text "    " ] ++
  (if allowVariations then flexibleInstruction else strictInstruction) ++
  [ Text nl; Text nl;
    Text "    Output a JSON array of scene objects. Each object must have:";
    Text nl; Text "    - scene_number (integer)"; Text nl;
    Text "    - duration_seconds (always 10)"; Text nl;
    Text "    - setting_description (detailed visual description of the background)";
    Text nl;
    Text "    - character_appearance (The consistent, detailed character description string defined in Step 2, with optional minor variations only if allowed)";
    Text nl;
    Text "    - action_description (Specific movement and action for this 10s clip)";
    Text nl; Text "    - dialogue (spoken lines or empty string)"; Text nl;
    Text "    - camera_angle (e.g., Wide Shot, Close Up, Tracking Shot)";
    Text nl; Text "    - lighting (e.g., Sunset, Neon, Dim)"; Text nl;
    Text "    - mood (e.g., Tense, Joyful, Melancholic)"; Text nl; Text "  " ].

Definition scenes_responseSchema : Schema :=
  TYPE_ARRAY
    (TYPE_OBJECT
       [ (str "scene_number", TYPE_INTEGER);
         (str "duration_seconds", TYPE_INTEGER);
         (str "setting_description", TYPE_STRING);
         (str "character_appearance", TYPE_STRING);
         (str "action_description", TYPE_STRING);
         (str "dialogue", TYPE_STRING);
         (str "camera_angle", TYPE_STRING);
         (str "lighting", TYPE_STRING);
         (str "mood", TYPE_STRING) ]
       [ str "scene_number"; str "duration_seconds";
         str "setting_description"; str "character_appearance";
         str "action_description"; str "camera_angle" ]).

(** The argument of [ai.models.generateContent] in
    [generateScenesFromStory]. *)
Definition generateScenesFromStory_request (storyText : jsstring)
  (durationMinutes : number) (allowVariations : bool)
  : GenerateContentParameters :=
  {| model := str "gemini-2.5-flash";
     contents :=
       generateScenesFromStory_prompt storyText durationMinutes allowVariations;
     config :=
       {| systemInstruction :=
            str "You are an expert screenwriter and storyboard artist. You strictly adhere to scene count requirements.";
          responseMimeType := Some (str "application/json");
          responseSchema := Some scenes_responseSchema |} |}.

(** [generateScenesFromStory(storyText, durationMinutes, allowVariations)].
    [JSON.parse(text) as Scene[]] is the parsed value as it is: the
    assertion of its type does nothing when the program runs. *)
Definition generateScenesFromStory (env : Env) (storyText : jsstring)
  (durationMinutes : number) (allowVariations : bool) (w : World)
  : result json * World :=
  let apiKey := getApiKey env in
  if not_ apiKey then (Throw (ErrorObject missing_key_message), w)
  else
    let (ai, w1) := getAiClient env w in
    let req :=
      generateScenesFromStory_request storyText durationMinutes allowVariations in
    let w2 := send ai req w1 in
    match generateContent env ai req with
    | Rejects e => (Throw e, w2)
    | Resolves text =>
        if not_ text
        then (Throw (ErrorObject no_response_message), w2)
        else
          match JSON_parse (or_empty text) with
          | Some scenes => (Ok scenes, w2)
          | None =>
              (Throw (ErrorObject (syntaxErrorMessage env (or_empty text))), w2)
          end
    end.

(** ** [src/App.tsx] *)

Definition mkUserStats (id_ email_ name_ avatar_ : string)
  (stories total : Z) (last : string) : UserStats :=
  {| stats_user := {| email := str email_; name := str name_; avatar := str avatar_ |};
     id := str id_;
     storiesGenerated := stories;
     totalScenesGenerated := total;
     lastActive := str last;
     role := role_user |}.

Definition INITIAL_MOCK_DB : list UserStats :=
  [ mkUserStats "1" "alice@studio.com" "Alice Director"
      "https://picsum.photos/100/100?random=1" 42 520 "2023-10-24 14:30";
    mkUserStats "2" "bob@creative.net" "Bob Writer"
      "https://picsum.photos/100/100?random=2" 15 180 "2023-10-25 09:15";
    mkUserStats "3" "charlie@video.io" "Charlie Motion"
      "https://picsum.photos/100/100?random=3" 8 96 "2023-10-26 11:00";
    mkUserStats "4" "demo.user@gmail.com" "Creative Director"
      "https://picsum.photos/100/100?random=4" 0 0 "Now" ].

Definition MOCK_USER : User :=
  {| email := str "demo.user@gmail.com";
     name := str "Creative Director";
     avatar := str "https://picsum.photos/100/100?random=4" |}.

(** *** The error helper *)

Arguments includes s sub%_string.

(** [error instanceof Error ? error.message : String(error)]. *)
Definition message_of (error : thrown) : jsstring :=
  match error with
  | ErrorObject m => m
  | Thrown s => s
  end.

Definition getFriendlyErrorMessage (error : thrown) : jsstring :=
  let message := message_of error in
  if includes message "API Key is missing" then
    str "Configuration Error: The API Key is missing. Please check your environment settings."
  else if includes message "429" || includes (toLowerCase message) "quota"
          || includes (toLowerCase message) "exhausted" then
    str "Usage Limit Exceeded: The AI service is currently busy or you have hit your rate limit. Please wait a minute and try again."
  else if includes message "400" || includes message "403"
          || includes message "API key not valid" then
    str "Authentication Error: The provided API key is invalid or has expired."
  else if includes message "500" || includes message "503"
          || includes (toLowerCase message) "overloaded" then
    str "Service Unavailable: Google's AI servers are currently overloaded. Please try again shortly."
  else if includes (toLowerCase message) "fetch"
          || includes (toLowerCase message) "network"
          || includes (toLowerCase message) "failed to connect" then
    str "Connection Error: Unable to reach the AI service. Please check your internet connection."
  else if includes message "JSON" || includes message "SyntaxError"
          || includes message "Unexpected token" then
    str "Data Processing Error: The AI failed to generate valid structured data. Retrying usually fixes this."
  else if includes (toLowerCase message) "safety"
          || includes (toLowerCase message) "blocked"
          || includes message "candidate" then
    str "Content Blocked: The request was flagged by safety filters. Please try modifying your topic or prompt."
  else
    str "An unexpected error occurred: " ++ slice0 150 message ++
    (if (150 <? List.length message)%nat then str "..." else []).

(** *** The state of the component: one field for each [useState] *)

Record State : Type := {
  appState : AppState;
  user : option User;
  googleClientId : jsstring;
  showClientConfig : bool;
  loginError : option jsstring;
  topic : jsstring;
  customDialogue : jsstring;
  duration : number;
  storyDraft : jsstring;
  scenes : list json;
  error : option jsstring;
  allowVariations : bool;
  adminPassword : jsstring;
  adminError : jsstring;
  userDb : list UserStats
}.

(** The state at the first render; [clientId] is what the environment gives
    for [GOOGLE_CLIENT_ID], or the empty string. *)
Definition initial_State (clientId : jsstring) : State :=
  {| appState := LOGIN; user := None; googleClientId := clientId;
     showClientConfig := false; loginError := None; topic := [];
     customDialogue := []; duration := 1; storyDraft := []; scenes := [];
     error := None; allowVariations := false; adminPassword := [];
     adminError := []; userDb := INITIAL_MOCK_DB |}.

Definition setAppState (v : AppState) (s : State) : State :=
  {| appState := v; user := user s; googleClientId := googleClientId s;
     showClientConfig := showClientConfig s; loginError := loginError s;
     topic := topic s; customDialogue := customDialogue s;
     duration := duration s; storyDraft := storyDraft s; scenes := scenes s;
     error := error s; allowVariations := allowVariations s;
     adminPassword := adminPassword s; adminError := adminError s;
     userDb := userDb s |}.

Definition setUser (v : option User) (s : State) : State :=
  {| appState := appState s; user := v; googleClientId := googleClientId s;
     showClientConfig := showClientConfig s; loginError := loginError s;
     topic := topic s; customDialogue := customDialogue s;
     duration := duration s; storyDraft := storyDraft s; scenes := scenes s;
     error := error s; allowVariations := allowVariations s;
     adminPassword := adminPassword s; adminError := adminError s;
     userDb := userDb s |}.

Definition setGoogleClientId (v : jsstring) (s : State) : State :=
  {| appState := appState s; user := user s; googleClientId := v;
     showClientConfig := showClientConfig s; loginError := loginError s;
     topic := topic s; customDialogue := customDialogue s;
     duration := duration s; storyDraft := storyDraft s; scenes := scenes s;
     error := error s; allowVariations := allowVariations s;
     adminPassword := adminPassword s; adminError := adminError s;
     userDb := userDb s |}.

Definition setShowClientConfig (v : bool) (s : State) : State :=
  {| appState := appState s; user := user s; googleClientId := googleClientId s;
     showClientConfig := v; loginError := loginError s;
     topic := topic s; customDialogue := customDialogue s;
     duration := duration s; storyDraft := storyDraft s; scenes := scenes s;
     error := error s; allowVariations := allowVariations s;
     adminPassword := adminPassword s; adminError := adminError s;
     userDb := userDb s |}.

Definition setLoginError (v : option jsstring) (s : State) : State :=
  {| appState := appState s; user := user s; googleClientId := googleClientId s;
     showClientConfig := showClientConfig s; loginError := v;
     topic := topic s; customDialogue := customDialogue s;
     duration := duration s; storyDraft := storyDraft s; scenes := scenes s;
     error := error s; allowVariations := allowVariations s;
     adminPassword := adminPassword s; adminError := adminError s;
     userDb := userDb s |}.

Definition setTopic (v : jsstring) (s : State) : State :=
  {| appState := appState s; user := user s; googleClientId := googleClientId s;
     showClientConfig := showClientConfig s; loginError := loginError s;
     topic := v; customDialogue := customDialogue s;
     duration := duration s; storyDraft := storyDraft s; scenes := scenes s;
     error := error s; allowVariations := allowVariations s;
     adminPassword := adminPassword s; adminError := adminError s;
     userDb := userDb s |}.

Definition setCustomDialogue (v : jsstring) (s : State) : State :=
  {| appState := appState s; user := user s; googleClientId := googleClientId s;
     showClientConfig := showClientConfig s; loginError := loginError s;
     topic := topic s; customDialogue := v;
     duration := duration s; storyDraft := storyDraft s; scenes := scenes s;
     error := error s; allowVariations := allowVariations s;
     adminPassword := adminPassword s; adminError := adminError s;
     userDb := userDb s |}.

Definition setDuration (v : number) (s : State) : State :=
  {| appState := appState s; user := user s; googleClientId := googleClientId s;
     showClientConfig := showClientConfig s; loginError := loginError s;
     topic := topic s; customDialogue := customDialogue s;
     duration := v; storyDraft := storyDraft s; scenes := scenes s;
     error := error s; allowVariations := allowVariations s;
     adminPassword := adminPassword s; adminError := adminError s;
     userDb := userDb s |}.

Definition setStoryDraft (v : jsstring) (s : State) : State :=
  {| appState := appState s; user := user s; googleClientId := googleClientId s;
     showClientConfig := showClientConfig s; loginError := loginError s;
     topic := topic s; customDialogue := customDialogue s;
     duration := duration s; storyDraft := v; scenes := scenes s;
     error := error s; allowVariations := allowVariations s;
     adminPassword := adminPassword s; adminError := adminError s;
     userDb := userDb s |}.

Definition setScenes (v : list json) (s : State) : State :=
  {| appState := appState s; user := user s; googleClientId := googleClientId s;
     showClientConfig := showClientConfig s; loginError := loginError s;
     topic := topic s; customDialogue := customDialogue s;
     duration := duration s; storyDraft := storyDraft s; scenes := v;
     error := error s; allowVariations := allowVariations s;
     adminPassword := adminPassword s; adminError := adminError s;
     userDb := userDb s |}.

Definition setError (v : option jsstring) (s : State) : State :=
  {| appState := appState s; user := user s; googleClientId := googleClientId s;
     showClientConfig := showClientConfig s; loginError := loginError s;
     topic := topic s; customDialogue := customDialogue s;
     duration := duration s; storyDraft := storyDraft s; scenes := scenes s;
     error := v; allowVariations := allowVariations s;
     adminPassword := adminPassword s; adminError := adminError s;
     userDb := userDb s |}.

Definition setAllowVariations (v : bool) (s : State) : State :=
  {| appState := appState s; user := user s; googleClientId := googleClientId s;
     showClientConfig := showClientConfig s; loginError := loginError s;
     topic := topic s; customDialogue := customDialogue s;
     duration := duration s; storyDraft := storyDraft s; scenes := scenes s;
     error := error s; allowVariations := v;
     adminPassword := adminPassword s; adminError := adminError s;
     userDb := userDb s |}.

Definition setAdminPassword (v : jsstring) (s : State) : State :=
  {| appState := appState s; user := user s; googleClientId := googleClientId s;
     showClientConfig := showClientConfig s; loginError := loginError s;
     topic := topic s; customDialogue := customDialogue s;
     duration := duration s; storyDraft := storyDraft s; scenes := scenes s;
     error := error s; allowVariations := allowVariations s;
     adminPassword := v; adminError := adminError s;
     userDb := userDb s |}.

Definition setAdminError (v : jsstring) (s : State) : State :=
  {| appState := appState s; user := user s; googleClientId := googleClientId s;
     showClientConfig := showClientConfig s; loginError := loginError s;
     topic := topic s; customDialogue := customDialogue s;
     duration := duration s; storyDraft := storyDraft s; scenes := scenes s;
     error := error s; allowVariations := allowVariations s;
     adminPassword := adminPassword s; adminError := v;
     userDb := userDb s |}.

(** [setUserDb(prev => f(prev))]. *)
Definition setUserDb (f : list UserStats -> list UserStats) (s : State) : State :=
  {| appState := appState s; user := user s; googleClientId := googleClientId s;
     showClientConfig := showClientConfig s; loginError := loginError s;
     topic := topic s; customDialogue := customDialogue s;
     duration := duration s; storyDraft := storyDraft s; scenes := scenes s;
     error := error s; allowVariations := allowVariations s;
     adminPassword := adminPassword s; adminError := adminError s;
     userDb := f (userDb s) |}.

(** The statements of a handler, run one after the other. *)
Definition statements (stmts : list (State -> State)) (s : State) : State :=
  fold_left (fun st f => f st) stmts s.

(** *** The handlers *)

(** The function [updateUserActivity(email, scenesCount = 0)] gives to
    [setUserDb]. *)
Definition updateUserActivity_map (email0 : jsstring) (scenesCount : Z)
  (prev : list UserStats) : list UserStats :=
  map (fun u =>
         if jsstring_eqb (email (stats_user u)) email0 then
           {| stats_user := stats_user u;
              id := id u;
              storiesGenerated :=
                if (scenesCount >? 0)%Z then (storiesGenerated u + 1)%Z
                else storiesGenerated u;
              totalScenesGenerated := (totalScenesGenerated u + scenesCount)%Z;
              lastActive := str "Just now";
              role := role u |}
         else u) prev.

Definition updateUserActivity (email0 : jsstring) (scenesCount : Z)
  : State -> State :=
  setUserDb (updateUserActivity_map email0 scenesCount).

(** [decoded] is what [jwtDecode] makes of the credential, [None] when it
    throws. *)
Definition handleGoogleCredentialResponse (decoded : option User)
  : State -> State :=
  match decoded with
  | Some d =>
      statements
        [ setUser (Some d); setAppState INPUT; updateUserActivity (email d) 0 ]
  | None => setLoginError (Some (str "Failed to sign in. Token invalid."))
  end.

(** What the timer of [handleDemoLogin] runs. *)
Definition handleDemoLogin : State -> State :=
  statements
    [ setUser (Some MOCK_USER); setAppState INPUT;
      updateUserActivity (email MOCK_USER) 0 ].

Definition handleLogout : State -> State :=
  statements
    [ setUser None; setAppState LOGIN; setScenes []; setTopic [];
      setCustomDialogue []; setStoryDraft []; setDuration 1;
      setAllowVariations false ].

Definition safeDuration (s : State) : number :=
  if num_le (duration s) 0 then 1 else duration s.

(** [handleGenerateDraft] up to its [await]: [None] when it returns at once. *)
Definition handleGenerateDraft_start (s : State) : option State :=
  if negb (truthy (trim (topic s))) then None
  else Some (statements [ setAppState GENERATING_STORY; setError None ] s).

(** [handleGenerateDraft] from the result of its [await] on. *)
Definition handleGenerateDraft_settle (r : result jsstring) : State -> State :=
  match r with
  | Ok draft => statements [ setStoryDraft draft; setAppState STORY_REVIEW ]
  | Throw err =>
      let friendlyMsg := getFriendlyErrorMessage err in
      statements [ setError (Some friendlyMsg); setAppState INPUT ]
  end.

(** The handler, when nothing else happens while the request is awaited. *)
Definition handleGenerateDraft (env : Env) (s : State) (w : World)
  : State * World :=
  match handleGenerateDraft_start s with
  | None => (s, w)
  | Some s1 =>
      let (r, w') :=
        generateStoryDraft env (topic s) (Some (customDialogue s))
          (safeDuration s) w in
      (handleGenerateDraft_settle r s1, w')
  end.

Definition handleGenerateScenes_start (s : State) : option State :=
  if negb (truthy (trim (storyDraft s))) then None
  else Some (statements [ setAppState GENERATING_SCENES; setError None ] s).

(** [handleGenerateScenes] from the result of its [await] on; [captured] is
    the state of the render whose handler was called, where [user] is read. *)
Definition handleGenerateScenes_settle (captured : State)
  (r : result (list json)) : State -> State :=
  match r with
  | Ok generatedScenes =>
      statements
        ([ setScenes generatedScenes ] ++
         match user captured with
         | Some u =>
             [ updateUserActivity (email u)
                 (Z.of_nat (List.length generatedScenes)) ]
         | None => []
         end ++
         [ setAppState RESULTS ])
  | Throw err =>
      let friendlyMsg := getFriendlyErrorMessage err in
      statements [ setError (Some friendlyMsg); setAppState STORY_REVIEW ]
  end.

(** The controller holds the parsed value at the type [Scene[]] and reads
    its [length]: the model follows it when the value is an array, whatever
    its elements are.  Of a value that is no array the types of the program
    say nothing, and the run is [Untyped]. *)
Inductive run (A : Type) : Type :=
| Typed (a : A)
| Untyped.
Arguments Typed {A} a.
Arguments Untyped {A}.

Definition as_array (v : json) : option (list json) :=
  match v with
  | JArr l => Some l
  | _ => None
  end.

Definition handleGenerateScenes (env : Env) (s : State) (w : World)
  : run (State * World) :=
  match handleGenerateScenes_start s with
  | None => Typed (s, w)
  | Some s1 =>
      let (r, w') :=
        generateScenesFromStory env (storyDraft s) (safeDuration s)
          (allowVariations s) w in
      match r with
      | Throw err => Typed (handleGenerateScenes_settle s (Throw err) s1, w')
      | Ok v =>
          match as_array v with
          | Some generatedScenes =>
              Typed (handleGenerateScenes_settle s (Ok generatedScenes) s1, w')
          | None => Untyped
          end
      end
  end.

(** [handleDownloadAll]: the name and the content of the file; [now] is
    [Date.now()]. *)
Definition handleDownloadAll (now : Z) (s : State) : jsstring * jsstring :=
  (str "story-flow-" ++ Z_toString now ++ str ".json",
   JSON_stringify2 (JArr (scenes s))).

(** [jsonPrompt] of [SceneCard]. *)
Definition jsonPrompt (scene : json) : jsstring := JSON_stringify2 scene.

(** [confirmed] is the answer of [window.confirm]. *)
Definition handleReset (confirmed : bool) : State -> State :=
  if confirmed then
    statements
      [ setAppState INPUT; setTopic []; setCustomDialogue [];
        setStoryDraft []; setDuration 1; setScenes [] ]
  else statements [].

Definition handleBackToInput : State -> State := setAppState INPUT.

Definition handleAdminLoginSubmit (s : State) : State :=
  if jsstring_eqb (adminPassword s) (str "Veo816209") then
    statements
      [ setAppState ADMIN_DASHBOARD; setAdminError []; setAdminPassword [] ] s
  else setAdminError (str "Invalid access code.") s.

Definition handleExitAdmin : State -> State :=
  statements [ setAppState LOGIN; setAdminPassword []; setAdminError [] ].

Definition handleDeleteUser_filter (userId : jsstring)
  (prev : list UserStats) : list UserStats :=
  filter (fun u => negb (jsstring_eqb (id u) userId)) prev.

Definition handleDeleteUser (userId : jsstring) (confirmed : bool)
  : State -> State :=
  if confirmed then setUserDb (handleDeleteUser_filter userId)
  else statements [].

(** ** The words of the specification *)


(** The categories of the error classifier, and its rules as an ordered
    list of a predicate and a category, the first that matches winning. *)
Inductive Category : Type :=
| MissingCredential
| RateLimit
| Authentication
| ServiceUnavailable
| Network
| MalformedResponse
| SafetyBlock
| Generic.

Definition classifier_rules : list ((jsstring -> bool) * Category) :=
  [ (fun m => includes m "API Key is missing", MissingCredential);
    (fun m => includes m "429" || includes (toLowerCase m) "quota"
              || includes (toLowerCase m) "exhausted", RateLimit);
    (fun m => includes m "400" || includes m "403"
              || includes m "API key not valid", Authentication);
    (fun m => includes m "500" || includes m "503"
              || includes (toLowerCase m) "overloaded", ServiceUnavailable);
    (fun m => includes (toLowerCase m) "fetch"
              || includes (toLowerCase m) "network"
              || includes (toLowerCase m) "failed to connect", Network);
    (fun m => includes m "JSON" || includes m "SyntaxError"
              || includes m "Unexpected token", MalformedResponse);
    (fun m => includes (toLowerCase m) "safety"
              || includes (toLowerCase m) "blocked"
              || includes m "candidate", SafetyBlock) ].

Fixpoint first_match (rules : list ((jsstring -> bool) * Category))
  (m : jsstring) : Category :=
  match rules with
  | [] => Generic
  | (p, c) :: rest => if p m then c else first_match rest m
  end.

Definition classify (m : jsstring) : Category := first_match classifier_rules m.

(** What the user reads for a category. *)
Definition friendly_text (c : Category) (m : jsstring) : jsstring :=
  match c with
  | MissingCredential =>
      str "Configuration Error: The API Key is missing. Please check your environment settings."
  | RateLimit =>
      str "Usage Limit Exceeded: The AI service is currently busy or you have hit your rate limit. Please wait a minute and try again."
  | Authentication =>
      str "Authentication Error: The provided API key is invalid or has expired."
  | ServiceUnavailable =>
      str "Service Unavailable: Google's AI servers are currently overloaded. Please try again shortly."
  | Network =>
      str "Connection Error: Unable to reach the AI service. Please check your internet connection."
  | MalformedResponse =>
      str "Data Processing Error: The AI failed to generate valid structured data. Retrying usually fixes this."
  | SafetyBlock =>
      str "Content Blocked: The request was flagged by safety filters. Please try modifying your topic or prompt."
  | Generic =>
      str "An unexpected error occurred: " ++ slice0 150 m ++
      (if (150 <? List.length m)%nat then str "..." else [])
  end.

(** The category a user-facing text belongs to, read off its first words. *)
Definition category_of_text (t : jsstring) : Category :=
  if startsWith t (str "Configuration Error:") then MissingCredential
  else if startsWith t (str "Usage Limit Exceeded:") then RateLimit
  else if startsWith t (str "Authentication Error:") then Authentication
  else if startsWith t (str "Service Unavailable:") then ServiceUnavailable
  else if startsWith t (str "Connection Error:") then Network
  else if startsWith t (str "Data Processing Error:") then MalformedResponse
  else if startsWith t (str "Content Blocked:") then SafetyBlock
  else Generic.

(** The lists of user records the component can hold: [userDb] starts as
    [INITIAL_MOCK_DB] and is only ever given to [setUserDb] by
    [updateUserActivity] and [handleDeleteUser]. *)
Inductive userDb_reachable : list UserStats -> Prop :=
| userDb_initial : userDb_reachable INITIAL_MOCK_DB
| userDb_updated : forall email0 scenesCount db,
    userDb_reachable db ->
    userDb_reachable (updateUserActivity_map email0 scenesCount db)
| userDb_deleted : forall userId db,
    userDb_reachable db ->
    userDb_reachable (handleDeleteUser_filter userId db).

Definition emails (db : list UserStats) : list jsstring :=
  map (fun u => email (stats_user u)) db.

(** The numbers of a scene are integers that the source holds exactly. *)
Definition Scene_safe (sc : Scene) : Prop :=
  (Z.abs (scene_number sc) <= MAX_SAFE_INTEGER)%Z /\
  (Z.abs (duration_seconds sc) <= MAX_SAFE_INTEGER)%Z.

(** A string of white space only (the empty string is one). *)
Definition whitespace_only (s : jsstring) : Prop :=
  Forall (fun c => isWhiteSpace c = true) s.

(** How a record of the activity list changes when [n] scenes were made for
    the user with the email [email0]. *)
Definition activity_recorded (email0 : jsstring) (n : nat)
  (old new : UserStats) : Prop :=
  if jsstring_eqb (email (stats_user old)) email0 then
    stats_user new = stats_user old /\ id new = id old /\ role new = role old /\
    storiesGenerated new =
      (storiesGenerated old + (if Nat.eqb n 0 then 0 else 1))%Z /\
    totalScenesGenerated new = (totalScenesGenerated old + Z.of_nat n)%Z
  else new = old.

(** ** Auxiliary notions of the proofs *)

(** What may follow the digits of a number. *)
Definition starts_no_digit (r : jsstring) : Prop :=
  match r with
  | [] => True
  | c :: _ => is_digit c = false
  end.

Definition number_end (r : jsstring) : Prop :=
  match r with
  | [] => True
  | c :: _ =>
      is_digit c = false /\ is_char c "." = false /\
      is_char c "e" = false /\ is_char c "E" = false
  end.


(** The fuel that reading a value back takes. *)
Fixpoint need (v : json) : nat :=
  match v with
  | JArr l => S (fold_right (fun x n => S (Nat.max (need x) n)) O l)
  | JObj ms =>
      S (fold_right
           (fun (kv : jsstring * json) n =>
              let (_, x) := kv in S (Nat.max (need x) n)) O ms)
  | _ => 1%nat
  end.

(** A value whose numbers are integers up to [MAX_SAFE_INTEGER] in
    absolute value and whose objects have no key twice. *)
Fixpoint canonical (v : json) : Prop :=
  match v with
  | JNum m k => k = O /\ (Z.abs m <= MAX_SAFE_INTEGER)%Z
  | JInf _ => False
  | JArr l => fold_right (fun x P => canonical x /\ P) True l
  | JObj ms =>
      NoDup (map fst ms) /\
      fold_right
        (fun (kv : jsstring * json) P => let (_, x) := kv in canonical x /\ P)
        True ms
  | _ => True
  end.

(** The property of one value that the round trip is made of. *)
Definition reads_back (v : json) : Prop :=
  forall (stepback f : nat) (rest : jsstring),
    (need v <= f)%nat -> number_end rest ->
    parse_value f (serialize stepback v ++ rest) = Some (v, rest).

Definition member_text (indent : nat) (kv : jsstring * json) : jsstring :=
  let (k, x) := kv in QuoteJSONString k ++ str ": " ++ serialize indent x.

Definition separator (indent : nat) : jsstring :=
  str "," ++ newline ++ spaces indent.

(** A reader settles with the fuel [f] when what it reads with [f] is
    shorter than its text and is read with any fuel that is at least the
    number of characters it consumed. *)
Definition settles {A : Type} (parse : nat -> jsstring -> A -> option (json * jsstring))
  (f : nat) : Prop :=
  forall (s : jsstring) (acc : A) (v : json) (r : jsstring),
    parse f s acc = Some (v, r) ->
    (List.length r < List.length s)%nat /\
    forall f', (List.length s - List.length r <= f')%nat ->
               parse f' s acc = Some (v, r).

(** [parse_value] in the form of the two other readers. *)
Definition parse_value' (f : nat) (s : jsstring) (_ : unit) := parse_value f s.

(** ** States and environments of the examples *)

(** A key is configured and the endpoint answers every request with
    [text]. *)
Definition example_env (text : option jsstring) : Env :=
  {| API_KEY := Some (str "key");
     generateContent := fun _ _ => Resolves text;
     syntaxErrorMessage := fun _ => str "Unexpected token" |}.

(** No key is configured. *)
Definition no_key_env : Env :=
  {| API_KEY := None;
     generateContent := fun _ _ => Resolves (Some (str "text"));
     syntaxErrorMessage := fun _ => str "Unexpected token" |}.

(** A key is configured and the endpoint rejects every request. *)
Definition failing_env : Env :=
  {| API_KEY := Some (str "key");
     generateContent := fun _ _ => Rejects (ErrorObject (str "503 overloaded"));
     syntaxErrorMessage := fun _ => str "Unexpected token" |}.

Definition fresh_World : World := {| aiClient := None; network := [] |}.

Definition alice : User :=
  {| email := str "alice@studio.com"; name := str "Alice Director";
     avatar := str "https://picsum.photos/100/100?random=1" |}.

(** The review stage: Alice is signed in and a draft is there. *)
Definition review_State : State :=
  statements
    [ setUser (Some alice); setAppState STORY_REVIEW;
      setTopic (str "A lighthouse keeper finds a message in a bottle");
      setStoryDraft (str "The keeper climbs the stairs.") ]
    (initial_State []).

(** The results stage, entered from the review stage with the relaxed mode
    chosen. *)
Definition results_State : State :=
  handleGenerateScenes_settle review_State (Ok [JObj []])
    (statements [ setAllowVariations true; setAppState GENERATING_SCENES;
                  setError None ] review_State).

(** The results stage with an error left by an older request: a draft
    request is pending when the user signs out and in again; a second draft
    succeeds; while the scene request is pending the first draft request is
    rejected; then the scene request succeeds. *)
Definition stale_error_State : State :=
  let s1 := setTopic (str "A lighthouse") (handleDemoLogin (initial_State [])) in
  let s2 :=
    match handleGenerateDraft_start s1 with Some s => s | None => s1 end in
  let s3 := setTopic (str "A lighthouse") (handleDemoLogin (handleLogout s2)) in
  let s4 :=
    fst (handleGenerateDraft (example_env (Some (str "The keeper climbs.")))
           s3 fresh_World) in
  let s5 :=
    match handleGenerateScenes_start s4 with Some s => s | None => s4 end in
  let s6 :=
    handleGenerateDraft_settle (Throw (ErrorObject (str "Failed to fetch"))) s5 in
  handleGenerateScenes_settle s4 (Ok [JObj []]) s6.

Definition two_scenes : list json :=
  [ JObj [ (str "scene_number", JNum 1 0) ];
    JObj [ (str "scene_number", JNum 2 0) ] ].

(** A topic of three spaces and a draft of a tab, a line feed and a
    no-break space. *)
Definition blank_State : State :=
  statements [ setTopic (str "   "); setStoryDraft [9%N; 10%N; 160%N] ]
    review_State.

Definition example_Scene : Scene :=
  {| scene_number := 1; duration_seconds := 10;
     setting_description := str "A lighthouse at dusk";
     character_appearance := str "An old keeper, grey beard, yellow coat";
     action_description := [34%N; 72%N; 105%N; 34%N; 10%N; 92%N; 55357%N];
     dialogue := [];
     camera_angle := str "Wide Shot";
     lighting := str "Sunset";
     mood := str "Calm" |}.

(** The duration 1.4166666666666665, as the binary64 number it is: six
    times it is 8.499999999999999 and a little, and the product of the
    source is 8.5. *)
Definition awkward_duration : number := 3190049736054101 # 2251799813685248.

(** A response with one scene, whose number is beyond the binary64
    numbers: [1e400]. *)
Definition quoted (s : jsstring) : jsstring := dq ++ s ++ dq.

Definition overflow_response : jsstring :=
  str "[{" ++ quoted (str "scene_number") ++ str ":1e400," ++
  quoted (str "duration_seconds") ++ str ":10," ++
  quoted (str "setting_description") ++ str ":" ++ quoted (str "A pier") ++
  str "," ++
  quoted (str "character_appearance") ++ str ":" ++
  quoted (str "An old keeper") ++ str "," ++
  quoted (str "action_description") ++ str ":" ++
  quoted (str "He waits") ++ str "," ++
  quoted (str "dialogue") ++ str ":" ++ quoted [] ++ str "," ++
  quoted (str "camera_angle") ++ str ":" ++ quoted (str "Wide Shot") ++
  str "," ++
  quoted (str "lighting") ++ str ":" ++ quoted (str "Dusk") ++ str "," ++
  quoted (str "mood") ++ str ":" ++ quoted (str "Calm") ++ str "}]".

(** The scene that [JSON.parse] makes of it, with the number [n]. *)
Definition pier_scene (n : json) : json :=
  JObj [ (str "scene_number", n);
         (str "duration_seconds", JNum 10 0);
         (str "setting_description", JStr (str "A pier"));
         (str "character_appearance", JStr (str "An old keeper"));
         (str "action_description", JStr (str "He waits"));
         (str "dialogue", JStr []);
         (str "camera_angle", JStr (str "Wide Shot"));
         (str "lighting", JStr (str "Dusk"));
         (str "mood", JStr (str "Calm")) ].

(** ** What the views of [src/App.tsx] compute *)

(** [a < b] on numbers. *)
Definition num_lt (a b : number) : bool := negb (Qle_bool b a).

(** [a === b] on the stages. *)
Definition AppState_eqb (a b : AppState) : bool :=
  match a, b with
  | LOGIN, LOGIN | INPUT, INPUT | GENERATING_STORY, GENERATING_STORY
  | STORY_REVIEW, STORY_REVIEW | GENERATING_SCENES, GENERATING_SCENES
  | RESULTS, RESULTS | ADMIN_LOGIN, ADMIN_LOGIN
  | ADMIN_DASHBOARD, ADMIN_DASHBOARD => true
  | _, _ => false
  end.

Definition isGenerating (s : State) : bool :=
  AppState_eqb (appState s) GENERATING_STORY ||
  AppState_eqb (appState s) GENERATING_SCENES.

(** What the component returns: one of the three early returns, or the main
    view with its three conditional panels (input, review, results), each
    with the value of the condition that guards it. *)
Inductive View : Type :=
| LoginView
| AdminLoginView
| AdminDashboardView
| MainView (inputPanel reviewPanel resultsPanel : bool).

Definition App_view (s : State) : View :=
  if AppState_eqb (appState s) LOGIN then LoginView
  else if AppState_eqb (appState s) ADMIN_LOGIN then AdminLoginView
  else if AppState_eqb (appState s) ADMIN_DASHBOARD then AdminDashboardView
  else
    MainView
      (AppState_eqb (appState s) INPUT ||
       AppState_eqb (appState s) GENERATING_STORY)
      (AppState_eqb (appState s) STORY_REVIEW ||
       AppState_eqb (appState s) GENERATING_SCENES)
      (AppState_eqb (appState s) RESULTS).

(** The expressions given as [disabled] to the button of
    [handleGenerateDraft] and to the button of [handleGenerateScenes]. *)
Definition draftButton_disabled (s : State) : bool :=
  negb (truthy (trim (topic s))) || num_lt (duration s) 1.

Definition scenesButton_disabled (s : State) : bool :=
  negb (truthy (trim (storyDraft s))).

(** The two totals of the administrator dashboard: [userDb.length] and
    [userDb.reduce((acc, curr) => acc + curr.storiesGenerated, 0)]. *)
Definition dashboard_totalUsers (db : list UserStats) : nat := List.length db.

Definition dashboard_totalStories (db : list UserStats) : Z :=
  fold_left (fun acc curr => (acc + storiesGenerated curr)%Z) db 0%Z.

(** ** The component as a transition system

    What changes the state of the component: the handlers, the inline
    setters of the views, the timer of the demo login, the failure of the
    sign-in initialisation in the effect, and the continuations of the two
    requests.  A request that was sent is pending until it settles; the
    continuation of a scene request reads [user] in the state of the render
    that sent it. *)
Inductive Pending : Type :=
| PendingDraft
| PendingScenes (captured : State).

Record Config : Type := {
  current : State;
  pending : list Pending
}.

Inductive Event : Type :=
| InitializeFails
| CredentialResponse (decoded : option User)
| DemoLoginTimer
| ConfigureClientId
| ChangeGoogleClientId (v : jsstring)
| AdminAccess
| ChangeAdminPassword (v : jsstring)
| AdminLoginSubmit
| ExitAdmin
| DeleteUser (userId : jsstring) (confirmed : bool)
| Logout
| ChangeTopic (v : jsstring)
| ChangeCustomDialogue (v : jsstring)
| ChangeDuration (v : number)
| ChangeStoryDraft (v : jsstring)
| ChangeAllowVariations (v : bool)
| GenerateDraft
| DraftSettles (i : nat) (r : result jsstring)
| GenerateScenes
| ScenesSettle (i : nat) (r : result json)
| BackToInput
| Reset (confirmed : bool)
| DownloadAll.

Definition Config_update (f : State -> State) (c : Config) : Config :=
  {| current := f (current c); pending := pending c |}.

Definition remove_nth {A : Type} (i : nat) (l : list A) : list A :=
  firstn i l ++ skipn (S i) l.

(** One event.  Any handler may run in any state and a request may settle
    with any result: the views and the service allow fewer runs, not more.
    A scene request settles with a thrown value or with whatever value
    [JSON.parse] gave; with a value that is no array the component leaves
    its types, as in [handleGenerateScenes], and the run is [Untyped]. *)
Definition step (c : Config) (e : Event) : run Config :=
  match e with
  | InitializeFails =>
      Typed
        (Config_update
           (setLoginError (Some (str "Failed to initialize Google Sign-In.")))
           c)
  | CredentialResponse decoded =>
      Typed (Config_update (handleGoogleCredentialResponse decoded) c)
  | DemoLoginTimer => Typed (Config_update handleDemoLogin c)
  | ConfigureClientId => Typed (Config_update (setShowClientConfig true) c)
  | ChangeGoogleClientId v => Typed (Config_update (setGoogleClientId v) c)
  | AdminAccess => Typed (Config_update (setAppState ADMIN_LOGIN) c)
  | ChangeAdminPassword v => Typed (Config_update (setAdminPassword v) c)
  | AdminLoginSubmit => Typed (Config_update handleAdminLoginSubmit c)
  | ExitAdmin => Typed (Config_update handleExitAdmin c)
  | DeleteUser userId confirmed =>
      Typed (Config_update (handleDeleteUser userId confirmed) c)
  | Logout => Typed (Config_update handleLogout c)
  | ChangeTopic v => Typed (Config_update (setTopic v) c)
  | ChangeCustomDialogue v => Typed (Config_update (setCustomDialogue v) c)
  | ChangeDuration v => Typed (Config_update (setDuration v) c)
  | ChangeStoryDraft v => Typed (Config_update (setStoryDraft v) c)
  | ChangeAllowVariations v => Typed (Config_update (setAllowVariations v) c)
  | GenerateDraft =>
      match handleGenerateDraft_start (current c) with
      | Some s1 =>
          Typed {| current := s1; pending := PendingDraft :: pending c |}
      | None => Typed c
      end
  | DraftSettles i r =>
      match nth_error (pending c) i with
      | Some PendingDraft =>
          Typed {| current := handleGenerateDraft_settle r (current c);
                   pending := remove_nth i (pending c) |}
      | _ => Typed c
      end
  | GenerateScenes =>
      match handleGenerateScenes_start (current c) with
      | Some s1 =>
          Typed {| current := s1;
                   pending := PendingScenes (current c) :: pending c |}
      | None => Typed c
      end
  | ScenesSettle i r =>
      match nth_error (pending c) i with
      | Some (PendingScenes captured) =>
          match r with
          | Throw err =>
              Typed {| current :=
                         handleGenerateScenes_settle captured (Throw err)
                           (current c);
                       pending := remove_nth i (pending c) |}
          | Ok v =>
              match as_array v with
              | Some generatedScenes =>
                  Typed {| current :=
                             handleGenerateScenes_settle captured
                               (Ok generatedScenes) (current c);
                           pending := remove_nth i (pending c) |}
              | None => Untyped
              end
          end
      | _ => Typed c
      end
  | BackToInput => Typed (Config_update handleBackToInput c)
  | Reset confirmed => Typed (Config_update (handleReset confirmed) c)
  | DownloadAll => Typed c
  end.

Definition initial_Config (clientId : jsstring) : Config :=
  {| current := initial_State clientId; pending := [] |}.

(** The events of a run, one after the other, as long as the component
    holds values of its types. *)
Fixpoint run_events (events : list Event) (c : Config) : run Config :=
  match events with
  | [] => Typed c
  | e :: rest =>
      match step c e with
      | Typed c' => run_events rest c'
      | Untyped => Untyped
      end
  end.

(** An event that keeps the component within its types: every event but a
    scene request that succeeds with a value that is no array. *)
Definition within_types (e : Event) : Prop :=
  match e with
  | ScenesSettle _ (Ok v) => as_array v <> None
  | _ => True
  end.

(** ** Notions of the further properties *)

(** The module holds one client: every request of the log was sent with
    it, and no request was sent before it was made. *)
Definition client_singleton (w : World) : Prop :=
  match aiClient w with
  | Some c => Forall (fun entry => fst entry = c) (network w)
  | None => network w = []
  end.

(** A value no object of which has a key twice. *)
Fixpoint keys_distinct (v : json) : Prop :=
  match v with
  | JArr l => fold_right (fun x P => keys_distinct x /\ P) True l
  | JObj ms =>
      NoDup (map fst ms) /\
      fold_right
        (fun (kv : jsstring * json) P => let (_, x) := kv in keys_distinct x /\ P)
        True ms
  | _ => True
  end.

(** A value whose numbers are integers that a JavaScript number holds
    exactly (up to [Number.MAX_SAFE_INTEGER] in absolute value). *)
Fixpoint safe_integers (v : json) : Prop :=
  match v with
  | JNum m k => k = O /\ (Z.abs m <= 9007199254740991)%Z
  | JInf _ => False
  | JArr l => fold_right (fun x P => safe_integers x /\ P) True l
  | JObj ms =>
      fold_right
        (fun (kv : jsstring * json) P => let (_, x) := kv in safe_integers x /\ P)
        True ms
  | _ => True
  end.

(** The records of the activity list as the component keeps them: no
    identifier and no email twice, at most the four users of the initial
    list, and for each user no more stories than clips. *)
Definition userDb_ok (db : list UserStats) : Prop :=
  NoDup (map id db) /\ NoDup (emails db) /\ (List.length db <= 4)%nat /\
  Forall (fun u => (0 <= storiesGenerated u <= totalScenesGenerated u)%Z) db.

(** The error that the views show is absent or a text of the error helper. *)
Definition error_ok (s : State) : Prop :=
  match error s with
  | None => True
  | Some m => exists err, m = getFriendlyErrorMessage err
  end.

(** The error as the views render it: the input panel and the review panel
    render [error] when it is truthy, and no other view renders it. *)
Definition errorBanner (s : State) : option jsstring :=
  match App_view s with
  | MainView inputPanel reviewPanel _ =>
      if inputPanel || reviewPanel then
        match error s with
        | Some m => if truthy m then Some m else None
        | None => None
        end
      else None
  | _ => None
  end.

(** A loading stage has its request pending. *)
Definition spinner_ok (c : Config) : Prop :=
  match appState (current c) with
  | GENERATING_STORY => In PendingDraft (pending c)
  | GENERATING_SCENES => exists captured, In (PendingScenes captured) (pending c)
  | _ => True
  end.

(** How many records carry an email. *)
Definition count_email (email0 : jsstring) (db : list UserStats) : nat :=
  List.length (filter (fun u => jsstring_eqb (email (stats_user u)) email0) db).

(** ** Further states of the examples *)

(** The input stage with a topic and a duration of two minutes. *)
Definition input_State : State :=
  statements
    [ setTopic (str "A lighthouse keeper finds a message in a bottle");
      setDuration 2 ]
    (handleDemoLogin (initial_State [])).

(** A world in which one draft request has been sent. *)
Definition used_World : World :=
  snd (generateStoryDraft (example_env (Some (str "The keeper climbs.")))
         (str "A lighthouse") None 1 fresh_World).

(** A session of the demo user: a draft, then its scenes. *)
Definition example_events : list Event :=
  [ DemoLoginTimer; ChangeTopic (str "A lighthouse"); GenerateDraft;
    DraftSettles 0 (Ok (str "The keeper climbs."));
    GenerateScenes; ScenesSettle 0 (Ok (JArr two_scenes)) ].

(** The place of a category in the order of the rules of the helper. *)
Definition rank (c : Category) : nat :=
  match c with
  | MissingCredential => 0
  | RateLimit => 1
  | Authentication => 2
  | ServiceUnavailable => 3
  | Network => 4
  | MalformedResponse => 5
  | SafetyBlock => 6
  | Generic => 7
  end.

(** The words that the helper looks for in the lower-cased message, each
    with the category of its rule. *)
Definition lower_case_keywords : list (jsstring * Category) :=
  [ (str "quota", RateLimit); (str "exhausted", RateLimit);
    (str "overloaded", ServiceUnavailable);
    (str "fetch", Network); (str "network", Network);
    (str "failed to connect", Network);
    (str "safety", SafetyBlock); (str "blocked", SafetyBlock) ].
(** ** Facts about strings *)

Lemma jsstring_eqb_spec (a b : jsstring) : reflect (a = b) (jsstring_eqb a b).
Proof.
  revert b; induction a as [|x a IH]; intros [|y b]; simpl;
    try (constructor; congruence).
  destruct (N.eqb_spec x y) as [->|Hxy]; simpl.
  - destruct (IH b) as [->|Hab]; constructor; congruence.
  - constructor; congruence.
Qed.

Lemma jsstring_eqb_refl (a : jsstring) : jsstring_eqb a a = true.
Proof. destruct (jsstring_eqb_spec a a); congruence. Qed.

Lemma startsWith_spec (s p : jsstring) :
  startsWith s p = true <-> exists r, s = p ++ r.
Proof.
  revert s; induction p as [|x p IH]; intros s; simpl.
  - split; [intros _; now exists s | reflexivity].
  - destruct s as [|y s].
    + split; [discriminate | intros [r Hr]; discriminate].
    + rewrite andb_true_iff, N.eqb_eq, IH. split.
      * intros [-> [r ->]]. now exists r.
      * intros [r Hr]. injection Hr as -> ->. split; [reflexivity | now exists r].
Qed.

Lemma includes_spec (s sub : jsstring) :
  includes s sub = true <-> exists a b, s = a ++ sub ++ b.
Proof.
  induction s as [|c s IH]; simpl.
  - rewrite orb_false_r, startsWith_spec. split.
    + intros [r Hr]. now exists [], r.
    + intros [a [b H]]. destruct a; [now exists b | discriminate].
  - rewrite orb_true_iff, startsWith_spec, IH. split.
    + intros [[r Hr] | [a [b Hab]]].
      * now exists [], r.
      * exists (c :: a), b. now rewrite Hab.
    + intros [[|x a] [b H]].
      * left. now exists b.
      * right. injection H as _ ->. now exists a, b.
Qed.

Lemma toLowerCase_app (a b : jsstring) :
  toLowerCase (a ++ b) = toLowerCase a ++ toLowerCase b.
Proof. apply flat_map_app. Qed.

Lemma trimStart_whitespace (s : jsstring) :
  whitespace_only s -> trimStart s = [].
Proof.
  induction 1 as [|c s Hc _ IH]; simpl; [reflexivity|]. now rewrite Hc.
Qed.

Lemma trim_whitespace (s : jsstring) : whitespace_only s -> trim s = [].
Proof.
  intros H. unfold trim, trimEnd. now rewrite (trimStart_whitespace s H).
Qed.

Lemma trimStart_nil_whitespace (s : jsstring) :
  trimStart s = [] -> whitespace_only s.
Proof.
  induction s as [|c s IH]; simpl; [constructor|].
  destruct (isWhiteSpace c) eqn:Hc; [|discriminate].
  intros H. constructor; [exact Hc | exact (IH H)].
Qed.

Lemma trim_nil_whitespace (s : jsstring) : trim s = [] -> whitespace_only s.
Proof.
  unfold trim, trimEnd. intros H.
  apply trimStart_nil_whitespace.
  destruct (trimStart s) as [|c r] eqn:E; [reflexivity|].
  exfalso. simpl in H.
  assert (Hrev : rev (trimStart (rev r ++ [c])) = []) by exact H.
  apply (f_equal (@rev _)) in Hrev. rewrite rev_involutive in Hrev.
  simpl in Hrev.
  assert (Hc : isWhiteSpace c = false).
  { clear - E. induction s as [|x s IH]; simpl in E; [discriminate|].
    destruct (isWhiteSpace x) eqn:Hx; [auto|]. now injection E as -> _. }
  clear - Hrev Hc. induction (rev r) as [|x l IH]; simpl in Hrev.
  - now rewrite Hc in Hrev.
  - destruct (isWhiteSpace x); [auto | discriminate].
Qed.

(** ** Facts about numbers as text *)

Lemma read_digits_digits (u : Decimal.uint) (r : jsstring) :
  starts_no_digit r -> read_digits (digits_of_uint u ++ r) = (u, r).
Proof.
  intros Hr. induction u as [|u IH|u IH|u IH|u IH|u IH|u IH|u IH|u IH|u IH|u IH];
    simpl; try (rewrite IH; reflexivity).
  destruct r as [|c r]; simpl in *; [reflexivity | now rewrite Hr].
Qed.

Lemma to_uint_no_leading_zero (p : positive) (u : Decimal.uint) :
  Pos.to_uint p <> Decimal.D0 u.
Proof.
  intros E.
  pose proof (Unsigned.to_of (Pos.to_uint p)) as H.
  rewrite Unsigned.of_to in H. simpl in H.
  unfold Decimal.unorm in H.
  destruct (Decimal.nzhead (Pos.to_uint p)) eqn:Hn;
    try (rewrite E in H; discriminate).
  - apply (Unsigned.to_uint_nonzero p). rewrite H. reflexivity.
  - exact (nzhead_nonzero _ _ Hn).
Qed.

Lemma digits_of_to_uint_head (p : positive) :
  exists c r, digits_of_uint (Pos.to_uint p) = c :: r /\
              is_digit c = true /\ is_char c "0" = false /\
              is_char c "-" = false.
Proof.
  destruct (Pos.to_uint p) as [|u|u|u|u|u|u|u|u|u|u] eqn:E;
    try (simpl; eexists; eexists; repeat split; reflexivity).
  - now destruct (Unsigned.to_uint_nonnil p).
  - now destruct (to_uint_no_leading_zero p u).
Qed.

Lemma Z_of_to_uint (p : positive) : Z.of_uint (Pos.to_uint p) = Zpos p.
Proof. unfold Z.of_uint. now rewrite Unsigned.of_to. Qed.

Lemma read_int_digits (p : positive) (r : jsstring) :
  starts_no_digit r ->
  read_int (digits_of_uint (Pos.to_uint p) ++ r) = Some (Pos.to_uint p, r).
Proof.
  intros Hr. destruct (digits_of_to_uint_head p) as [c [t [E [Hd [H0 _]]]]].
  pose proof (read_digits_digits (Pos.to_uint p) r Hr) as H.
  rewrite E in *. simpl in *. rewrite H0, Hd in *.
  now rewrite H.
Qed.

Lemma read_fraction_none (r : jsstring) :
  number_end r -> read_fraction r = Some (Decimal.Nil, r).
Proof.
  destruct r as [|c r]; simpl; [reflexivity|].
  intros [_ [-> _]]. reflexivity.
Qed.

Lemma read_exponent_none (r : jsstring) :
  number_end r -> read_exponent r = Some (0%Z, r).
Proof.
  destruct r as [|c r]; simpl; [reflexivity|].
  intros [_ [_ [-> ->]]]. reflexivity.
Qed.

Lemma number_end_no_digit (r : jsstring) : number_end r -> starts_no_digit r.
Proof. destruct r; simpl; tauto. Qed.

Lemma safe_below_overflow (z : Z) :
  (Z.abs z <= MAX_SAFE_INTEGER)%Z -> inject_Z (Z.abs z) < binary64_overflow.
Proof.
  intros H. rewrite Zle_Qle in H.
  eapply Qle_lt_trans; [exact H|]. vm_compute. reflexivity.
Qed.

Lemma decimal_value_integer (neg : bool) (i : Decimal.uint) :
  inject_Z (Z.of_uint i) < binary64_overflow ->
  decimal_value neg i Decimal.Nil 0 =
  JNum (if neg then - Z.of_uint i else Z.of_uint i) 0.
Proof.
  intros H. unfold decimal_value. rewrite DecimalFacts.app_nil_r.
  change (0 - Z.of_nat (Decimal.nb_digits Decimal.Nil))%Z with 0%Z.
  cbn [Z.leb Z.compare Z.pow].
  assert (E : Qle_bool binary64_overflow (inject_Z (Z.of_uint i) * 10 ^ 0)
              = false).
  { destruct (Qle_bool _ _) eqn:E; [|reflexivity].
    apply Qle_bool_iff in E. rewrite Qpower_0_r, Qmult_1_r in E. lra. }
  rewrite E. now rewrite Z.mul_1_r.
Qed.

(** An integer that a binary64 number holds exactly is read back from its
    digits. *)
Lemma read_number_Z (z : Z) (r : jsstring) :
  (Z.abs z <= MAX_SAFE_INTEGER)%Z ->
  number_end r -> read_number (Z_toString z ++ r) = Some (JNum z 0, r).
Proof.
  intros Hz Hr. pose proof (number_end_no_digit r Hr) as Hd.
  apply safe_below_overflow in Hz.
  unfold read_number, Z_toString. destruct z as [|p|p].
  - cbn [app]. replace (is_char (cu "0") "-") with false by reflexivity.
    unfold read_int. replace (is_char (cu "0") "0") with true by reflexivity.
    rewrite (read_fraction_none r Hr), (read_exponent_none r Hr).
    now rewrite decimal_value_integer by exact Hz.
  - destruct (digits_of_to_uint_head p) as [c [t [E [_ [_ Hm]]]]].
    pose proof (read_int_digits p r Hd) as Hi.
    rewrite E in *. cbn [app] in *. rewrite Hm, Hi.
    rewrite (read_fraction_none r Hr), (read_exponent_none r Hr).
    rewrite decimal_value_integer by (now rewrite Z_of_to_uint).
    now rewrite Z_of_to_uint.
  - cbn [app]. replace (is_char (cu "-") "-") with true by reflexivity.
    rewrite (read_int_digits p r Hd).
    rewrite (read_fraction_none r Hr), (read_exponent_none r Hr).
    rewrite decimal_value_integer by (now rewrite Z_of_to_uint).
    now rewrite Z_of_to_uint.
Qed.

(** ** Facts about strings as text *)

Lemma hexval_hexdigit (d : N) : (d < 16)%N -> hexval (hexdigit d) = Some d.
Proof.
  intros Hd. unfold hexdigit, hexval.
  destruct (N.ltb_spec d 10).
  - replace ((48 <=? 48 + d) && (48 + d <=? 57))%N with true.
    + f_equal. lia.
    + symmetry. apply andb_true_iff. split; apply N.leb_le; lia.
  - replace ((48 <=? 87 + d) && (87 + d <=? 57))%N with false.
    + replace ((97 <=? 87 + d) && (87 + d <=? 102))%N with true.
      * f_equal. lia.
      * symmetry. apply andb_true_iff. split; apply N.leb_le; lia.
    + symmetry. apply andb_false_iff. right. apply N.leb_gt. lia.
Qed.

Lemma hex_digits_sum (c : N) :
  (c < 65536)%N ->
  (4096 * (c / 4096 mod 16) + 256 * (c / 256 mod 16) + 16 * (c / 16 mod 16)
   + c mod 16 = c)%N.
Proof.
  intros Hc.
  assert (H4096 : (c / 4096 mod 16 = c / 4096)%N).
  { apply N.mod_small. apply N.Div0.div_lt_upper_bound. lia. }
  rewrite H4096.
  pose proof (N.Div0.div_mod c 16) as H1.
  pose proof (N.Div0.div_mod (c / 16) 16) as H2.
  pose proof (N.Div0.div_mod (c / 256) 16) as H3.
  assert (E2 : (c / 16 / 16 = c / 256)%N) by (rewrite N.Div0.div_div; reflexivity).
  assert (E3 : (c / 256 / 16 = c / 4096)%N) by (rewrite N.Div0.div_div; reflexivity).
  rewrite E2 in H2. rewrite E3 in H3. lia.
Qed.

Lemma hex4_UnicodeEscape (c : N) :
  (c < 65536)%N ->
  hex4 (hexdigit (c / 4096 mod 16)) (hexdigit (c / 256 mod 16))
       (hexdigit (c / 16 mod 16)) (hexdigit (c mod 16)) = Some c.
Proof.
  intros Hc. unfold hex4.
  rewrite !hexval_hexdigit by (apply N.mod_lt; discriminate).
  now rewrite hex_digits_sum.
Qed.

Lemma read_string_unicode (c : code_unit) (rest : jsstring) :
  (c < 65536)%N ->
  read_string (UnicodeEscape c ++ rest) = cons_fst c (read_string rest).
Proof.
  intros Hc. unfold UnicodeEscape.
  change (str "\u") with [92%N; 117%N]. cbn [app read_string].
  replace (92 =? 34)%N with false by reflexivity.
  replace (is_char 92%N "\") with true by reflexivity.
  replace (is_char 117%N "u") with true by reflexivity.
  cbv iota. now rewrite hex4_UnicodeEscape.
Qed.

Lemma read_string_raw (c : code_unit) (rest : jsstring) :
  (c =? 34)%N = false -> (c =? 92)%N = false -> (c <? 32)%N = false ->
  read_string (c :: rest) = cons_fst c (read_string rest).
Proof.
  intros H1 H2 H3. cbn [read_string]. unfold is_char.
  change (cu "\") with 92%N. now rewrite H1, H2, H3.
Qed.

Lemma read_string_escape_unit (c : code_unit) (rest : jsstring) :
  read_string (escape_unit c ++ rest) = cons_fst c (read_string rest).
Proof.
  unfold escape_unit.
  destruct (N.eqb_spec c 8) as [->|H8]; [reflexivity|].
  destruct (N.eqb_spec c 9) as [->|H9]; [reflexivity|].
  destruct (N.eqb_spec c 10) as [->|H10]; [reflexivity|].
  destruct (N.eqb_spec c 12) as [->|H12]; [reflexivity|].
  destruct (N.eqb_spec c 13) as [->|H13]; [reflexivity|].
  destruct (N.eqb_spec c 34) as [->|H34]; [reflexivity|].
  destruct (N.eqb_spec c 92) as [->|H92]; [reflexivity|].
  destruct (N.ltb_spec c 32) as [Hlt|Hge].
  - apply read_string_unicode. lia.
  - apply read_string_raw.
    + now apply N.eqb_neq.
    + now apply N.eqb_neq.
    + now apply N.ltb_ge.
Qed.

Lemma high_surrogate_raw (c : code_unit) (rest : jsstring) :
  is_high_surrogate c = true ->
  read_string (c :: rest) = cons_fst c (read_string rest).
Proof.
  unfold is_high_surrogate. rewrite andb_true_iff, !N.leb_le. intros [H1 H2].
  apply read_string_raw; [apply N.eqb_neq | apply N.eqb_neq | apply N.ltb_ge]; lia.
Qed.

Lemma low_surrogate_raw (c : code_unit) (rest : jsstring) :
  is_low_surrogate c = true ->
  read_string (c :: rest) = cons_fst c (read_string rest).
Proof.
  unfold is_low_surrogate. rewrite andb_true_iff, !N.leb_le. intros [H1 H2].
  apply read_string_raw; [apply N.eqb_neq | apply N.eqb_neq | apply N.ltb_ge]; lia.
Qed.

Lemma surrogate_small (c : code_unit) :
  is_high_surrogate c = true \/ is_low_surrogate c = true -> (c < 65536)%N.
Proof.
  unfold is_high_surrogate, is_low_surrogate.
  rewrite !andb_true_iff, !N.leb_le. lia.
Qed.

Lemma read_string_escape_bounded (n : nat) (s r : jsstring) :
  (List.length s <= n)%nat ->
  read_string (escape s ++ 34%N :: r) = Some (s, r).
Proof.
  revert s. induction n as [|n IH]; intros s Hn.
  - destruct s; [reflexivity | simpl in Hn; lia].
  - destruct s as [|c s]; [reflexivity|]. simpl in Hn.
    cbn [escape].
    destruct (is_high_surrogate c) eqn:Hh.
    + destruct s as [|d s].
      * rewrite read_string_unicode by (apply surrogate_small; auto).
        reflexivity.
      * destruct (is_low_surrogate d) eqn:Hl.
        -- cbn [app]. rewrite (high_surrogate_raw c _ Hh), (low_surrogate_raw d _ Hl).
           rewrite IH by (simpl in Hn; lia). reflexivity.
        -- rewrite <- app_assoc.
           rewrite read_string_unicode by (apply surrogate_small; auto).
           rewrite IH by lia. reflexivity.
    + destruct (is_low_surrogate c) eqn:Hl.
      * rewrite <- app_assoc.
        rewrite read_string_unicode by (apply surrogate_small; auto).
        rewrite IH by lia. reflexivity.
      * rewrite <- app_assoc, read_string_escape_unit.
        rewrite IH by lia. reflexivity.
Qed.

Lemma read_string_Quote (s r : jsstring) :
  read_string (escape s ++ 34%N :: r) = Some (s, r).
Proof. exact (read_string_escape_bounded (List.length s) s r (le_n _)). Qed.

(** ** Facts about the structure of a document *)

Lemma json_ind2 (P : json -> Prop) :
  P JNull -> (forall b, P (JBool b)) -> (forall m k, P (JNum m k)) ->
  (forall negative, P (JInf negative)) -> (forall s, P (JStr s)) ->
  (forall l, Forall P l -> P (JArr l)) ->
  (forall ms, Forall (fun kv => P (snd kv)) ms -> P (JObj ms)) ->
  forall v, P v.
Proof.
  intros Hnull Hbool Hnum Hinf Hstr Harr Hobj.
  refine (fix F (v : json) : P v :=
            match v with
            | JNull => Hnull
            | JBool b => Hbool b
            | JNum m k => Hnum m k
            | JInf negative => Hinf negative
            | JStr s => Hstr s
            | JArr l =>
                Harr l ((fix G (l : list json) : Forall P l :=
                           match l with
                           | [] => Forall_nil _
                           | x :: l' => Forall_cons x (F x) (G l')
                           end) l)
            | JObj ms =>
                Hobj ms ((fix G (ms : members_t)
                           : Forall (fun kv => P (snd kv)) ms :=
                           match ms with
                           | [] => Forall_nil _
                           | (k, x) :: ms' =>
                               Forall_cons (k, x) (F x) (G ms')
                           end) ms)
            end).
Qed.

Lemma skip_ws_spaces (n : nat) (r : jsstring) :
  skip_ws (spaces n ++ r) = skip_ws r.
Proof. induction n as [|n IH]; [reflexivity | exact IH]. Qed.

Lemma skip_ws_newline (r : jsstring) : skip_ws (newline ++ r) = skip_ws r.
Proof. reflexivity. Qed.

Lemma skip_ws_line (n : nat) (r : jsstring) :
  skip_ws (newline ++ spaces n ++ r) = skip_ws r.
Proof. rewrite skip_ws_newline. apply skip_ws_spaces. Qed.

Lemma skip_ws_head (c : code_unit) (r : jsstring) :
  is_json_ws c = false -> skip_ws (c :: r) = c :: r.
Proof. intros H. simpl. now rewrite H. Qed.

Lemma skip_ws_idem (s : jsstring) : skip_ws (skip_ws s) = skip_ws s.
Proof.
  induction s as [|c s IH]; [reflexivity|]. simpl.
  destruct (is_json_ws c) eqn:E; [exact IH|]. simpl. now rewrite E.
Qed.

Lemma parse_value_skip (f : nat) (s s' : jsstring) :
  skip_ws s = skip_ws s' -> parse_value f s = parse_value f s'.
Proof. intros H. destruct f; [reflexivity|]. simpl. now rewrite H. Qed.

Lemma parse_members_skip (f : nat) (s s' : jsstring) (acc : members_t) :
  skip_ws s = skip_ws s' -> parse_members f s acc = parse_members f s' acc.
Proof. intros H. destruct f; [reflexivity|]. simpl. now rewrite H. Qed.

Lemma parse_elements_skip (f : nat) (s s' : jsstring) (acc : list json) :
  skip_ws s = skip_ws s' -> parse_elements f s acc = parse_elements f s' acc.
Proof.
  intros H. destruct f; [reflexivity|]. simpl.
  now rewrite (parse_value_skip f s s' H).
Qed.

(** The first character of a number is a digit or the minus sign. *)
Lemma Z_toString_head (z : Z) :
  exists c t, Z_toString z = c :: t /\ (is_digit c = true \/ c = 45%N).
Proof.
  destruct z as [|p|p].
  - exists 48%N, []. split; [reflexivity | now left].
  - destruct (digits_of_to_uint_head p) as [c [t [E [Hd _]]]].
    exists c, t. split; [exact E | now left].
  - eexists; eexists. split; [reflexivity | now right].
Qed.

Lemma digit_range (c : code_unit) :
  is_digit c = true \/ c = 45%N -> (c = 45 \/ 48 <= c <= 57)%N.
Proof.
  unfold is_digit. rewrite andb_true_iff, !N.leb_le. lia.
Qed.

Lemma parse_value_number (f : nat) (c : code_unit) (t : jsstring) :
  is_digit c = true \/ c = 45%N ->
  parse_value (S f) (c :: t) = read_number (c :: t).
Proof.
  intros H. apply digit_range in H.
  assert (Hws : is_json_ws c = false).
  { unfold is_json_ws, is_char. cbn [cu N_of_ascii].
    repeat (apply orb_false_iff; split); apply N.eqb_neq; simpl; lia. }
  cbn [parse_value]. rewrite skip_ws_head by exact Hws.
  unfold is_char.
  repeat match goal with
         | |- context [N.eqb c ?k] =>
             let E := fresh "E" in
             assert (E : N.eqb c k = false)
               by (apply N.eqb_neq; cbn; lia);
             rewrite E; clear E
         end.
  reflexivity.
Qed.

Lemma serialize_head (stepback : nat) (v : json) :
  canonical v ->
  exists c t, serialize stepback v = c :: t /\ is_json_ws c = false /\
              is_char c "]" = false /\ is_char c "}" = false.
Proof.
  intros Hv. destruct v as [|[|]|m k|neg|s|[|x l]|[|[k x] ms]];
    try (eexists; eexists; repeat split; reflexivity).
  simpl in Hv. destruct Hv as [-> _]. cbn [serialize Number_toString].
  destruct (Z_toString_head m) as [c [t [E H]]]. exists c, t.
  apply digit_range in H. split; [exact E|].
  unfold is_json_ws, is_char. cbn [cu N_of_ascii].
  repeat split; repeat (apply orb_false_iff; split); apply N.eqb_neq; simpl; lia.
Qed.

Lemma number_end_newline (r : jsstring) : number_end (newline ++ r).
Proof. simpl. repeat split. Qed.

Lemma number_end_separator (n : nat) (r : jsstring) :
  number_end (separator n ++ r).
Proof. simpl. repeat split. Qed.

Lemma join_cons2 (sep p q : jsstring) (ps : list jsstring) :
  join sep (p :: q :: ps) = p ++ sep ++ join sep (q :: ps).
Proof. reflexivity. Qed.

Lemma obj_set_fresh (k : jsstring) (v : json) (acc : members_t) :
  ~ In k (map fst acc) -> obj_set k v acc = acc ++ [(k, v)].
Proof.
  induction acc as [|[k' v'] acc IH]; simpl; intros H; [reflexivity|].
  destruct (jsstring_eqb_spec k' k) as [->|Hk]; [tauto|].
  rewrite IH by tauto. reflexivity.
Qed.

Lemma NoDup_fresh (acc ms : members_t) (k : jsstring) (x : json) :
  NoDup (map fst (acc ++ (k, x) :: ms)) ->
  ~ In k (map fst acc) /\ NoDup (map fst ((acc ++ [(k, x)]) ++ ms)).
Proof.
  intros H. split.
  - rewrite map_app in H. simpl in H.
    apply NoDup_remove_2 in H. intros Hin. apply H.
    apply in_or_app. now left.
  - now rewrite <- app_assoc.
Qed.

(** The two loops of the reader, on the elements of an array and on the
    members of an object as [serialize] writes them with the indentation
    [stepback], followed by [R]. *)
Section Loops.

Variable stepback : nat.
Variable R : jsstring.

Lemma parse_elements_join (xs : list json) :
  forall (x : json) (acc : list json) (f : nat),
    Forall reads_back (x :: xs) ->
    Forall canonical (x :: xs) ->
    (fold_right (fun y n => S (Nat.max (need y) n)) O (x :: xs) <= f)%nat ->
    parse_elements f
      (newline ++ spaces (stepback + 2) ++
       join (separator (stepback + 2))
            (map (serialize (stepback + 2)) (x :: xs)) ++
       newline ++ spaces stepback ++ str "]" ++ R) acc
    = Some (JArr (rev acc ++ x :: xs), R).
Proof.
  induction xs as [|y ys IH]; intros x acc f Hrb Hc Hf.
  - destruct f as [|f]; [simpl in Hf; lia|]. simpl in Hf.
    cbn [parse_elements map join].
    inversion Hrb as [|? ? Hx _]; subst.
    rewrite (parse_value_skip f _ _ (skip_ws_line _ _)).
    rewrite (Hx (stepback + 2)%nat f _) by (try apply number_end_newline; lia).
    rewrite skip_ws_line. reflexivity.
  - destruct f as [|f]; [simpl in Hf; lia|].
    cbn [parse_elements]. cbn [map]. rewrite join_cons2.
    inversion Hrb as [|? ? Hx Hrest]; subst.
    inversion Hc as [|? ? _ Hcrest]; subst.
    rewrite (parse_value_skip f _ _ (skip_ws_line _ _)).
    rewrite <- !app_assoc.
    cbn [fold_right] in Hf.
    rewrite (Hx (stepback + 2)%nat f _) by (try apply number_end_separator; lia).
    unfold separator at 1. rewrite <- !app_assoc.
    change (str "," ++ ?r) with (44%N :: r).
    rewrite skip_ws_head by reflexivity.
    replace (is_char 44%N ",") with true by reflexivity.
    change (map (serialize (stepback + 2)) ys) with
      (map (serialize (stepback + 2)) ys).
    specialize (IH y (x :: acc) f Hrest Hcrest).
    cbn [map] in IH. rewrite IH by (cbn [fold_right]; lia).
    simpl. now rewrite <- app_assoc.
Qed.

Lemma parse_members_join (ms : members_t) :
  forall (kx : jsstring * json) (acc : members_t) (f : nat),
    Forall (fun kv => reads_back (snd kv)) (kx :: ms) ->
    NoDup (map fst (acc ++ kx :: ms)) ->
    (fold_right
       (fun (kv : jsstring * json) n => let (_, x) := kv in S (Nat.max (need x) n))
       O (kx :: ms) <= f)%nat ->
    parse_members f
      (newline ++ spaces (stepback + 2) ++
       join (separator (stepback + 2))
            (map (member_text (stepback + 2)) (kx :: ms)) ++
       newline ++ spaces stepback ++ str "}" ++ R) acc
    = Some (JObj (acc ++ kx :: ms), R).
Proof.
  induction ms as [|ky ms IH]; intros [k x] acc f Hrb Hnd Hf.
  - destruct f as [|f]; [simpl in Hf; lia|]. simpl in Hf.
    destruct (NoDup_fresh acc [] k x Hnd) as [Hk _].
    cbn [parse_members map join member_text]. rewrite skip_ws_line.
    unfold QuoteJSONString. rewrite <- !app_assoc. cbn [app].
    rewrite skip_ws_head by reflexivity.
    replace (34 =? 34)%N with true by reflexivity.
    rewrite <- !app_assoc. cbn [app]. rewrite read_string_Quote.
    change (str ": " ++ ?r) with (58%N :: 32%N :: r).
    rewrite skip_ws_head by reflexivity.
    replace (is_char 58%N ":") with true by reflexivity.
    inversion Hrb as [|? ? Hx _]; subst. simpl in Hx.
    match goal with
    | |- context [parse_value f (32%N :: ?t)] =>
        rewrite (parse_value_skip f (32%N :: t) t)
          by reflexivity
    end.
    rewrite (Hx (stepback + 2)%nat f _) by (try apply number_end_newline; lia).
    rewrite skip_ws_line.
    change (str "}" ++ R) with (125%N :: R).
    rewrite skip_ws_head by reflexivity.
    replace (is_char 125%N ",") with false by reflexivity.
    replace (is_char 125%N "}") with true by reflexivity.
    now rewrite obj_set_fresh.
  - destruct f as [|f]; [simpl in Hf; lia|].
    destruct (NoDup_fresh acc (ky :: ms) k x Hnd) as [Hk Hnd'].
    cbn [parse_members]. cbn [map]. rewrite join_cons2.
    cbn [member_text]. rewrite skip_ws_line.
    unfold QuoteJSONString at 1. rewrite <- !app_assoc. cbn [app].
    rewrite skip_ws_head by reflexivity.
    replace (34 =? 34)%N with true by reflexivity.
    rewrite <- !app_assoc. cbn [app]. rewrite read_string_Quote.
    change (str ": " ++ ?r) with (58%N :: 32%N :: r).
    rewrite skip_ws_head by reflexivity.
    replace (is_char 58%N ":") with true by reflexivity.
    inversion Hrb as [|? ? Hx Hrest]; subst. simpl in Hx.
    cbn [fold_right] in Hf.
    match goal with
    | |- context [parse_value f (32%N :: ?t)] =>
        rewrite (parse_value_skip f (32%N :: t) t)
          by reflexivity
    end.
    rewrite (Hx (stepback + 2)%nat f _) by (try apply number_end_separator; lia).
    unfold separator at 1. rewrite <- !app_assoc.
    change (str "," ++ ?r) with (44%N :: r).
    rewrite skip_ws_head by reflexivity.
    replace (is_char 44%N ",") with true by reflexivity.
    rewrite obj_set_fresh by exact Hk.
    specialize (IH ky (acc ++ [(k, x)]) f Hrest Hnd').
    cbn [map] in IH. rewrite IH by (cbn [fold_right]; lia).
    now rewrite <- app_assoc.
Qed.

End Loops.

Lemma canonical_JArr (l : list json) :
  canonical (JArr l) <-> Forall canonical l.
Proof.
  induction l as [|x l IH].
  - split; [constructor | intros _; exact I].
  - change (canonical (JArr (x :: l))) with (canonical x /\ canonical (JArr l)).
    rewrite IH. split.
    + intros [H1 H2]. now constructor.
    + intros H. inversion H; subst. now split.
Qed.

Lemma canonical_JObj (ms : members_t) :
  canonical (JObj ms) <->
  NoDup (map fst ms) /\ Forall (fun kv => canonical (snd kv)) ms.
Proof.
  change (canonical (JObj ms)) with
    (NoDup (map fst ms) /\
     fold_right
       (fun (kv : jsstring * json) P => let (_, x) := kv in canonical x /\ P)
       True ms).
  assert (H : fold_right
       (fun (kv : jsstring * json) P => let (_, x) := kv in canonical x /\ P)
       True ms <-> Forall (fun kv => canonical (snd kv)) ms).
  { induction ms as [|[k x] ms IH]; simpl.
    - split; [constructor | trivial].
    - rewrite IH. split.
      + intros [H1 H2]. now constructor.
      + intros H. inversion H; subst. now split. }
  now rewrite H.
Qed.

Lemma join_head (sep p : jsstring) (ps : list jsstring) :
  exists tail, join sep (p :: ps) = p ++ tail.
Proof.
  destruct ps as [|q ps].
  - exists []. simpl. now rewrite app_nil_r.
  - eexists. apply join_cons2.
Qed.

Lemma Forall_impl2 {A : Type} (P Q : A -> Prop) (l : list A) :
  Forall (fun a => P a -> Q a) l -> Forall P l -> Forall Q l.
Proof.
  induction 1 as [|a l Ha _ IH]; intros H; [constructor|].
  inversion H; subst. constructor; auto.
Qed.

Lemma skip_ws_join_head {A : Type} (indent : nat) (sep : jsstring)
  (g : A -> jsstring) (x : A) (xs : list A) (tail : jsstring) :
  (exists c t, g x = c :: t /\ is_json_ws c = false /\
               is_char c "]" = false /\ is_char c "}" = false) ->
  exists c t, skip_ws (join sep (map g (x :: xs)) ++ tail) = c :: t /\
              is_char c "]" = false /\ is_char c "}" = false.
Proof.
  intros [c [t [E [Hws [H1 H2]]]]].
  destruct (join_head sep (g x) (map g xs)) as [tl Ht].
  cbn [map]. rewrite Ht, E. cbn [app].
  rewrite skip_ws_head by exact Hws. eauto.
Qed.

(** Reading what was written gives the value back, whatever follows it. *)
Theorem parse_value_serialize (v : json) : canonical v -> reads_back v.
Proof.
  induction v as [|b|m k|neg|s|l IH|ms IH] using json_ind2;
    intros Hc stepback f rest Hf Hrest;
    (destruct f as [|f]; [simpl in Hf; lia|]).
  - reflexivity.
  - destruct b; reflexivity.
  - simpl in Hc. destruct Hc as [-> Hm]. cbn [serialize Number_toString].
    destruct (Z_toString_head m) as [c [t [E H]]].
    rewrite E. cbn [app]. rewrite parse_value_number by exact H.
    change (c :: t ++ rest) with ((c :: t) ++ rest). rewrite <- E.
    now apply read_number_Z.
  - destruct Hc.
  - cbn [serialize]. unfold QuoteJSONString. cbn [app]. rewrite <- app_assoc.
    cbn [app parse_value]. rewrite skip_ws_head by reflexivity.
    replace (is_char 34%N "{") with false by reflexivity.
    replace (is_char 34%N "[") with false by reflexivity.
    replace (34 =? 34)%N with true by reflexivity.
    now rewrite read_string_Quote.
  - destruct l as [|x xs]; [reflexivity|].
    apply canonical_JArr in Hc.
    pose proof (Forall_impl2 _ _ _ IH Hc) as Hrb.
    cbn [serialize]. rewrite <- !app_assoc.
    change (str "[" ++ ?r) with (91%N :: r).
    cbn [parse_value]. rewrite skip_ws_head by reflexivity.
    replace (is_char 91%N "{") with false by reflexivity.
    replace (is_char 91%N "[") with true by reflexivity.
    rewrite skip_ws_line.
    inversion Hc as [|? ? Hcx _]; subst.
    destruct (skip_ws_join_head (stepback + 2)
                (str "," ++ newline ++ spaces (stepback + 2))
                (serialize (stepback + 2)) x xs
                (newline ++ spaces stepback ++ 93%N :: rest)
                (serialize_head (stepback + 2) x Hcx))
      as [c [t [E [Hb _]]]].
    change (str "]" ++ rest) with (93%N :: rest). rewrite E, Hb.
    apply (parse_elements_join stepback rest xs x [] f Hrb Hc).
    cbn [need] in Hf. lia.
  - destruct ms as [|[k x] ms]; [reflexivity|].
    apply canonical_JObj in Hc. destruct Hc as [Hnd Hc].
    pose proof (Forall_impl2 _ _ _ IH Hc) as Hrb.
    cbn [serialize]. rewrite <- !app_assoc.
    change (str "{" ++ ?r) with (123%N :: r).
    cbn [parse_value]. rewrite skip_ws_head by reflexivity.
    replace (is_char 123%N "{") with true by reflexivity.
    rewrite skip_ws_line.
    change (str "}" ++ rest) with (125%N :: rest).
    match goal with
    | |- context [skip_ws ?X] =>
        assert (Hs : exists c t, skip_ws X = c :: t /\
                       is_char c "]" = false /\ is_char c "}" = false)
    end.
    { apply (skip_ws_join_head (stepback + 2)
               (str "," ++ newline ++ spaces (stepback + 2))
               (member_text (stepback + 2)) (k, x) ms).
      eexists; eexists. repeat split; reflexivity. }
    destruct Hs as [c [t [E [_ Hb]]]]. rewrite E, Hb.
    apply (parse_members_join stepback rest ms (k, x) [] f Hrb Hnd).
    cbn [need] in Hf. lia.
Qed.

Lemma need_fold_le_join {A : Type} (sep : jsstring) (g : A -> jsstring)
  (h : A -> nat) (l : list A) :
  (1 <= List.length sep)%nat ->
  Forall (fun x => (h x <= List.length (g x))%nat) l ->
  (fold_right (fun x n => S (Nat.max (h x) n)) O l
   <= List.length (join sep (map g l)) + 1)%nat.
Proof.
  intros Hsep. induction 1 as [|x l Hx Hl IH]; [simpl; lia|].
  destruct l as [|y ys].
  - simpl. lia.
  - cbn [map]. rewrite join_cons2, !length_app.
    cbn [fold_right] in *. cbn [map] in IH. lia.
Qed.

Lemma Z_toString_length (z : Z) : (1 <= List.length (Z_toString z))%nat.
Proof.
  destruct (Z_toString_head z) as [c [t [E _]]]. rewrite E. simpl. lia.
Qed.

Lemma need_le_length (v : json) :
  forall stepback, (need v <= List.length (serialize stepback v))%nat.
Proof.
  induction v as [|b|m k|neg|s|l IH|ms IH] using json_ind2; intros stepback.
  - simpl. lia.
  - destruct b; simpl; lia.
  - cbn [need serialize]. destruct k as [|k].
    + apply Z_toString_length.
    + unfold Number_toString. rewrite !length_app.
      pose proof (Z_toString_length (Z.abs m / 10 ^ Z.of_nat (S k))). lia.
  - simpl. lia.
  - simpl. lia.
  - destruct l as [|x xs]; [simpl; lia|].
    cbn [need serialize]. rewrite !length_app.
    assert (H : Forall (fun y => (need y <=
                  List.length (serialize (stepback + 2) y))%nat) (x :: xs)).
    { clear - IH. induction IH; constructor; auto. }
    pose proof (need_fold_le_join
                  (str "," ++ newline ++ spaces (stepback + 2))
                  (serialize (stepback + 2)) need (x :: xs)
                  ltac:(simpl; lia) H) as Hj.
    simpl List.length at 1 2. cbn [fold_right] in *. lia.
  - destruct ms as [|[k x] ms]; [simpl; lia|].
    cbn [need serialize]. rewrite !length_app.
    assert (H : Forall (fun kv : jsstring * json =>
                  (need (snd kv) <=
                   List.length (member_text (stepback + 2) kv))%nat)
                  ((k, x) :: ms)).
    { clear - IH. induction IH as [|[k' y] l Hy _ IHl]; constructor; auto.
      cbn [member_text snd] in *. rewrite !length_app.
      specialize (Hy (stepback + 2)%nat). lia. }
    pose proof (need_fold_le_join
                  (str "," ++ newline ++ spaces (stepback + 2))
                  (member_text (stepback + 2))
                  (fun kv => need (snd kv)) ((k, x) :: ms)
                  ltac:(simpl; lia) H) as Hj.
    assert (Hfold : forall l : members_t,
               fold_right
                 (fun (kv : jsstring * json) n =>
                    let (_, y) := kv in S (Nat.max (need y) n)) O l =
               fold_right (fun kv n => S (Nat.max (need (snd kv)) n)) O l).
    { induction l as [|[k' y] l IHl]; simpl; [reflexivity | now rewrite IHl]. }
    rewrite Hfold.
    change (fun kv : jsstring * json =>
              let (k0, x0) := kv in
              QuoteJSONString k0 ++ str ": " ++ serialize (stepback + 2) x0)
      with (member_text (stepback + 2)).
    cbv beta in Hj. simpl List.length at 1 2.
    eapply Nat.le_trans; [apply le_n_S, Hj|].
    match goal with
    | |- (S (?a + 1) <= _ + (_ + (_ + (?c + _))))%nat => change c with a
    end.
    lia.
Qed.

(** [JSON.parse(JSON.stringify(v, null, 2))] is [v]. *)
Theorem JSON_parse_stringify (v : json) :
  canonical v -> JSON_parse (JSON_stringify2 v) = Some v.
Proof.
  intros Hc. unfold JSON_parse, JSON_stringify2.
  pose proof (parse_value_serialize v Hc O
                (S (List.length (serialize 0 v))) []) as H.
  rewrite app_nil_r in H. rewrite H; [reflexivity | | exact I].
  pose proof (need_le_length v O). lia.
Qed.

(** ** The fuel of the reader is enough *)

Lemma skip_ws_length (s : jsstring) :
  (List.length (skip_ws s) <= List.length s)%nat.
Proof.
  induction s as [|c s IH]; simpl; [lia|].
  destruct (is_json_ws c); simpl; lia.
Qed.

Lemma cons_fst_Some {A B : Type} (a : A) (o : option (list A * B))
  (l : list A) (b : B) :
  cons_fst a o = Some (l, b) -> exists l', o = Some (l', b) /\ l = a :: l'.
Proof.
  destruct o as [[l' b']|]; simpl; [|discriminate].
  intros H. injection H as <- <-. now exists l'.
Qed.

Lemma read_string_shorter_bounded (n : nat) (s x r : jsstring) :
  (List.length s <= n)%nat ->
  read_string s = Some (x, r) -> (List.length r < List.length s)%nat.
Proof.
  revert s x. induction n as [|n IH]; intros s x Hn H.
  - destruct s; [discriminate | simpl in Hn; lia].
  - destruct s as [|c s]; [discriminate|]. simpl in Hn. cbn [read_string] in H.
    destruct (c =? 34)%N.
    { injection H as _ <-. simpl. lia. }
    destruct (is_char c "\").
    + destruct s as [|e s]; [discriminate|].
      destruct (is_char e "u").
      * destruct s as [|h1 [|h2 [|h3 [|h4 s]]]]; try discriminate.
        destruct (hex4 h1 h2 h3 h4); [|discriminate].
        apply cons_fst_Some in H. destruct H as [l' [H _]].
        apply IH in H; simpl in *; lia.
      * destruct (simple_escape e); [|discriminate].
        apply cons_fst_Some in H. destruct H as [l' [H _]].
        apply IH in H; simpl in *; lia.
    + destruct (c <? 32)%N; [discriminate|].
      apply cons_fst_Some in H. destruct H as [l' [H _]].
      apply IH in H; simpl in *; lia.
Qed.

Lemma read_string_shorter (s x r : jsstring) :
  read_string s = Some (x, r) -> (List.length r < List.length s)%nat.
Proof. apply (read_string_shorter_bounded (List.length s)). lia. Qed.

Lemma read_digits_length (s : jsstring) :
  (List.length (snd (read_digits s)) <= List.length s)%nat.
Proof.
  induction s as [|c s IH]; simpl; [lia|].
  destruct (is_digit c); [|simpl; lia].
  destruct (read_digits s) as [u r]. simpl in *. lia.
Qed.

Lemma read_int_shorter (s : jsstring) (u : Decimal.uint) (r : jsstring) :
  read_int s = Some (u, r) -> (List.length r < List.length s)%nat.
Proof.
  destruct s as [|c s]; [discriminate|]. cbn [read_int].
  destruct (is_char c "0").
  { intros H. injection H as _ <-. simpl. lia. }
  destruct (is_digit c) eqn:Hd; [|discriminate].
  intros H. injection H as H.
  pose proof (read_digits_length s) as Hl.
  cbn [read_digits] in H. rewrite Hd in H.
  destruct (read_digits s) as [u' r']. injection H as _ <-. simpl in *. lia.
Qed.

Lemma read_fraction_length (s : jsstring) (u : Decimal.uint) (r : jsstring) :
  read_fraction s = Some (u, r) -> (List.length r <= List.length s)%nat.
Proof.
  destruct s as [|c s]; cbn [read_fraction].
  { intros H. injection H as _ <-. lia. }
  destruct (is_char c ".").
  - pose proof (read_digits_length s) as Hl.
    destruct (read_digits s) as [u0 r'].
    destruct u0; try discriminate; intros H; injection H as _ <-;
      simpl in *; lia.
  - intros H. injection H as _ <-. lia.
Qed.

Lemma read_exponent_length (s : jsstring) (e : Z) (r : jsstring) :
  read_exponent s = Some (e, r) -> (List.length r <= List.length s)%nat.
Proof.
  destruct s as [|c s]; cbn [read_exponent].
  { intros H. injection H as _ <-. lia. }
  destruct (is_char c "e" || is_char c "E").
  - match goal with
    | |- (let (_, _) := ?p in _) = _ -> _ =>
        assert (Hp : (List.length (snd p) <= List.length s)%nat);
        [|destruct p as [neg s'']]
    end.
    { destruct s as [|d t]; [simpl; lia|].
      destruct (is_char d "-"); [simpl; lia|].
      destruct (is_char d "+"); simpl; lia. }
    pose proof (read_digits_length s'') as Hl.
    destruct (read_digits s'') as [u r0].
    destruct u; try discriminate; intros H; injection H as _ <-;
      simpl in *; lia.
  - intros H. injection H as _ <-. lia.
Qed.

Lemma read_number_shorter (s : jsstring) (v : json) (r : jsstring) :
  read_number s = Some (v, r) -> (List.length r < List.length s)%nat.
Proof.
  unfold read_number.
  assert (Hcore : forall neg t,
             match read_int t with
             | Some (i, s2) =>
                 match read_fraction s2 with
                 | Some (f, s3) =>
                     match read_exponent s3 with
                     | Some (e, s4) => Some (decimal_value neg i f e, s4)
                     | None => None
                     end
                 | None => None
                 end
             | None => None
             end = Some (v, r) -> (List.length r < List.length t)%nat).
  { intros neg t H.
    destruct (read_int t) as [[i s2]|] eqn:Ei; [|discriminate].
    destruct (read_fraction s2) as [[f s3]|] eqn:Ef; [|discriminate].
    destruct (read_exponent s3) as [[e s4]|] eqn:Ee; [|discriminate].
    injection H as _ <-.
    apply read_int_shorter in Ei. apply read_fraction_length in Ef.
    apply read_exponent_length in Ee. lia. }
  destruct s as [|c s].
  - intros H. apply Hcore in H. exact H.
  - destruct (is_char c "-"); intros H; apply Hcore in H; simpl in *; lia.
Qed.

Lemma expect_length (word s : jsstring) (v v' : json) (r : jsstring) :
  expect word s v = Some (v', r) -> (List.length r <= List.length s)%nat.
Proof.
  unfold expect. destruct (startsWith s word); [|discriminate].
  intros H. injection H as _ <-. rewrite length_skipn. lia.
Qed.

Ltac fuel_step f' :=
  destruct f' as [|f']; [lia|].

Lemma parse_settles (f : nat) :
  settles parse_value' f /\ settles parse_elements f /\ settles parse_members f.
Proof.
  induction f as [|f [IHv [IHe IHm]]].
  - split; [|split]; intros s acc v r H; discriminate.
  - split; [|split]; intros s acc v r H.
    + (* a value *)
      unfold parse_value' in *. cbn [parse_value] in H.
      pose proof (skip_ws_length s) as Hs.
      destruct (skip_ws s) as [|c r0] eqn:Es; [discriminate|]. simpl in Hs.
      destruct (is_char c "{") eqn:E1.
      { pose proof (skip_ws_length r0) as Hr0.
        destruct (skip_ws r0) as [|c' r'] eqn:Er; [discriminate|]. simpl in Hr0.
        destruct (is_char c' "}") eqn:E2.
        - injection H as <- <-. split; [lia|]. intros f' Hf'. fuel_step f'.
          cbn [parse_value]. now rewrite Es, E1, Er, E2.
        - destruct (IHm _ _ _ _ H) as [Hl Hf]. split; [lia|].
          intros f' Hf'. fuel_step f'. cbn [parse_value].
          rewrite Es, E1, Er, E2. apply Hf. lia. }
      destruct (is_char c "[") eqn:E3.
      { pose proof (skip_ws_length r0) as Hr0.
        destruct (skip_ws r0) as [|c' r'] eqn:Er; [discriminate|]. simpl in Hr0.
        destruct (is_char c' "]") eqn:E2.
        - injection H as <- <-. split; [lia|]. intros f' Hf'. fuel_step f'.
          cbn [parse_value]. now rewrite Es, E1, E3, Er, E2.
        - destruct (IHe _ _ _ _ H) as [Hl Hf]. split; [lia|].
          intros f' Hf'. fuel_step f'. cbn [parse_value].
          rewrite Es, E1, E3, Er, E2. apply Hf. lia. }
      assert (Hscalar : forall f', parse_value (S f') s = parse_value (S f) s).
      { intros f'. cbn [parse_value]. now rewrite Es, E1, E3. }
      assert (Hlen : (List.length r < List.length s)%nat).
      { destruct (c =? 34)%N.
        { destruct (read_string r0) as [[x r']|] eqn:Ex; [|discriminate].
          injection H as _ <-. apply read_string_shorter in Ex. lia. }
        destruct (is_char c "t").
        { apply expect_length in H. lia. }
        destruct (is_char c "f").
        { apply expect_length in H. lia. }
        destruct (is_char c "n").
        { apply expect_length in H. lia. }
        apply read_number_shorter in H. simpl in H. lia. }
      split; [exact Hlen|]. intros f' Hf'. fuel_step f'.
      rewrite Hscalar. cbn [parse_value]. now rewrite Es, E1, E3.
    + (* the elements of an array *)
      cbn [parse_elements] in H.
      destruct (parse_value f s) as [[x r1]|] eqn:Ex; [|discriminate].
      destruct (IHv s tt x r1 Ex) as [Hl1 Hf1].
      pose proof (skip_ws_length r1) as Hr1.
      destruct (skip_ws r1) as [|c r2] eqn:Er; [discriminate|]. simpl in Hr1.
      destruct (is_char c ",") eqn:E1.
      { destruct (IHe _ _ _ _ H) as [Hl Hf]. split; [lia|].
        intros f' Hf'. fuel_step f'. cbn [parse_elements].
        unfold parse_value' in Hf1. rewrite Hf1 by lia.
        rewrite Er, E1. apply Hf. lia. }
      destruct (is_char c "]") eqn:E2; [|discriminate].
      injection H as <- <-. split; [lia|].
      intros f' Hf'. fuel_step f'. cbn [parse_elements].
      unfold parse_value' in Hf1. rewrite Hf1 by lia. now rewrite Er, E1, E2.
    + (* the members of an object *)
      cbn [parse_members] in H.
      pose proof (skip_ws_length s) as Hs.
      destruct (skip_ws s) as [|c r0] eqn:Es; [discriminate|]. simpl in Hs.
      destruct (c =? 34)%N eqn:E0; [|discriminate].
      destruct (read_string r0) as [[k r1]|] eqn:Ek; [|discriminate].
      pose proof (read_string_shorter _ _ _ Ek) as Hk.
      pose proof (skip_ws_length r1) as Hr1.
      destruct (skip_ws r1) as [|c1 r2] eqn:Er1; [discriminate|]. simpl in Hr1.
      destruct (is_char c1 ":") eqn:E1; [|discriminate].
      destruct (parse_value f r2) as [[x r3]|] eqn:Ex; [|discriminate].
      destruct (IHv r2 tt x r3 Ex) as [Hl3 Hf3]. unfold parse_value' in Hf3.
      pose proof (skip_ws_length r3) as Hr3.
      destruct (skip_ws r3) as [|c3 r4] eqn:Er3; [discriminate|]. simpl in Hr3.
      destruct (is_char c3 ",") eqn:E3.
      { destruct (IHm _ _ _ _ H) as [Hl Hf]. split; [lia|].
        intros f' Hf'. fuel_step f'. cbn [parse_members].
        rewrite Es, E0, Ek, Er1, E1. rewrite Hf3 by lia.
        rewrite Er3, E3. apply Hf. lia. }
      destruct (is_char c3 "}") eqn:E4; [|discriminate].
      injection H as <- <-. split; [lia|].
      intros f' Hf'. fuel_step f'. cbn [parse_members].
      rewrite Es, E0, Ek, Er1, E1. rewrite Hf3 by lia.
      now rewrite Er3, E3, E4.
Qed.

(** Whatever fuel reads a value off a text, the fuel of [JSON_parse] reads
    the same: a text that [JSON_parse] refuses is refused with any fuel. *)
Theorem JSON_parse_fuel (text : jsstring) (f : nat) (v : json) (r : jsstring) :
  parse_value f text = Some (v, r) -> skip_ws r = [] ->
  JSON_parse text = Some v.
Proof.
  intros H Hr. destruct (parse_settles f) as [Hv _].
  destruct (Hv text tt v r H) as [_ Hf]. unfold parse_value' in Hf.
  unfold JSON_parse. rewrite Hf by lia. now rewrite Hr.
Qed.

(** ** The rounding of binary64 arithmetic *)

Lemma pow2_pos (e : Z) : 0 < 2 ^ e.
Proof. apply Qpower_0_lt. reflexivity. Qed.

Lemma pow2_le (a b : Z) : (a <= b)%Z -> 2 ^ a <= 2 ^ b.
Proof. intros H. apply Qpower_le_compat_l; [exact H | discriminate]. Qed.

Lemma pow2_Z (a : Z) : (0 <= a)%Z -> inject_Z (2 ^ a) == 2 ^ a.
Proof. intros H. now rewrite Zpower_Qpower. Qed.

Lemma ilog2_spec (x : Q) :
  0 < x -> 2 ^ ilog2 x <= x /\ x < 2 ^ (ilog2 x + 1).
Proof.
  intros Hx. destruct x as [n d].
  assert (Hn : (0 < n)%Z).
  { unfold Qlt in Hx. simpl in Hx. lia. }
  unfold ilog2. cbn [Qnum Qden].
  set (a := Z.log2 n). set (b := Z.log2 (Zpos d)).
  pose proof (Z.log2_nonneg n) as Ha0. pose proof (Z.log2_nonneg (Zpos d)) as Hb0.
  fold a in Ha0. fold b in Hb0.
  destruct (Z.log2_spec n Hn) as [Ha1 Ha2]. fold a in Ha1, Ha2.
  destruct (Z.log2_spec (Zpos d) eq_refl) as [Hb1 Hb2]. fold b in Hb1, Hb2.
  rewrite Zle_Qle in Ha1, Hb1. rewrite Zlt_Qlt in Ha2, Hb2.
  rewrite pow2_Z in Ha1, Hb1 by assumption.
  replace (Z.succ a) with (a + 1)%Z in Ha2 by lia.
  replace (Z.succ b) with (b + 1)%Z in Hb2 by lia.
  rewrite pow2_Z in Ha2, Hb2 by lia.
  set (x := n # d) in *.
  assert (Ex : x * inject_Z (Zpos d) == inject_Z n).
  { unfold x. rewrite (Qmake_Qdiv n d). field. discriminate. }
  pose proof (pow2_pos a). pose proof (pow2_pos b).
  pose proof (pow2_pos (a + 1)). pose proof (pow2_pos (b + 1)).
  destruct (Qle_bool (2 ^ (a - b)) x) eqn:E.
  - apply Qle_bool_iff in E. split; [exact E|].
    replace (a - b + 1)%Z with ((a + 1) - b)%Z by lia.
    rewrite Qpower_minus by discriminate.
    apply Qlt_shift_div_l; [assumption|]. nra.
  - assert (E' : x < 2 ^ (a - b)).
    { apply Qnot_le_lt. intros Hle. apply Qle_bool_iff in Hle. congruence. }
    replace (a - b - 1 + 1)%Z with (a - b)%Z by lia. split; [|exact E'].
    replace (a - b - 1)%Z with (a - (b + 1))%Z by lia.
    rewrite Qpower_minus by discriminate.
    apply Qle_shift_div_r; [assumption|]. nra.
Qed.

Lemma ilog2_mono (x y : Q) : 0 < x -> x <= y -> (ilog2 x <= ilog2 y)%Z.
Proof.
  intros Hx Hxy. assert (Hy : 0 < y) by lra.
  destruct (ilog2_spec x Hx) as [H1 _]. destruct (ilog2_spec y Hy) as [_ H2].
  assert (H : 2 ^ ilog2 x < 2 ^ (ilog2 y + 1)) by lra.
  apply Qpower_lt_compat_l_inv in H; [lia | reflexivity].
Qed.

Lemma round_half_even_floor (y : Q) :
  (Qfloor y <= round_half_even y <= Qfloor y + 1)%Z.
Proof.
  unfold round_half_even.
  destruct (Qcompare _ _); [destruct (Z.even _)| |]; lia.
Qed.

Lemma round_half_even_Z (z : Z) : round_half_even (inject_Z z) = z.
Proof.
  unfold round_half_even. rewrite Qfloor_Z.
  assert (E : inject_Z z - inject_Z z == 0) by ring.
  rewrite E. reflexivity.
Qed.

Lemma round_half_even_comp (y y' : Q) :
  y == y' -> round_half_even y = round_half_even y'.
Proof.
  intros E. unfold round_half_even. rewrite (Qfloor_comp _ _ E).
  now rewrite E.
Qed.

Lemma round_half_even_mono (y y' : Q) :
  y <= y' -> (round_half_even y <= round_half_even y')%Z.
Proof.
  intros H. pose proof (Qfloor_resp_le _ _ H) as Hf.
  pose proof (round_half_even_floor y). pose proof (round_half_even_floor y').
  destruct (Z.eq_dec (Qfloor y) (Qfloor y')) as [E|E]; [|lia].
  unfold round_half_even in *. rewrite <- E in *.
  destruct (Qcompare (y - inject_Z (Qfloor y)) (1 # 2)) eqn:C1;
    destruct (Qcompare (y' - inject_Z (Qfloor y)) (1 # 2)) eqn:C2;
    try lia;
    try (destruct (Z.even (Qfloor y)); lia);
    try (apply <- Qeq_alt in C1); try (apply <- Qlt_alt in C1);
    try (apply <- Qgt_alt in C1); try (apply <- Qeq_alt in C2);
    try (apply <- Qlt_alt in C2); try (apply <- Qgt_alt in C2); exfalso; lra.
Qed.

Lemma round_half_even_le (y : Q) (b : Z) :
  y <= inject_Z b -> (round_half_even y <= b)%Z.
Proof.
  intros H. rewrite <- (round_half_even_Z b). now apply round_half_even_mono.
Qed.

Lemma round_half_even_ge (y : Q) (a : Z) :
  inject_Z a <= y -> (a <= round_half_even y)%Z.
Proof.
  intros H. rewrite <- (round_half_even_Z a). now apply round_half_even_mono.
Qed.

Lemma exponent_mono (x y : Q) :
  0 < x -> x <= y -> (binary64_exponent x <= binary64_exponent y)%Z.
Proof.
  intros Hx Hxy. unfold binary64_exponent.
  pose proof (ilog2_mono x y Hx Hxy). lia.
Qed.

Lemma pow2_53 : inject_Z (2 ^ 53) == 2 ^ 53.
Proof. reflexivity. Qed.

Lemma scaled_lt (x : Q) :
  0 < x -> x / 2 ^ binary64_exponent x < 2 ^ 53.
Proof.
  intros Hx. destruct (ilog2_spec x Hx) as [_ H].
  apply Qlt_shift_div_r; [apply pow2_pos|].
  rewrite <- Qpower_plus by discriminate.
  eapply Qlt_le_trans; [exact H|]. apply pow2_le.
  unfold binary64_exponent. lia.
Qed.

Lemma scaled_ge (x : Q) :
  0 < x -> (-1074 < binary64_exponent x)%Z ->
  2 ^ 52 <= x / 2 ^ binary64_exponent x.
Proof.
  intros Hx He. destruct (ilog2_spec x Hx) as [H _].
  apply Qle_shift_div_l; [apply pow2_pos|].
  rewrite <- Qpower_plus by discriminate.
  eapply Qle_trans; [|exact H]. apply pow2_le.
  unfold binary64_exponent in *. lia.
Qed.

Lemma round_pos_upper (x : Q) :
  0 < x -> round_binary64_pos x <= 2 ^ (53 + binary64_exponent x).
Proof.
  intros Hx. unfold round_binary64_pos.
  rewrite Qpower_plus by discriminate.
  apply Qmult_le_compat_r; [|apply Qlt_le_weak, pow2_pos].
  rewrite <- pow2_53. rewrite <- Zle_Qle. apply round_half_even_le.
  rewrite pow2_53. apply Qlt_le_weak, scaled_lt, Hx.
Qed.

Lemma round_pos_lower (x : Q) :
  0 < x -> (-1074 < binary64_exponent x)%Z ->
  2 ^ (52 + binary64_exponent x) <= round_binary64_pos x.
Proof.
  intros Hx He. unfold round_binary64_pos.
  rewrite Qpower_plus by discriminate.
  apply Qmult_le_compat_r; [|apply Qlt_le_weak, pow2_pos].
  assert (E : inject_Z (2 ^ 52) == 2 ^ 52) by reflexivity.
  rewrite <- E. rewrite <- Zle_Qle. apply round_half_even_ge.
  rewrite E. apply scaled_ge; assumption.
Qed.

Lemma round_pos_nonneg (x : Q) : 0 < x -> 0 <= round_binary64_pos x.
Proof.
  intros Hx. unfold round_binary64_pos.
  apply Qmult_le_0_compat; [|apply Qlt_le_weak, pow2_pos].
  change 0 with (inject_Z 0). rewrite <- Zle_Qle.
  apply round_half_even_ge. change (inject_Z 0) with 0.
  apply Qle_shift_div_l; [apply pow2_pos|]. rewrite Qmult_0_l. lra.
Qed.

Lemma round_pos_mono (x y : Q) :
  0 < x -> x <= y -> round_binary64_pos x <= round_binary64_pos y.
Proof.
  intros Hx Hxy. assert (Hy : 0 < y) by lra.
  pose proof (exponent_mono x y Hx Hxy) as He.
  destruct (Z.eq_dec (binary64_exponent x) (binary64_exponent y)) as [E|E].
  - unfold round_binary64_pos. rewrite E.
    apply Qmult_le_compat_r; [|apply Qlt_le_weak, pow2_pos].
    rewrite <- Zle_Qle. apply round_half_even_mono.
    apply Qmult_le_compat_r; [exact Hxy|].
    apply Qlt_le_weak, Qinv_lt_0_compat, pow2_pos.
  - eapply Qle_trans; [apply round_pos_upper, Hx|].
    eapply Qle_trans; [|apply round_pos_lower; [exact Hy|]].
    + apply pow2_le. lia.
    + unfold binary64_exponent in *. lia.
Qed.

Lemma round_pos_comp (x y : Q) :
  x == y -> 0 < x -> round_binary64_pos x == round_binary64_pos y.
Proof.
  intros E Hx. apply Qle_antisym; apply round_pos_mono; rewrite ?E in *; lra.
Qed.

Lemma round_binary64_mono (x y : Q) :
  x <= y -> round_binary64 x <= round_binary64 y.
Proof.
  intros H. unfold round_binary64.
  destruct (Qcompare x 0) eqn:Cx; destruct (Qcompare y 0) eqn:Cy;
    try (apply <- Qeq_alt in Cx); try (apply <- Qlt_alt in Cx);
    try (apply <- Qgt_alt in Cx); try (apply <- Qeq_alt in Cy);
    try (apply <- Qlt_alt in Cy); try (apply <- Qgt_alt in Cy);
    try (exfalso; lra); try lra.
  - apply round_pos_nonneg. lra.
  - pose proof (round_pos_nonneg (- x)). lra.
  - pose proof (round_pos_mono (- y) (- x)). lra.
  - pose proof (round_pos_nonneg (- x)). pose proof (round_pos_nonneg y). lra.
  - apply round_pos_mono; lra.
Qed.

Lemma round_binary64_comp (x y : Q) :
  x == y -> round_binary64 x == round_binary64 y.
Proof.
  intros E. apply Qle_antisym; apply round_binary64_mono; lra.
Qed.


Lemma scaled_back (x : Q) (e : Z) : x / 2 ^ e * 2 ^ e == x.
Proof. field. apply Qpower_not_0. discriminate. Qed.




Lemma round_pos_integer (n : Z) :
  (0 < n <= 2 ^ 53)%Z -> round_binary64_pos (inject_Z n) == inject_Z n.
Proof.
  intros Hn. assert (Hx : 0 < inject_Z n).
  { change 0 with (inject_Z 0). rewrite <- Zlt_Qlt. lia. }
  unfold round_binary64_pos. set (e := binary64_exponent (inject_Z n)).
  assert (He : (e <= 1)%Z).
  { destruct (ilog2_spec _ Hx) as [Hl _].
    assert (H : 2 ^ ilog2 (inject_Z n) < 2 ^ 54).
    { eapply Qle_lt_trans; [exact Hl|].
      apply Qle_lt_trans with (inject_Z (2 ^ 53)).
      - rewrite <- Zle_Qle. lia.
      - reflexivity. }
    apply Qpower_lt_compat_l_inv in H; [|reflexivity].
    unfold e, binary64_exponent. lia. }
  destruct (Z_le_gt_dec e 0) as [H0|H1].
  - assert (E : inject_Z n / 2 ^ e == inject_Z (n * 2 ^ (- e))).
    { rewrite inject_Z_mult, pow2_Z by lia. rewrite Qpower_opp. reflexivity. }
    rewrite (round_half_even_comp _ _ E), round_half_even_Z.
    rewrite inject_Z_mult, pow2_Z by lia. rewrite Qpower_opp.
    field. apply Qpower_not_0. discriminate.
  - assert (E1 : e = 1%Z) by lia.
    assert (En : n = (2 ^ 53)%Z).
    { destruct (ilog2_spec _ Hx) as [Hl _].
      unfold e, binary64_exponent in E1.
      assert (Hi : (53 <= ilog2 (inject_Z n))%Z) by lia.
      assert (H : 2 ^ 53 <= inject_Z n).
      { eapply Qle_trans; [|exact Hl]. now apply pow2_le. }
      assert (H' : inject_Z (2 ^ 53) <= inject_Z n) by exact H.
      rewrite <- Zle_Qle in H'. lia. }
    rewrite E1. subst n. reflexivity.
Qed.

Lemma round_binary64_integer (n : Z) :
  (Z.abs n <= 2 ^ 53)%Z -> round_binary64 (inject_Z n) == inject_Z n.
Proof.
  intros Hn. unfold round_binary64.
  destruct (Qcompare (inject_Z n) 0) eqn:C;
    [apply <- Qeq_alt in C | apply <- Qlt_alt in C | apply <- Qgt_alt in C].
  - now rewrite C.
  - change 0 with (inject_Z 0) in C. rewrite <- Zlt_Qlt in C.
    assert (E : - inject_Z n == inject_Z (- n)) by (now rewrite inject_Z_opp).
    rewrite (round_pos_comp _ _ E).
    + rewrite round_pos_integer by lia. rewrite inject_Z_opp. ring.
    + rewrite E. change 0 with (inject_Z 0). rewrite <- Zlt_Qlt. lia.
  - change 0 with (inject_Z 0) in C. rewrite <- Zlt_Qlt in C.
    apply round_pos_integer. lia.
Qed.

(** ** The target scene count *)


Lemma Math_max_1_integer (r : Z) :
  Math_max 1 (inject_Z r) = inject_Z (Z.max 1 r).
Proof.
  unfold Math_max. destruct (Qle_bool 1 (inject_Z r)) eqn:E.
  - apply Qle_bool_iff in E. change 1 with (inject_Z 1) in E.
    rewrite <- Zle_Qle in E. now rewrite Z.max_r.
  - assert (H : ~ (1 <= r)%Z).
    { intros H. rewrite Zle_Qle in H. apply Qle_bool_iff in H.
      change (inject_Z 1) with 1 in H. congruence. }
    rewrite Z.max_l by lia. reflexivity.
Qed.


Lemma targetSceneCount_floor_max (d : number) :
  generateStoryDraft_targetSceneCount d =
  inject_Z (Z.max 1 (Qfloor (Number_multiply d 6 + (1 # 2)))).
Proof.
  unfold generateStoryDraft_targetSceneCount, Math_round.
  apply Math_max_1_integer.
Qed.

(** Whole minutes: six scenes a minute. *)
Lemma targetSceneCount_whole_minutes (k : Z) :
  (1 <= k <= 2 ^ 50)%Z ->
  generateStoryDraft_targetSceneCount (inject_Z k) = inject_Z (6 * k).
Proof.
  intros Hk. rewrite targetSceneCount_floor_max. f_equal.
  assert (E : Number_multiply (inject_Z k) 6 + (1 # 2) ==
              inject_Z (6 * k) + (1 # 2)).
  { unfold Number_multiply.
    assert (E6 : inject_Z k * 6 == inject_Z (k * 6)).
    { rewrite inject_Z_mult. reflexivity. }
    rewrite (round_binary64_comp _ _ E6), round_binary64_integer by lia.
    rewrite !inject_Z_mult. ring. }
  rewrite (Qfloor_comp _ _ E).
  assert (Hf : Qfloor (inject_Z (6 * k) + (1 # 2)) = (6 * k)%Z).
  { pose proof (Qfloor_le (inject_Z (6 * k) + (1 # 2))) as H1.
    pose proof (Qlt_floor (inject_Z (6 * k) + (1 # 2))) as H2.
    rewrite inject_Z_plus in H2. change (inject_Z 1) with 1 in H2.
    assert (Ha : inject_Z (Qfloor (inject_Z (6 * k) + (1 # 2))) <
                 inject_Z (6 * k) + 1) by lra.
    assert (Hb : inject_Z (6 * k) <
                 inject_Z (Qfloor (inject_Z (6 * k) + (1 # 2))) + 1) by lra.
    change 1 with (inject_Z 1) in Ha, Hb.
    rewrite <- inject_Z_plus, <- Zlt_Qlt in Ha, Hb. lia. }
  rewrite Hf. lia.
Qed.



(** At the duration 1.4166666666666665 the product of the source is 8.5,
    which [Math.round] takes to 9, where six times the duration is below
    8.5. *)
Example targetSceneCount_product_rounded :
  Number_multiply awkward_duration 6 == 17 # 2 /\
  awkward_duration * 6 < 17 # 2 /\
  Math_round (awkward_duration * 6) = 8 /\
  generateStoryDraft_targetSceneCount awkward_duration = 9.
Proof. repeat split. Qed.

Example targetSceneCount_one_minute :
  generateScenesFromStory_targetSceneCount 1 = 6.
Proof. reflexivity. Qed.

Example targetSceneCount_half_minute :
  generateStoryDraft_targetSceneCount (1 # 2) = 3.
Proof. reflexivity. Qed.

Example targetSceneCount_floor :
  generateStoryDraft_targetSceneCount (1 # 20) = 1.
Proof. reflexivity. Qed.

(** ** The error classifier *)

Lemma getFriendlyErrorMessage_classify (error : thrown) :
  getFriendlyErrorMessage error =
  friendly_text (classify (message_of error)) (message_of error).
Proof.
  unfold getFriendlyErrorMessage, classify, classifier_rules.
  cbn [first_match]. set (m := message_of error).
  repeat match goal with
         | |- (if ?b then _ else _) = _ => destruct b; [reflexivity|]
         end.
  reflexivity.
Qed.

Lemma category_of_friendly_text (c : Category) (m : jsstring) :
  category_of_text (friendly_text c m) = c.
Proof. destruct c; reflexivity. Qed.

Lemma friendly_text_not_empty (c : Category) (m : jsstring) :
  friendly_text c m <> [].
Proof. destruct c; discriminate. Qed.

Lemma includes_toLowerCase (m : jsstring) (word : string) :
  toLowerCase (str word) = str word ->
  includes m word = true -> includes (toLowerCase m) word = true.
Proof.
  intros Hw H. apply includes_spec in H. destruct H as [a [b ->]].
  apply includes_spec. exists (toLowerCase a), (toLowerCase b).
  now rewrite !toLowerCase_app, Hw.
Qed.

(** C3.  The classifier gives the text of exactly one category, the one of
    the first rule that matches in the order missing credential, rate or
    quota, authentication, service unavailable, network, malformed
    response, safety block, and the generic text when none does.  In
    particular the rule of the rate or quota comes before the rule of the
    unavailable service: a message that contains both "quota" and "500" is
    never a service-unavailable one, and it is a rate-limit one unless the
    one rule before that, of the missing credential, matches it. *)
Theorem C3_first_matching_rule (error : thrown) :
  getFriendlyErrorMessage error =
    friendly_text (classify (message_of error)) (message_of error) /\
  category_of_text (getFriendlyErrorMessage error) =
    classify (message_of error) /\
  (includes (message_of error) "quota" = true ->
   includes (message_of error) "500" = true ->
   classify (message_of error) <> ServiceUnavailable /\
   (includes (message_of error) "API Key is missing" = false ->
    classify (message_of error) = RateLimit)).
Proof.
  split; [apply getFriendlyErrorMessage_classify|]. split.
  - rewrite getFriendlyErrorMessage_classify. apply category_of_friendly_text.
  - intros Hq _.
    assert (Hr : includes (message_of error) "API Key is missing" = false ->
                 classify (message_of error) = RateLimit).
    { intros Hk. unfold classify, classifier_rules. cbn [first_match].
      rewrite Hk. rewrite (includes_toLowerCase _ "quota" eq_refl Hq).
      now rewrite orb_true_r. }
    split; [|exact Hr].
    destruct (includes (message_of error) "API Key is missing") eqn:Hk.
    + unfold classify, classifier_rules. cbn [first_match]. rewrite Hk.
      discriminate.
    + rewrite (Hr eq_refl). discriminate.
Qed.

Lemma C3_first_matching_rule_witness :
  includes (message_of (ErrorObject (str "quota exceeded, status 500"))) "quota" = true /\
  includes (message_of (ErrorObject (str "quota exceeded, status 500"))) "500" = true /\
  includes (message_of (ErrorObject (str "quota exceeded, status 500")))
    "API Key is missing" = false /\
  classify (message_of (ErrorObject (str "quota exceeded, status 500"))) = RateLimit.
Proof.
  split; [reflexivity|]. split; [reflexivity|]. split; [reflexivity|].
  destruct (C3_first_matching_rule (ErrorObject (str "quota exceeded, status 500")))
    as [_ [_ H]].
  destruct (H eq_refl eq_refl) as [_ Hr]. exact (Hr eq_refl).
Defined.

(** The order at work on a message that three rules match: the rule of
    the missing credential, the first, gives the category. *)
Example classify_first_rule :
  let m := str "API Key is missing (quota 500)" in
  includes m "quota" = true /\ includes m "500" = true /\
  classify m <> RateLimit /\
  category_of_text (getFriendlyErrorMessage (ErrorObject m)) = MissingCredential.
Proof. repeat split. discriminate. Qed.

(** ** The generation client *)

Lemma getAiClient_network (env : Env) (w : World) :
  network (snd (getAiClient env w)) = network w.
Proof. unfold getAiClient. now destruct (aiClient w). Qed.

(** C5.  With no credential configured (the variable unset or empty), both
    calls throw the missing-key error and leave the world as it was: no
    client is made and no request is sent; the classifier reads the error
    as a missing credential. *)
Theorem C5_missing_credential (env : Env) :
  not_ (API_KEY env) = true ->
  forall topic customDialogue storyText durationMinutes allowVariations w,
    generateStoryDraft env topic customDialogue durationMinutes w =
      (Throw (ErrorObject missing_key_message), w) /\
    generateScenesFromStory env storyText durationMinutes allowVariations w =
      (Throw (ErrorObject missing_key_message), w) /\
    classify (message_of (ErrorObject missing_key_message)) = MissingCredential.
Proof.
  intros Hk topic cd story d av w.
  unfold generateStoryDraft, generateScenesFromStory, getApiKey.
  rewrite Hk. repeat split; reflexivity.
Qed.

Lemma C5_missing_credential_witness :
  not_ (API_KEY no_key_env) = true /\
  generateStoryDraft no_key_env (str "A lighthouse keeper") None 1 fresh_World =
    (Throw (ErrorObject missing_key_message), fresh_World) /\
  generateScenesFromStory no_key_env (str "Once upon a time") 1 false fresh_World =
    (Throw (ErrorObject missing_key_message), fresh_World).
Proof.
  split; [reflexivity|].
  pose proof (C5_missing_credential no_key_env eq_refl
                (str "A lighthouse keeper") None (str "Once upon a time")
                1 false fresh_World) as [H1 [H2 _]].
  split; [exact H1 | exact H2].
Defined.

(** C2, as amended.  When a key is configured and the endpoint resolves,
    the call throws the no-response error for an undefined or empty text,
    throws the syntax error of [JSON.parse] for a text that is not JSON,
    and otherwise returns the parsed value as it is, whatever its shape.
    One request has been sent. *)
Theorem C2_scenes_decoding (env : Env) (storyText : jsstring)
  (durationMinutes : number) (allowVariations : bool) (w : World)
  (text : option jsstring) :
  not_ (API_KEY env) = false ->
  generateContent env (fst (getAiClient env w))
    (generateScenesFromStory_request storyText durationMinutes allowVariations)
    = Resolves text ->
  fst (generateScenesFromStory env storyText durationMinutes allowVariations w) =
    (if not_ text then Throw (ErrorObject no_response_message)
     else match JSON_parse (or_empty text) with
          | Some v => Ok v
          | None => Throw (ErrorObject (syntaxErrorMessage env (or_empty text)))
          end) /\
  network (snd (generateScenesFromStory env storyText durationMinutes
                  allowVariations w)) =
    (fst (getAiClient env w),
     generateScenesFromStory_request storyText durationMinutes allowVariations)
    :: network w.
Proof.
  intros Hk Hresp. unfold generateScenesFromStory, getApiKey. rewrite Hk.
  pose proof (getAiClient_network env w) as Hn.
  destruct (getAiClient env w) as [ai w1]. simpl in Hresp, Hn |- *.
  rewrite Hresp. destruct (not_ text).
  - simpl. now rewrite Hn.
  - destruct (JSON_parse (or_empty text)); simpl; now rewrite Hn.
Qed.

Lemma C2_scenes_decoding_witness :
  not_ (API_KEY (example_env (Some (str "[42]")))) = false /\
  fst (generateScenesFromStory (example_env (Some (str "[42]")))
         (str "Once upon a time") 1 false fresh_World) = Ok (JArr [JNum 42 0]).
Proof.
  split; [reflexivity|].
  apply (C2_scenes_decoding (example_env (Some (str "[42]")))
           (str "Once upon a time") 1 false fresh_World (Some (str "[42]"))
           eq_refl eq_refl).
Defined.

(** A text that is JSON and no array of scenes is returned, not refused. *)
Lemma C2_counterexample :
  JSON_parse (str "[42]") = Some (JArr [JNum 42 0]) /\
  matches_Scene_array (JArr [JNum 42 0]) = false /\
  fst (generateScenesFromStory (example_env (Some (str "[42]")))
         (str "Once upon a time") 1 false fresh_World) = Ok (JArr [JNum 42 0]) /\
  forall e,
    fst (generateScenesFromStory (example_env (Some (str "[42]")))
           (str "Once upon a time") 1 false fresh_World) <> Throw e.
Proof. repeat split. discriminate. Qed.

(** ** The controller *)

Lemma getFriendlyErrorMessage_not_empty (err : thrown) :
  getFriendlyErrorMessage err <> [].
Proof.
  rewrite getFriendlyErrorMessage_classify. apply friendly_text_not_empty.
Qed.

Lemma draft_failure_settles (err : thrown) (cur : State) :
  let s' := handleGenerateDraft_settle (Throw err) cur in
  appState s' = INPUT /\ error s' = Some (getFriendlyErrorMessage err) /\
  storyDraft s' = storyDraft cur /\ topic s' = topic cur /\
  customDialogue s' = customDialogue cur /\ duration s' = duration cur.
Proof. repeat split. Qed.

Lemma scenes_failure_settles (captured : State) (err : thrown) (cur : State) :
  let s' := handleGenerateScenes_settle captured (Throw err) cur in
  appState s' = STORY_REVIEW /\ error s' = Some (getFriendlyErrorMessage err) /\
  storyDraft s' = storyDraft cur /\ allowVariations s' = allowVariations cur /\
  duration s' = duration cur /\ scenes s' = scenes cur.
Proof. repeat split. Qed.

(** C4.  A draft request that was sent and fails leaves the controller in
    the input stage with an error that is a non-empty text and with the
    draft, the topic, the dialogue and the duration as they were; a scene
    request that was sent and fails leaves it in the review stage with an
    error and with the draft as it was. *)
Theorem C4_failure_returns_to_stage (env : Env) (s : State) (w : World)
  (err : thrown) :
  (truthy (trim (topic s)) = true ->
   fst (generateStoryDraft env (topic s) (Some (customDialogue s))
          (safeDuration s) w) = Throw err ->
   let s' := fst (handleGenerateDraft env s w) in
   appState s' = INPUT /\
   error s' = Some (getFriendlyErrorMessage err) /\
   getFriendlyErrorMessage err <> [] /\
   storyDraft s' = storyDraft s /\ topic s' = topic s /\
   customDialogue s' = customDialogue s /\ duration s' = duration s) /\
  (truthy (trim (storyDraft s)) = true ->
   fst (generateScenesFromStory env (storyDraft s) (safeDuration s)
          (allowVariations s) w) = Throw err ->
   exists s' w',
     handleGenerateScenes env s w = Typed (s', w') /\
     appState s' = STORY_REVIEW /\
     error s' = Some (getFriendlyErrorMessage err) /\
     getFriendlyErrorMessage err <> [] /\
     storyDraft s' = storyDraft s /\ allowVariations s' = allowVariations s /\
     duration s' = duration s).
Proof.
  split.
  - intros Hg Hr. unfold handleGenerateDraft, handleGenerateDraft_start.
    rewrite Hg. cbn [negb].
    destruct (generateStoryDraft env (topic s) (Some (customDialogue s))
                (safeDuration s) w) as [r w'].
    simpl in Hr. subst r. cbn [fst].
    pose proof (getFriendlyErrorMessage_not_empty err).
    repeat split; assumption.
  - intros Hg Hr. unfold handleGenerateScenes, handleGenerateScenes_start.
    rewrite Hg. cbn [negb].
    destruct (generateScenesFromStory env (storyDraft s) (safeDuration s)
                (allowVariations s) w) as [r w'].
    simpl in Hr. subst r. eexists; eexists. split; [reflexivity|].
    pose proof (getFriendlyErrorMessage_not_empty err).
    repeat split; assumption.
Qed.

Lemma C4_failure_returns_to_stage_witness :
  truthy (trim (topic review_State)) = true /\
  truthy (trim (storyDraft review_State)) = true /\
  appState (fst (handleGenerateDraft failing_env review_State fresh_World)) = INPUT /\
  exists s' w',
    handleGenerateScenes failing_env review_State fresh_World = Typed (s', w') /\
    appState s' = STORY_REVIEW /\ storyDraft s' = storyDraft review_State.
Proof.
  split; [reflexivity|]. split; [reflexivity|].
  destruct (C4_failure_returns_to_stage failing_env review_State fresh_World
              (ErrorObject (str "503 overloaded"))) as [Hd Hs].
  split.
  - apply (Hd eq_refl eq_refl).
  - destruct (Hs eq_refl eq_refl) as [s' [w' [E [H1 [_ [_ [H2 _]]]]]]].
    exists s', w'. repeat split; assumption.
Defined.

(** C6, as amended.  A confirmed reset puts the controller in the input
    stage with the topic, the dialogue, the draft, the duration and the
    scene list at their initial values, and leaves the error as it was; a
    reset that is not confirmed changes nothing. *)
Theorem C6_reset_clears_story (s : State) (clientId : jsstring) :
  let s' := handleReset true s in
  appState s' = INPUT /\
  topic s' = topic (initial_State clientId) /\
  customDialogue s' = customDialogue (initial_State clientId) /\
  storyDraft s' = storyDraft (initial_State clientId) /\
  duration s' = duration (initial_State clientId) /\
  scenes s' = scenes (initial_State clientId) /\
  error s' = error s /\
  handleReset false s = s.
Proof. repeat split. Qed.

(** The consistency-mode flag set before a reset is still set after it,
    and so is an error that an older request left behind. *)
Lemma C6_counterexample :
  appState results_State = RESULTS /\
  allowVariations (handleReset true results_State) <>
    allowVariations (initial_State []) /\
  appState stale_error_State = RESULTS /\
  error (handleReset true stale_error_State) <> error (initial_State []).
Proof. repeat split; discriminate. Qed.

(** ** The activity record *)

Lemma updateUserActivity_map_recorded (email0 : jsstring) (n : nat)
  (db : list UserStats) :
  Forall2 (activity_recorded email0 n) db
    (updateUserActivity_map email0 (Z.of_nat n) db).
Proof.
  induction db as [|u db IH]; simpl; constructor; [|exact IH].
  unfold activity_recorded.
  destruct (jsstring_eqb (email (stats_user u)) email0); [|reflexivity].
  simpl. repeat split.
  destruct n as [|n]; simpl; [lia | reflexivity].
Qed.

(** Whatever state the continuation of the scene request finds, it records
    the scenes for the user of the render that sent the request. *)
Lemma scenes_success_settles (captured cur : State) (u : User)
  (l : list json) :
  user captured = Some u ->
  let s' := handleGenerateScenes_settle captured (Ok l) cur in
  appState s' = RESULTS /\ scenes s' = l /\ error s' = error cur /\
  Forall2 (activity_recorded (email u) (List.length l)) (userDb cur) (userDb s').
Proof.
  intros Hu. unfold handleGenerateScenes_settle. rewrite Hu.
  repeat split. apply updateUserActivity_map_recorded.
Qed.

(** C7, as amended.  After a decomposition call that returns an array of
    [n] scenes while a user is signed in, the controller is in the results
    stage with those scenes, and every record of the activity list that
    carries the email of the user has its scene count raised by [n] and its
    generation count raised by one when [n] is at least 1 and left as it
    was when [n] is 0; the other records are as they were. *)
Theorem C7_activity_recorded (env : Env) (s : State) (w : World)
  (u : User) (l : list json) :
  truthy (trim (storyDraft s)) = true ->
  user s = Some u ->
  fst (generateScenesFromStory env (storyDraft s) (safeDuration s)
         (allowVariations s) w) = Ok (JArr l) ->
  exists s' w',
    handleGenerateScenes env s w = Typed (s', w') /\
    appState s' = RESULTS /\ scenes s' = l /\
    Forall2 (activity_recorded (email u) (List.length l)) (userDb s) (userDb s').
Proof.
  intros Hg Hu Hr. unfold handleGenerateScenes, handleGenerateScenes_start.
  rewrite Hg. cbn [negb].
  destruct (generateScenesFromStory env (storyDraft s) (safeDuration s)
              (allowVariations s) w) as [r w'].
  simpl in Hr. subst r. cbn [as_array].
  eexists; eexists. split; [reflexivity|].
  unfold handleGenerateScenes_settle. rewrite Hu.
  repeat split. apply updateUserActivity_map_recorded.
Qed.

Lemma C7_activity_recorded_witness :
  truthy (trim (storyDraft review_State)) = true /\
  user review_State = Some alice /\
  exists s' w',
    handleGenerateScenes (example_env (Some (JSON_stringify2 (JArr two_scenes))))
      review_State fresh_World = Typed (s', w') /\
    map storiesGenerated (userDb s') = [43; 15; 8; 0]%Z /\
    map totalScenesGenerated (userDb s') = [522; 180; 96; 0]%Z.
Proof.
  split; [reflexivity|]. split; [reflexivity|].
  destruct (C7_activity_recorded
              (example_env (Some (JSON_stringify2 (JArr two_scenes))))
              review_State fresh_World alice two_scenes
              eq_refl eq_refl eq_refl) as [s' [w' [E _]]].
  exists s', w'. split; [exact E|].
  vm_compute in E. injection E as <- _. split; reflexivity.
Defined.

(** A call that succeeds with an empty array: the generation count of the
    user is not raised. *)
Lemma C7_counterexample :
  exists s' w',
    handleGenerateScenes (example_env (Some (str "[]"))) review_State fresh_World
      = Typed (s', w') /\
    appState s' = RESULTS /\
    user review_State = Some alice /\
    map storiesGenerated (userDb review_State) = [42; 15; 8; 0]%Z /\
    map storiesGenerated (userDb s') = [42; 15; 8; 0]%Z /\
    map storiesGenerated (userDb s') <> [43; 15; 8; 0]%Z.
Proof. eexists; eexists. repeat split. discriminate. Qed.

(** C9.  With a topic of white space only (or empty) the draft handler does
    nothing, and with such a draft the scene handler does nothing: the
    state is the same and no request is sent. *)
Theorem C9_blank_input_no_op (env : Env) (s : State) (w : World) :
  (whitespace_only (topic s) -> handleGenerateDraft env s w = (s, w)) /\
  (whitespace_only (storyDraft s) ->
   handleGenerateScenes env s w = Typed (s, w)).
Proof.
  split; intros H.
  - unfold handleGenerateDraft, handleGenerateDraft_start.
    now rewrite (trim_whitespace _ H).
  - unfold handleGenerateScenes, handleGenerateScenes_start.
    now rewrite (trim_whitespace _ H).
Qed.

Lemma C9_blank_input_no_op_witness :
  whitespace_only (topic blank_State) /\
  whitespace_only (storyDraft blank_State) /\
  handleGenerateDraft (example_env (Some (str "text"))) blank_State fresh_World
    = (blank_State, fresh_World) /\
  handleGenerateScenes (example_env (Some (str "[]"))) blank_State fresh_World
    = Typed (blank_State, fresh_World).
Proof.
  assert (H1 : whitespace_only (topic blank_State))
    by (repeat constructor).
  assert (H2 : whitespace_only (storyDraft blank_State))
    by (repeat constructor).
  split; [exact H1|]. split; [exact H2|]. split.
  - apply (C9_blank_input_no_op (example_env (Some (str "text")))
             blank_State fresh_World). exact H1.
  - apply (C9_blank_input_no_op (example_env (Some (str "[]")))
             blank_State fresh_World). exact H2.
Defined.

Lemma updateUserActivity_map_absent (email0 : jsstring) (n : Z)
  (db : list UserStats) :
  ~ In email0 (emails db) -> updateUserActivity_map email0 n db = db.
Proof.
  induction db as [|u db IH]; simpl; intros H; [reflexivity|].
  destruct (jsstring_eqb_spec (email (stats_user u)) email0) as [E|_].
  - tauto.
  - f_equal. apply IH. tauto.
Qed.

Lemma emails_updated (email0 : jsstring) (n : Z) (db : list UserStats) :
  emails (updateUserActivity_map email0 n db) = emails db.
Proof.
  unfold emails, updateUserActivity_map. rewrite map_map.
  apply map_ext. intros u.
  now destruct (jsstring_eqb (email (stats_user u)) email0).
Qed.

Lemma emails_deleted (userId : jsstring) (db : list UserStats) :
  incl (emails (handleDeleteUser_filter userId db)) (emails db).
Proof.
  unfold emails, handleDeleteUser_filter. intros e He.
  apply in_map_iff in He. destruct He as [u [<- Hu]].
  apply filter_In in Hu.
  apply (in_map (fun v => email (stats_user v))). tauto.
Qed.

Lemma userDb_reachable_emails (db : list UserStats) :
  userDb_reachable db -> incl (emails db) (emails INITIAL_MOCK_DB).
Proof.
  induction 1 as [|email0 n db _ IH|userId db _ IH].
  - apply incl_refl.
  - now rewrite emails_updated.
  - eapply incl_tran; [apply emails_deleted | exact IH].
Qed.

(** C10.  For an email that no record of the list carries, the update
    leaves the list, and so the state, as it was; an email that is not in
    the initial list is in none of the lists the component can hold, so
    nothing is ever recorded for it. *)
Theorem C10_unknown_email_no_op (email0 : jsstring) (scenesCount : Z) :
  (forall db, ~ In email0 (emails db) ->
              updateUserActivity_map email0 scenesCount db = db) /\
  (forall s, ~ In email0 (emails (userDb s)) ->
             updateUserActivity email0 scenesCount s = s) /\
  (~ In email0 (emails INITIAL_MOCK_DB) ->
   forall db, userDb_reachable db ->
              updateUserActivity_map email0 scenesCount db = db).
Proof.
  split; [|split].
  - intros db H. now apply updateUserActivity_map_absent.
  - intros s H. unfold updateUserActivity, setUserDb.
    rewrite (updateUserActivity_map_absent _ _ _ H). now destruct s.
  - intros H db Hdb. apply updateUserActivity_map_absent.
    intros Hin. apply H. exact (userDb_reachable_emails db Hdb _ Hin).
Qed.

Lemma C10_unknown_email_no_op_witness :
  ~ In (str "new.user@example.org") (emails INITIAL_MOCK_DB) /\
  updateUserActivity (str "new.user@example.org") 6 review_State = review_State /\
  updateUserActivity_map (str "new.user@example.org") 6
    (handleDeleteUser_filter (str "2") INITIAL_MOCK_DB) =
  handleDeleteUser_filter (str "2") INITIAL_MOCK_DB.
Proof.
  assert (H : ~ In (str "new.user@example.org") (emails INITIAL_MOCK_DB)).
  { simpl. intros [E|[E|[E|[E|[]]]]]; discriminate E. }
  split; [exact H|].
  destruct (C10_unknown_email_no_op (str "new.user@example.org") 6)
    as [_ [Hs Hr]].
  split.
  - apply Hs. exact H.
  - apply (Hr H). apply userDb_deleted, userDb_initial.
Defined.

(** ** The export *)

Lemma canonical_json_of_Scene (sc : Scene) :
  Scene_safe sc -> canonical (json_of_Scene sc).
Proof.
  intros [H1 H2]. apply canonical_JObj. split.
  - cbv [json_of_Scene map fst].
    repeat (constructor; [simpl; intuition discriminate|]). constructor.
  - repeat constructor; assumption.
Qed.

Lemma canonical_json_of_Scenes (l : list Scene) :
  Forall Scene_safe l -> canonical (json_of_Scenes l).
Proof.
  intros H. apply canonical_JArr. apply Forall_map.
  revert H. apply Forall_impl. exact canonical_json_of_Scene.
Qed.

(** C8, as amended.  For every list of scenes whose numbers are integers
    that the source holds exactly (up to [Number.MAX_SAFE_INTEGER] in
    absolute value), the document that the download writes (two spaces of
    indentation) parses back to the list; so does the text of the card of
    such a scene. *)
Theorem C8_export_round_trip (l : list Scene) (now : Z) (s : State) :
  Forall Scene_safe l ->
  JSON_parse (JSON_stringify2 (json_of_Scenes l)) = Some (json_of_Scenes l) /\
  JSON_parse (snd (handleDownloadAll now (setScenes (map json_of_Scene l) s)))
    = Some (json_of_Scenes l) /\
  forall sc, Scene_safe sc ->
             JSON_parse (jsonPrompt (json_of_Scene sc)) = Some (json_of_Scene sc).
Proof.
  intros Hl. split; [|split].
  - apply JSON_parse_stringify, canonical_json_of_Scenes, Hl.
  - apply (JSON_parse_stringify (json_of_Scenes l)), canonical_json_of_Scenes, Hl.
  - intros sc Hsc. apply JSON_parse_stringify, canonical_json_of_Scene, Hsc.
Qed.

Lemma C8_export_round_trip_witness :
  Forall Scene_safe [example_Scene; example_Scene] /\
  JSON_parse (snd (handleDownloadAll 1700000000000
                     (setScenes (map json_of_Scene [example_Scene; example_Scene])
                        review_State)))
    = Some (json_of_Scenes [example_Scene; example_Scene]).
Proof.
  assert (H : Forall Scene_safe [example_Scene; example_Scene]).
  { repeat constructor; unfold MAX_SAFE_INTEGER; simpl; lia. }
  split; [exact H|].
  exact (proj1 (proj2 (C8_export_round_trip [example_Scene; example_Scene]
                         1700000000000 review_State H))).
Defined.

(** A scene list that the program holds and that does not come back.  The
    response gives [1e400] for the number of its scene; [JSON.parse] reads
    it as Infinity, the value has the shape of a scene list and is the
    scene list of the results stage; the download writes [null] for the
    number, and [null] is what is read back. *)
Lemma C8_counterexample :
  JSON_parse overflow_response = Some (JArr [pier_scene (JInf false)]) /\
  matches_Scene_array (JArr [pier_scene (JInf false)]) = true /\
  exists s' w',
    handleGenerateScenes (example_env (Some overflow_response)) review_State
      fresh_World = Typed (s', w') /\
    appState s' = RESULTS /\
    scenes s' = [pier_scene (JInf false)] /\
    JSON_parse (snd (handleDownloadAll 1700000000000 s')) =
      Some (JArr [pier_scene JNull]) /\
    JSON_parse (snd (handleDownloadAll 1700000000000 s')) <>
      Some (JArr (scenes s')).
Proof.
  assert (E : JSON_parse overflow_response =
              Some (JArr [pier_scene (JInf false)]))
    by (vm_compute; reflexivity).
  split; [exact E|]. split; [reflexivity|].
  eexists; eexists. split.
  - unfold handleGenerateScenes, generateScenesFromStory.
    cbn [handleGenerateScenes_start review_State]. vm_compute. reflexivity.
  - vm_compute. repeat split. discriminate.
Qed.

Example export_example :
  JSON_parse (JSON_stringify2 (json_of_Scenes [example_Scene; example_Scene])) =
  Some (json_of_Scenes [example_Scene; example_Scene]).
Proof. vm_compute. reflexivity. Qed.

(** * Further properties *)

(** ** The generation client: what a call returns, throws and sends *)

(** X1.  The draft call returns a text only when a key is configured and the
    endpoint answered the request of this call with that very text; the text
    is never empty, and exactly one request, the request of this call with
    no response schema, has been added to the log. *)
Theorem X1_draft_returns_endpoint_text (env : Env) (topic : jsstring)
  (customDialogue : option jsstring) (durationMinutes : number) (w : World)
  (t : jsstring) :
  fst (generateStoryDraft env topic customDialogue durationMinutes w) = Ok t ->
  let ai := fst (getAiClient env w) in
  let req := generateStoryDraft_request topic customDialogue durationMinutes in
  t <> [] /\ not_ (API_KEY env) = false /\
  generateContent env ai req = Resolves (Some t) /\
  network (snd (generateStoryDraft env topic customDialogue durationMinutes w))
    = (ai, req) :: network w /\
  responseSchema (config req) = None.
Proof.
  unfold generateStoryDraft, getApiKey.
  destruct (not_ (API_KEY env)) eqn:Hk; [discriminate|].
  pose proof (getAiClient_network env w) as Hn.
  destruct (getAiClient env w) as [ai w1]. cbn [fst snd] in *.
  destruct (generateContent env ai _) as [e|text] eqn:Hr; [discriminate|].
  destruct text as [text|]; [|discriminate].
  cbn [not_ or_empty]. destruct text as [|c text]; [discriminate|].
  cbn [truthy negb fst snd]. intros H. injection H as <-.
  repeat split; try discriminate. cbn [send network]. now rewrite Hn.
Qed.

Lemma X1_draft_returns_endpoint_text_witness :
  generateContent (example_env (Some (str "The keeper climbs.")))
    {| apiKey := str "key" |}
    (generateStoryDraft_request (str "A lighthouse") None 1)
  = Resolves (Some (str "The keeper climbs.")) /\
  List.length (network used_World) = 1%nat.
Proof.
  destruct (X1_draft_returns_endpoint_text
              (example_env (Some (str "The keeper climbs.")))
              (str "A lighthouse") None 1 fresh_World
              (str "The keeper climbs.") eq_refl) as [_ [_ [H [Hn _]]]].
  split; [exact H|]. unfold used_World. now rewrite Hn.
Defined.

(** X2.  Every failure of the draft call is of one of three kinds: the
    missing-key error, thrown before any client is made or request sent;
    the value with which the endpoint rejected the request, thrown again
    unchanged; the no-story error for a response with no text. *)
Theorem X2_draft_failure_kinds (env : Env) (topic : jsstring)
  (customDialogue : option jsstring) (durationMinutes : number) (w : World)
  (e : thrown) :
  fst (generateStoryDraft env topic customDialogue durationMinutes w) = Throw e ->
  let ai := fst (getAiClient env w) in
  let req := generateStoryDraft_request topic customDialogue durationMinutes in
  let w' := snd (generateStoryDraft env topic customDialogue durationMinutes w) in
  (not_ (API_KEY env) = true /\ e = ErrorObject missing_key_message /\ w' = w) \/
  (not_ (API_KEY env) = false /\ network w' = (ai, req) :: network w /\
   (generateContent env ai req = Rejects e \/
    exists text, generateContent env ai req = Resolves text /\
                 not_ text = true /\ e = ErrorObject no_story_message)).
Proof.
  unfold generateStoryDraft, getApiKey.
  destruct (not_ (API_KEY env)) eqn:Hk.
  - intros H. injection H as <-. left. repeat split.
  - pose proof (getAiClient_network env w) as Hn.
    destruct (getAiClient env w) as [ai w1]. cbn [fst snd] in *.
    intros H. right. split; [reflexivity|].
    destruct (generateContent env ai _) as [e'|text] eqn:Hr.
    + injection H as <-. split; [cbn; now rewrite Hn | now left].
    + destruct (not_ text) eqn:Ht; [|discriminate].
      injection H as <-. split; [cbn; now rewrite Hn|].
      right. exists text. repeat split. exact Ht.
Qed.

Lemma X2_draft_failure_kinds_witness :
  snd (generateStoryDraft no_key_env (str "A lighthouse") None 1 fresh_World)
    = fresh_World /\
  generateContent failing_env {| apiKey := str "key" |}
    (generateStoryDraft_request (str "A lighthouse") None 1)
  = Rejects (ErrorObject (str "503 overloaded")).
Proof.
  split.
  - destruct (X2_draft_failure_kinds no_key_env (str "A lighthouse") None 1
                fresh_World (ErrorObject missing_key_message) eq_refl)
      as [[_ [_ H]]|[H _]]; [exact H | discriminate H].
  - destruct (X2_draft_failure_kinds failing_env (str "A lighthouse") None 1
                fresh_World (ErrorObject (str "503 overloaded")) eq_refl)
      as [[H _]|[_ [_ [H|[text [H _]]]]]];
      [discriminate H | exact H | discriminate H].
Defined.

(** *** What [JSON.parse] builds has no key twice *)

Lemma keys_distinct_JArr (l : list json) :
  keys_distinct (JArr l) <-> Forall keys_distinct l.
Proof.
  induction l as [|x l IH].
  - split; [constructor | intros _; exact I].
  - change (keys_distinct (JArr (x :: l)))
      with (keys_distinct x /\ keys_distinct (JArr l)).
    rewrite IH. split.
    + intros [H1 H2]. now constructor.
    + intros H. inversion H; subst. now split.
Qed.

Lemma keys_distinct_JObj (ms : members_t) :
  keys_distinct (JObj ms) <->
  NoDup (map fst ms) /\ Forall (fun kv => keys_distinct (snd kv)) ms.
Proof.
  change (keys_distinct (JObj ms)) with
    (NoDup (map fst ms) /\
     fold_right
       (fun (kv : jsstring * json) P => let (_, x) := kv in keys_distinct x /\ P)
       True ms).
  assert (H : fold_right
       (fun (kv : jsstring * json) P => let (_, x) := kv in keys_distinct x /\ P)
       True ms <-> Forall (fun kv => keys_distinct (snd kv)) ms).
  { induction ms as [|[k x] ms IH]; simpl.
    - split; [constructor | trivial].
    - rewrite IH. split.
      + intros [H1 H2]. now constructor.
      + intros H. inversion H; subst. now split. }
  now rewrite H.
Qed.

Lemma safe_integers_JArr (l : list json) :
  safe_integers (JArr l) <-> Forall safe_integers l.
Proof.
  induction l as [|x l IH].
  - split; [constructor | intros _; exact I].
  - change (safe_integers (JArr (x :: l)))
      with (safe_integers x /\ safe_integers (JArr l)).
    rewrite IH. split.
    + intros [H1 H2]. now constructor.
    + intros H. inversion H; subst. now split.
Qed.

Lemma safe_integers_JObj (ms : members_t) :
  safe_integers (JObj ms) <-> Forall (fun kv => safe_integers (snd kv)) ms.
Proof.
  change (safe_integers (JObj ms)) with
    (fold_right
       (fun (kv : jsstring * json) P => let (_, x) := kv in safe_integers x /\ P)
       True ms).
  induction ms as [|[k x] ms IH]; simpl.
  - split; [constructor | trivial].
  - rewrite IH. split.
    + intros [H1 H2]. now constructor.
    + intros H. inversion H; subst. now split.
Qed.

Lemma obj_set_In_keys (k : jsstring) (v : json) (ms : members_t) (x : jsstring) :
  In x (map fst (obj_set k v ms)) -> x = k \/ In x (map fst ms).
Proof.
  induction ms as [|[k' v'] ms IH]; simpl.
  - intros [H|[]]. now left.
  - destruct (jsstring_eqb_spec k' k) as [->|Hk]; simpl.
    + intros [H|H]; auto.
    + intros [H|H]; auto. destruct (IH H); auto.
Qed.

Lemma obj_set_NoDup (k : jsstring) (v : json) (ms : members_t) :
  NoDup (map fst ms) -> NoDup (map fst (obj_set k v ms)).
Proof.
  induction ms as [|[k' v'] ms IH]; simpl; intros H.
  - constructor; [intros [] | constructor].
  - inversion H as [|? ? Hnin Hnd]; subst.
    destruct (jsstring_eqb_spec k' k) as [->|Hk]; simpl.
    + now constructor.
    + constructor; [|now apply IH].
      intros Hin. apply obj_set_In_keys in Hin. destruct Hin as [->|Hin]; tauto.
Qed.

Lemma obj_set_Forall (P : json -> Prop) (k : jsstring) (v : json)
  (ms : members_t) :
  P v -> Forall (fun kv => P (snd kv)) ms ->
  Forall (fun kv => P (snd kv)) (obj_set k v ms).
Proof.
  intros Hv. induction 1 as [|[k' v'] ms Hx Hms IH]; simpl.
  - now repeat constructor.
  - destruct (jsstring_eqb k' k); constructor; assumption.
Qed.

Lemma read_number_shape (s : jsstring) (v : json) (r : jsstring) :
  read_number s = Some (v, r) ->
  (exists m k, v = JNum m k) \/ (exists negative, v = JInf negative).
Proof.
  unfold read_number.
  destruct (match s with
            | [] => (false, s)
            | c :: s' => if is_char c "-" then (true, s') else (false, s)
            end) as [neg s1].
  destruct (read_int s1) as [[i s2]|]; [|discriminate].
  destruct (read_fraction s2) as [[f s3]|]; [|discriminate].
  destruct (read_exponent s3) as [[e s4]|]; [|discriminate].
  intros H. injection H as <- _. unfold decimal_value.
  destruct (Qle_bool _ _); [eauto|].
  destruct (0 <=? _)%Z; [eauto|].
  destruct (normalise _ _). eauto.
Qed.

Lemma parse_keys_distinct (f : nat) :
  (forall s v r, parse_value f s = Some (v, r) -> keys_distinct v) /\
  (forall s acc v r,
      parse_elements f s acc = Some (v, r) ->
      Forall keys_distinct acc -> keys_distinct v) /\
  (forall s acc v r,
      parse_members f s acc = Some (v, r) ->
      NoDup (map fst acc) ->
      Forall (fun kv => keys_distinct (snd kv)) acc -> keys_distinct v).
Proof.
  induction f as [|f [IHv [IHe IHm]]].
  - repeat split; intros; discriminate.
  - split; [|split].
    + intros s v r H. cbn [parse_value] in H.
      destruct (skip_ws s) as [|c r0]; [discriminate|].
      destruct (is_char c "{").
      { destruct (skip_ws r0) as [|c' r']; [discriminate|].
        destruct (is_char c' "}").
        - injection H as <- _. apply keys_distinct_JObj. split; constructor.
        - apply (IHm _ _ _ _ H); constructor. }
      destruct (is_char c "[").
      { destruct (skip_ws r0) as [|c' r']; [discriminate|].
        destruct (is_char c' "]").
        - injection H as <- _. exact I.
        - apply (IHe _ _ _ _ H). constructor. }
      destruct (c =? 34)%N.
      { destruct (read_string r0) as [[x r']|]; [|discriminate].
        injection H as <- _. exact I. }
      unfold expect in H.
      destruct (is_char c "t").
      { destruct (startsWith r0 _); [|discriminate]. injection H as <- _. exact I. }
      destruct (is_char c "f").
      { destruct (startsWith r0 _); [|discriminate]. injection H as <- _. exact I. }
      destruct (is_char c "n").
      { destruct (startsWith r0 _); [|discriminate]. injection H as <- _. exact I. }
      apply read_number_shape in H.
      destruct H as [[m [k ->]]|[negative ->]]; exact I.
    + intros s acc v r H Hacc. cbn [parse_elements] in H.
      destruct (parse_value f s) as [[x r1]|] eqn:Ex; [|discriminate].
      apply IHv in Ex.
      destruct (skip_ws r1) as [|c r2]; [discriminate|].
      destruct (is_char c ",").
      { apply (IHe _ _ _ _ H). now constructor. }
      destruct (is_char c "]"); [|discriminate].
      injection H as <- _. apply keys_distinct_JArr.
      change (Forall keys_distinct (rev (x :: acc))).
      apply Forall_rev. now constructor.
    + intros s acc v r H Hnd Hacc. cbn [parse_members] in H.
      destruct (skip_ws s) as [|c r0]; [discriminate|].
      destruct (c =? 34)%N; [|discriminate].
      destruct (read_string r0) as [[k r1]|]; [|discriminate].
      destruct (skip_ws r1) as [|c1 r2]; [discriminate|].
      destruct (is_char c1 ":"); [|discriminate].
      destruct (parse_value f r2) as [[x r3]|] eqn:Ex; [|discriminate].
      apply IHv in Ex.
      destruct (skip_ws r3) as [|c3 r4]; [discriminate|].
      destruct (is_char c3 ",").
      { apply (IHm _ _ _ _ H).
        - now apply obj_set_NoDup.
        - now apply obj_set_Forall. }
      destruct (is_char c3 "}"); [|discriminate].
      injection H as <- _. apply keys_distinct_JObj. split.
      * now apply obj_set_NoDup.
      * now apply obj_set_Forall.
Qed.

Lemma JSON_parse_keys_distinct (text : jsstring) (v : json) :
  JSON_parse text = Some v -> keys_distinct v.
Proof.
  unfold JSON_parse.
  destruct (parse_value _ text) as [[v' r]|] eqn:E; [|discriminate].
  destruct (skip_ws r); [|discriminate].
  intros H. injection H as <-.
  exact (proj1 (parse_keys_distinct _) _ _ _ E).
Qed.

Lemma canonical_of_parsed (v : json) :
  keys_distinct v -> safe_integers v -> canonical v.
Proof.
  induction v as [|b|m k|negative|s|l IH|ms IH] using json_ind2;
    intros Hk Hs; try exact I.
  - exact Hs.
  - exact Hs.
  - apply canonical_JArr. apply keys_distinct_JArr in Hk.
    apply safe_integers_JArr in Hs.
    apply (Forall_impl2 _ _ l (Forall_impl2 _ _ l IH Hk) Hs).
  - apply canonical_JObj. apply keys_distinct_JObj in Hk.
    apply safe_integers_JObj in Hs. destruct Hk as [Hnd Hk].
    split; [exact Hnd|].
    apply (Forall_impl2 _ _ ms
             (Forall_impl2 (fun kv => keys_distinct (snd kv)) _ ms IH Hk) Hs).
Qed.

(** X3.  The scene call returns a value only when a key is configured and
    the endpoint answered the request of this call, which carries the JSON
    media type and the scene schema, with a non-empty text; the value is
    what [JSON.parse] makes of that text, so no object in it has a key
    twice; and exactly that request has been added to the log. *)
Theorem X3_scenes_returns_parsed_response (env : Env) (storyText : jsstring)
  (durationMinutes : number) (allowVariations : bool) (w : World) (v : json) :
  fst (generateScenesFromStory env storyText durationMinutes allowVariations w)
    = Ok v ->
  let ai := fst (getAiClient env w) in
  let req :=
    generateScenesFromStory_request storyText durationMinutes allowVariations in
  not_ (API_KEY env) = false /\
  (exists text, text <> [] /\ generateContent env ai req = Resolves (Some text) /\
                JSON_parse text = Some v) /\
  keys_distinct v /\
  network (snd (generateScenesFromStory env storyText durationMinutes
                  allowVariations w)) = (ai, req) :: network w /\
  responseMimeType (config req) = Some (str "application/json") /\
  responseSchema (config req) = Some scenes_responseSchema.
Proof.
  unfold generateScenesFromStory, getApiKey.
  destruct (not_ (API_KEY env)) eqn:Hk; [discriminate|].
  pose proof (getAiClient_network env w) as Hn.
  destruct (getAiClient env w) as [ai w1]. cbn [fst snd] in *.
  destruct (generateContent env ai _) as [e|text] eqn:Hr; [discriminate|].
  destruct text as [text|]; [|discriminate].
  cbn [not_ or_empty]. destruct text as [|c text]; [discriminate|].
  cbn [truthy negb].
  destruct (JSON_parse (c :: text)) as [v'|] eqn:Hp; [|discriminate].
  cbn [fst snd]. intros H. injection H as <-.
  split; [reflexivity|]. split.
  - exists (c :: text). repeat split; [discriminate | exact Hp].
  - split; [exact (JSON_parse_keys_distinct _ _ Hp)|].
    repeat split. cbn [send network]. now rewrite Hn.
Qed.

Lemma X3_scenes_returns_parsed_response_witness :
  keys_distinct (JArr [JObj [(str "a", JNum 2 0)]]) /\
  exists text,
    text <> [] /\
    JSON_parse text = Some (JArr [JObj [(str "a", JNum 2 0)]]).
Proof.
  destruct (X3_scenes_returns_parsed_response
              (example_env (Some [91; 123; 34; 97; 34; 58; 49; 44; 34; 97; 34;
                                  58; 50; 125; 93]%N))
              (str "Once upon a time") 1 false fresh_World
              (JArr [JObj [(str "a", JNum 2 0)]]) eq_refl)
    as [_ [[text [H1 [_ H2]]] [H3 _]]].
  split; [exact H3|]. exists text. split; [exact H1 | exact H2].
Defined.

(** X4.  Every failure of the scene call is of one of four kinds: the
    missing-key error, thrown before any client is made or request sent;
    the value with which the endpoint rejected the request, thrown again
    unchanged; the no-response error for a response with no text; the
    syntax error of [JSON.parse] for a text that is not JSON. *)
Theorem X4_scenes_failure_kinds (env : Env) (storyText : jsstring)
  (durationMinutes : number) (allowVariations : bool) (w : World) (e : thrown) :
  fst (generateScenesFromStory env storyText durationMinutes allowVariations w)
    = Throw e ->
  let ai := fst (getAiClient env w) in
  let req :=
    generateScenesFromStory_request storyText durationMinutes allowVariations in
  let w' :=
    snd (generateScenesFromStory env storyText durationMinutes allowVariations w) in
  (not_ (API_KEY env) = true /\ e = ErrorObject missing_key_message /\ w' = w) \/
  (not_ (API_KEY env) = false /\ network w' = (ai, req) :: network w /\
   (generateContent env ai req = Rejects e \/
    (exists text, generateContent env ai req = Resolves text /\
                  not_ text = true /\ e = ErrorObject no_response_message) \/
    (exists text, generateContent env ai req = Resolves (Some text) /\
                  text <> [] /\ JSON_parse text = None /\
                  e = ErrorObject (syntaxErrorMessage env text)))).
Proof.
  unfold generateScenesFromStory, getApiKey.
  destruct (not_ (API_KEY env)) eqn:Hk.
  - intros H. injection H as <-. left. repeat split.
  - pose proof (getAiClient_network env w) as Hn.
    destruct (getAiClient env w) as [ai w1]. cbn [fst snd] in *.
    intros H. right. split; [reflexivity|].
    destruct (generateContent env ai _) as [e'|text] eqn:Hr.
    + injection H as <-. split; [cbn [send network snd]; f_equal; exact Hn | now left].
    + destruct (not_ text) eqn:Ht.
      * injection H as <-. split; [cbn [send network snd]; f_equal; exact Hn|].
        right; left. exists text. repeat split. exact Ht.
      * destruct text as [text|]; [|discriminate]. cbn [or_empty] in H |- *.
        destruct (JSON_parse text) eqn:Hp; [discriminate|].
        injection H as <-. split; [cbn [send network snd]; f_equal; exact Hn|].
        right; right. exists text. repeat split; [|exact Hp].
        intros ->. discriminate.
Qed.

Lemma X4_scenes_failure_kinds_witness :
  JSON_parse (str "[1,") = None /\
  snd (generateScenesFromStory no_key_env (str "Once") 1 false fresh_World)
    = fresh_World.
Proof.
  split.
  - destruct (X4_scenes_failure_kinds (example_env (Some (str "[1,")))
                (str "Once") 1 false fresh_World
                (ErrorObject (str "Unexpected token")) eq_refl)
      as [[H _]|[_ [_ [H|[[text [H [Ht _]]]|[text [H [_ [Hp _]]]]]]]]].
    + discriminate H.
    + discriminate H.
    + injection H as <-. discriminate Ht.
    + injection H as <-. exact Hp.
  - destruct (X4_scenes_failure_kinds no_key_env (str "Once") 1 false fresh_World
                (ErrorObject missing_key_message) eq_refl)
      as [[_ [_ H]]|[H _]]; [exact H | discriminate H].
Defined.

(** *** The one client of the module *)

Lemma generateStoryDraft_world (env : Env) (topic : jsstring)
  (customDialogue : option jsstring) (durationMinutes : number) (w : World) :
  snd (generateStoryDraft env topic customDialogue durationMinutes w) =
  if not_ (API_KEY env) then w
  else send (fst (getAiClient env w))
         (generateStoryDraft_request topic customDialogue durationMinutes)
         (snd (getAiClient env w)).
Proof.
  unfold generateStoryDraft, getApiKey.
  destruct (not_ (API_KEY env)); [reflexivity|].
  destruct (getAiClient env w) as [ai w1]. cbn [fst snd].
  destruct (generateContent env ai _) as [e|text]; [reflexivity|].
  now destruct (not_ text).
Qed.

Lemma generateScenesFromStory_world (env : Env) (storyText : jsstring)
  (durationMinutes : number) (allowVariations : bool) (w : World) :
  snd (generateScenesFromStory env storyText durationMinutes allowVariations w) =
  if not_ (API_KEY env) then w
  else send (fst (getAiClient env w))
         (generateScenesFromStory_request storyText durationMinutes
            allowVariations)
         (snd (getAiClient env w)).
Proof.
  unfold generateScenesFromStory, getApiKey.
  destruct (not_ (API_KEY env)); [reflexivity|].
  destruct (getAiClient env w) as [ai w1]. cbn [fst snd].
  destruct (generateContent env ai _) as [e|text]; [reflexivity|].
  destruct (not_ text); [reflexivity|].
  now destruct (JSON_parse (or_empty text)).
Qed.

Lemma send_singleton (env : Env) (req : GenerateContentParameters) (w : World) :
  client_singleton w ->
  let w' := send (fst (getAiClient env w)) req (snd (getAiClient env w)) in
  client_singleton w' /\
  aiClient w' =
    Some (match aiClient w with
          | Some c => c
          | None => {| apiKey := or_empty (API_KEY env) |}
          end) /\
  network w' = (fst (getAiClient env w), req) :: network w.
Proof.
  unfold client_singleton, getAiClient.
  destruct (aiClient w) as [c|] eqn:E; cbn; intros H.
  - rewrite E. repeat split. now constructor.
  - rewrite H. repeat split. now repeat constructor.
Qed.

(** X5.  The module holds one client.  In a world in which every request
    of the log was sent with the client the module holds (and none was sent
    before one was made), each of the two calls keeps it so: a client that
    is there is kept and used, whatever the environment says by then, and a
    client is made, from the key of the environment, only when there is
    none and a key is configured; the log keeps its requests and grows by
    at most one. *)
Theorem X5_client_singleton_preserved (env : Env) (topic storyText : jsstring)
  (customDialogue : option jsstring) (durationMinutes : number)
  (allowVariations : bool) (w : World) :
  client_singleton w ->
  forall w',
    w' = snd (generateStoryDraft env topic customDialogue durationMinutes w) \/
    w' = snd (generateScenesFromStory env storyText durationMinutes
                allowVariations w) ->
    client_singleton w' /\
    (forall c, aiClient w = Some c -> aiClient w' = Some c) /\
    (aiClient w = None ->
     aiClient w' =
       if not_ (API_KEY env) then None
       else Some {| apiKey := or_empty (API_KEY env) |}) /\
    (network w' = network w \/ exists entry, network w' = entry :: network w).
Proof.
  intros Hw w' Hw'.
  assert (H : w' = w /\ not_ (API_KEY env) = true \/
              not_ (API_KEY env) = false /\
              exists req,
                w' = send (fst (getAiClient env w)) req (snd (getAiClient env w))).
  { destruct Hw' as [->| ->].
    - rewrite generateStoryDraft_world.
      destruct (not_ (API_KEY env)); [now left | right; eauto].
    - rewrite generateScenesFromStory_world.
      destruct (not_ (API_KEY env)); [now left | right; eauto]. }
  destruct H as [[-> Hk]|[Hk [req ->]]]; rewrite Hk.
  - repeat split; auto.
  - destruct (send_singleton env req w Hw) as [H1 [H2 H3]].
    split; [exact H1|]. split; [|split].
    + intros c Hc. rewrite H2, Hc. reflexivity.
    + intros Hc. rewrite H2, Hc. reflexivity.
    + right. eauto.
Qed.

Lemma X5_client_singleton_preserved_witness :
  client_singleton fresh_World /\ client_singleton used_World /\
  aiClient used_World = Some {| apiKey := str "key" |}.
Proof.
  assert (H : client_singleton fresh_World) by reflexivity.
  split; [exact H|].
  destruct (X5_client_singleton_preserved
              (example_env (Some (str "The keeper climbs.")))
              (str "A lighthouse") [] None 1 false fresh_World H
              used_World (or_introl eq_refl)) as [H1 [_ [H2 _]]].
  split; [exact H1 | exact (H2 eq_refl)].
Defined.

(** ** The error helper and the target scene count *)



Lemma targetSceneCount_floor_six (d : number) :
  1 <= generateStoryDraft_targetSceneCount d /\
  (1 <= d -> 6 <= generateStoryDraft_targetSceneCount d).
Proof.
  rewrite targetSceneCount_floor_max. split.
  - apply (Qle_trans _ (inject_Z 1)); [apply Qle_refl|].
    rewrite <- Zle_Qle. lia.
  - intros H1.
    assert (H6 : (6 <= Qfloor (Number_multiply d 6%Q + (1 # 2))%Q)%Z).
    { change 6%Z with (Qfloor (inject_Z 6)) at 1. apply Qfloor_resp_le.
      assert (Hr : inject_Z 6 <= Number_multiply d 6).
      { rewrite <- (round_binary64_integer 6%Z) by (cbn; lia).
        apply round_binary64_mono. change (inject_Z 6) with 6. lra. }
      lra. }
    apply (Qle_trans _ (inject_Z 6)); [apply Qle_refl|].
    rewrite <- Zle_Qle. lia.
Qed.

(** X7.  The target scene count does not decrease when the duration
    grows, is never below 1, and is at least 6 for a duration of a minute
    or more. *)
Theorem X7_targetSceneCount_monotone (d d' : number) :
  d <= d' ->
  generateScenesFromStory_targetSceneCount d <=
    generateScenesFromStory_targetSceneCount d' /\
  1 <= generateStoryDraft_targetSceneCount d /\
  (1 <= d -> 6 <= generateStoryDraft_targetSceneCount d).
Proof.
  intros Hd.
  change generateScenesFromStory_targetSceneCount
    with generateStoryDraft_targetSceneCount.
  split; [|apply targetSceneCount_floor_six].
  rewrite !targetSceneCount_floor_max.
  rewrite <- Zle_Qle. apply Z.max_le_compat_l.
  apply Qfloor_resp_le.
  assert (Hr : Number_multiply d 6 <= Number_multiply d' 6)
    by (apply round_binary64_mono; lra).
  lra.
Qed.

Lemma X7_targetSceneCount_monotone_witness :
  generateScenesFromStory_targetSceneCount (3 # 2) <=
  generateScenesFromStory_targetSceneCount (5 # 2).
Proof.
  exact (proj1 (X7_targetSceneCount_monotone (3 # 2) (5 # 2)
                  ltac:(unfold Qle; simpl; lia))).
Defined.

Lemma includes_lower (m w : jsstring) :
  includes m w = true -> includes (toLowerCase m) (toLowerCase w) = true.
Proof.
  intros H. apply includes_spec in H. destruct H as [a [b ->]].
  apply includes_spec. exists (toLowerCase a), (toLowerCase b).
  now rewrite !toLowerCase_app.
Qed.

(** X8.  The words that the helper looks for in the lower-cased message
    are found in any letter case: a message that contains one of them,
    written in whatever case, gets the text of the category of that word
    or of a rule before it, never the generic one. *)
Theorem X8_keyword_in_any_case (m w : jsstring) (c : Category) :
  includes m w = true ->
  In (toLowerCase w, c) lower_case_keywords ->
  (rank (classify m) <= rank c)%nat /\
  getFriendlyErrorMessage (ErrorObject m) =
    friendly_text (classify m) [] /\
  classify m <> Generic.
Proof.
  intros Hm Hw. apply includes_lower in Hm.
  assert (Hr : (rank (classify m) <= rank c)%nat).
  { unfold lower_case_keywords in Hw. cbn [In] in Hw.
    unfold classify, classifier_rules. cbn [first_match].
    repeat (destruct Hw as [Hw|Hw];
            [ injection Hw as Hw <-; rewrite <- Hw in Hm; rewrite Hm;
              rewrite ?orb_true_r; cbn [orb];
              repeat match goal with
                     | |- context [if ?b then _ else _] =>
                         destruct b; [cbn [rank]; lia|]
                     end; cbn [rank]; lia
            | ]).
    destruct Hw. }
  split; [exact Hr|].
  assert (Hg : classify m <> Generic).
  { intros E. rewrite E in Hr.
    unfold lower_case_keywords in Hw. cbn [In] in Hw.
    repeat (destruct Hw as [Hw|Hw];
            [injection Hw as _ <-; cbn [rank] in Hr; lia|]).
    destruct Hw. }
  split; [|exact Hg].
  rewrite getFriendlyErrorMessage_classify. cbn [message_of].
  destruct (classify m); try reflexivity. now elim Hg.
Qed.

Lemma X8_keyword_in_any_case_witness :
  classify (str "Resource EXHAUSTED for project") = RateLimit.
Proof.
  destruct (X8_keyword_in_any_case (str "Resource EXHAUSTED for project")
              (str "EXHAUSTED") RateLimit eq_refl
              (or_intror (or_introl eq_refl))) as [H [_ Hg]].
  destruct (classify (str "Resource EXHAUSTED for project")) eqn:E;
    cbn [rank] in H; try lia; try reflexivity.
  discriminate E.
Defined.

(** ** The two generation handlers *)

Lemma generateStoryDraft_not_empty (env : Env) (topic : jsstring)
  (customDialogue : option jsstring) (durationMinutes : number) (w : World)
  (t : jsstring) :
  fst (generateStoryDraft env topic customDialogue durationMinutes w) = Ok t ->
  t <> [].
Proof.
  unfold generateStoryDraft.
  destruct (not_ (getApiKey env)); [discriminate|].
  destruct (getAiClient env w) as [ai w1].
  destruct (generateContent env ai _) as [e|[[|c text]|]]; try discriminate.
  cbn. intros H. injection H as <-. discriminate.
Qed.

(** X9.  With a topic that is not blank, the draft handler ends in the
    review stage or in the input stage, never in the loading stage.  It
    ends in the review stage exactly when the call returned a draft: the
    draft, which is not empty, is then in the state and no error is shown.
    Otherwise the draft is as it was and the error is the helper's text for
    what the call threw.  Nothing but the stage, the draft and the error
    changes. *)
Theorem X9_draft_handler_outcome (env : Env) (s : State) (w : World) :
  truthy (trim (topic s)) = true ->
  let call :=
    generateStoryDraft env (topic s) (Some (customDialogue s)) (safeDuration s) w in
  let s' := fst (handleGenerateDraft env s w) in
  snd (handleGenerateDraft env s w) = snd call /\
  ((appState s' = STORY_REVIEW /\ error s' = None /\ storyDraft s' <> [] /\
    fst call = Ok (storyDraft s')) \/
   (appState s' = INPUT /\ storyDraft s' = storyDraft s /\
    exists err, fst call = Throw err /\
                error s' = Some (getFriendlyErrorMessage err))) /\
  topic s' = topic s /\ customDialogue s' = customDialogue s /\
  duration s' = duration s /\ scenes s' = scenes s /\ user s' = user s /\
  userDb s' = userDb s /\ allowVariations s' = allowVariations s.
Proof.
  intros Hg. unfold handleGenerateDraft, handleGenerateDraft_start.
  rewrite Hg. cbn [negb].
  pose proof (generateStoryDraft_not_empty env (topic s)
                (Some (customDialogue s)) (safeDuration s) w) as Hne.
  destruct (generateStoryDraft env (topic s) (Some (customDialogue s))
              (safeDuration s) w) as [[t|err] w'].
  - cbn. split; [reflexivity|]. split; [|repeat split].
    left. repeat split. exact (Hne t eq_refl).
  - cbn. split; [reflexivity|]. split; [|repeat split].
    right. repeat split. exists err. split; reflexivity.
Qed.

Lemma X9_draft_handler_outcome_witness :
  truthy (trim (topic input_State)) = true /\
  appState (fst (handleGenerateDraft
                   (example_env (Some (str "The keeper climbs.")))
                   input_State fresh_World)) = STORY_REVIEW.
Proof.
  split; [reflexivity|].
  destruct (X9_draft_handler_outcome
              (example_env (Some (str "The keeper climbs.")))
              input_State fresh_World eq_refl) as [_ [[[H _]|[_ [_ [e [H _]]]]] _]].
  - exact H.
  - discriminate H.
Defined.

(** X10.  With a draft that is not blank, a run of the scene handler in
    which the call throws or returns an array ends in the results stage or
    in the review stage, never in the loading stage.  It ends in the results
    stage exactly when the call returned an array, which is then the scene
    list, with no error shown; with nobody signed in the activity list is
    then as it was.  Otherwise the scene list and the activity list are as
    they were and the error is the helper's text for what the call threw.
    The topic, the dialogue, the duration, the draft, the user and the
    consistency mode never change. *)
Theorem X10_scenes_handler_outcome (env : Env) (s : State) (w : World)
  (s' : State) (w' : World) :
  truthy (trim (storyDraft s)) = true ->
  handleGenerateScenes env s w = Typed (s', w') ->
  let call :=
    generateScenesFromStory env (storyDraft s) (safeDuration s)
      (allowVariations s) w in
  w' = snd call /\
  ((appState s' = RESULTS /\ error s' = None /\
    fst call = Ok (JArr (scenes s')) /\
    (user s = None -> userDb s' = userDb s)) \/
   (appState s' = STORY_REVIEW /\ scenes s' = scenes s /\
    userDb s' = userDb s /\
    exists err, fst call = Throw err /\
                error s' = Some (getFriendlyErrorMessage err))) /\
  topic s' = topic s /\ customDialogue s' = customDialogue s /\
  duration s' = duration s /\ storyDraft s' = storyDraft s /\
  user s' = user s /\ allowVariations s' = allowVariations s.
Proof.
  intros Hg. unfold handleGenerateScenes, handleGenerateScenes_start.
  rewrite Hg. cbn [negb].
  destruct (generateScenesFromStory env (storyDraft s) (safeDuration s)
              (allowVariations s) w) as [[v|err] w1].
  - destruct v as [| | | | |l|]; try discriminate. cbn [as_array].
    intros H. injection H as <- <-. cbn [fst snd].
    unfold handleGenerateScenes_settle.
    split; [reflexivity|]. split.
    + left. destruct (user s) as [u|].
      * split; [reflexivity|]. split; [reflexivity|].
        split; [reflexivity|]. intros H. discriminate H.
      * split; [reflexivity|]. split; [reflexivity|].
        split; [reflexivity|]. intros _. reflexivity.
    + destruct (user s) as [u|] eqn:Hu; cbn; rewrite ?Hu; repeat split.
  - intros H. injection H as <- <-. cbn [fst snd].
    split; [reflexivity|]. split; [|repeat split].
    right. repeat split. exists err. split; reflexivity.
Qed.

Lemma X10_scenes_handler_outcome_witness :
  truthy (trim (storyDraft review_State)) = true /\
  exists s' w',
    handleGenerateScenes (example_env (Some (str "[]"))) review_State fresh_World
      = Typed (s', w') /\
    appState s' = RESULTS /\ error s' = None.
Proof.
  split; [reflexivity|].
  eexists; eexists. split; [reflexivity|].
  destruct (X10_scenes_handler_outcome (example_env (Some (str "[]")))
              review_State fresh_World _ _ eq_refl eq_refl)
    as [_ [[[H1 [H2 _]]|[_ [_ [_ [e [H _]]]]]] _]].
  - split; [exact H1 | exact H2].
  - discriminate H.
Defined.

(** X11.  With no credential configured, a draft or scene request started
    from a field that is not blank sends nothing, shows the configuration
    error and returns to the stage it came from: the input stage for a
    draft, the review stage for scenes. *)
Theorem X11_missing_key_shown (env : Env) (s : State) (w : World) :
  not_ (API_KEY env) = true ->
  (truthy (trim (topic s)) = true ->
   handleGenerateDraft env s w =
     (setAppState INPUT
        (setError (Some (friendly_text MissingCredential [])) s), w)) /\
  (truthy (trim (storyDraft s)) = true ->
   handleGenerateScenes env s w =
     Typed (setAppState STORY_REVIEW
              (setError (Some (friendly_text MissingCredential [])) s), w)).
Proof.
  intros Hk. split; intros Hg.
  - unfold handleGenerateDraft, handleGenerateDraft_start, generateStoryDraft,
      getApiKey. rewrite Hg, Hk. reflexivity.
  - unfold handleGenerateScenes, handleGenerateScenes_start,
      generateScenesFromStory, getApiKey. rewrite Hg, Hk. reflexivity.
Qed.

Lemma X11_missing_key_shown_witness :
  not_ (API_KEY no_key_env) = true /\
  error (fst (handleGenerateDraft no_key_env input_State fresh_World)) =
    Some (str "Configuration Error: The API Key is missing. Please check your environment settings.") /\
  snd (handleGenerateDraft no_key_env input_State fresh_World) = fresh_World.
Proof.
  split; [reflexivity|].
  destruct (X11_missing_key_shown no_key_env input_State fresh_World eq_refl)
    as [H _].
  rewrite (H eq_refl). split; reflexivity.
Defined.

(** X12.  When the endpoint answers with no text, the user reads the
    generic error followed by the whole message of the service, as no rule
    of the helper matches the two messages of the service for an empty
    answer; the handler is back in the stage it came from and one request
    has been sent. *)
Theorem X12_empty_response_shown (env : Env) (s : State) (w : World)
  (text : option jsstring) :
  not_ (API_KEY env) = false -> not_ text = true ->
  (truthy (trim (topic s)) = true ->
   generateContent env (fst (getAiClient env w))
     (generateStoryDraft_request (topic s) (Some (customDialogue s))
        (safeDuration s)) = Resolves text ->
   let s' := fst (handleGenerateDraft env s w) in
   appState s' = INPUT /\
   error s' =
     Some (str "An unexpected error occurred: No story generated from Gemini.") /\
   List.length (network (snd (handleGenerateDraft env s w))) =
     S (List.length (network w))) /\
  (truthy (trim (storyDraft s)) = true ->
   generateContent env (fst (getAiClient env w))
     (generateScenesFromStory_request (storyDraft s) (safeDuration s)
        (allowVariations s)) = Resolves text ->
   exists s' w',
     handleGenerateScenes env s w = Typed (s', w') /\
     appState s' = STORY_REVIEW /\
     error s' =
       Some (str "An unexpected error occurred: No response generated from Gemini.") /\
     List.length (network w') = S (List.length (network w))).
Proof.
  intros Hk Ht. split; intros Hg Hr.
  - unfold handleGenerateDraft, handleGenerateDraft_start, generateStoryDraft,
      getApiKey. rewrite Hg, Hk. cbn [negb].
    pose proof (getAiClient_network env w) as Hn.
    destruct (getAiClient env w) as [ai w1]. cbn [fst snd] in Hr, Hn.
    rewrite Hr, Ht. cbn [fst snd]. repeat split.
    cbn [send network List.length]. f_equal. f_equal. exact Hn.
  - unfold handleGenerateScenes, handleGenerateScenes_start,
      generateScenesFromStory, getApiKey. rewrite Hg, Hk. cbn [negb].
    pose proof (getAiClient_network env w) as Hn.
    destruct (getAiClient env w) as [ai w1]. cbn [fst snd] in Hr, Hn.
    rewrite Hr, Ht. eexists; eexists. split; [reflexivity|].
    repeat split. cbn [send network List.length]. f_equal. f_equal. exact Hn.
Qed.

Lemma X12_empty_response_shown_witness :
  not_ (API_KEY (example_env None)) = false /\
  error (fst (handleGenerateDraft (example_env None) input_State fresh_World)) =
    Some (str "An unexpected error occurred: No story generated from Gemini.").
Proof.
  split; [reflexivity|].
  destruct (X12_empty_response_shown (example_env None) input_State fresh_World
              None eq_refl eq_refl) as [H _].
  exact (proj1 (proj2 (H eq_refl eq_refl))).
Defined.

Lemma blank_whitespace (x : jsstring) :
  negb (truthy (trim x)) = true <-> whitespace_only x.
Proof.
  split.
  - intros H. apply trim_nil_whitespace.
    destruct (trim x); [reflexivity | discriminate].
  - intros H. now rewrite (trim_whitespace _ H).
Qed.

(** X13.  The guards of the two handlers are exact: the draft handler
    returns at once if and only if the topic is white space only, the scene
    handler if and only if the draft is, which is also when the expression
    that disables the scene button is true; a handler that goes on enters
    its loading stage with the error cleared and changes nothing else that
    the request reads. *)
Theorem X13_generation_guards_exact (s : State) :
  (handleGenerateDraft_start s = None <-> whitespace_only (topic s)) /\
  (handleGenerateScenes_start s = None <-> whitespace_only (storyDraft s)) /\
  (scenesButton_disabled s = true <-> whitespace_only (storyDraft s)) /\
  (forall s1, handleGenerateDraft_start s = Some s1 ->
              appState s1 = GENERATING_STORY /\ error s1 = None /\
              isGenerating s1 = true /\ topic s1 = topic s /\
              customDialogue s1 = customDialogue s /\
              duration s1 = duration s) /\
  (forall s1, handleGenerateScenes_start s = Some s1 ->
              appState s1 = GENERATING_SCENES /\ error s1 = None /\
              isGenerating s1 = true /\ storyDraft s1 = storyDraft s /\
              duration s1 = duration s /\
              allowVariations s1 = allowVariations s /\ user s1 = user s).
Proof.
  unfold handleGenerateDraft_start, handleGenerateScenes_start,
    scenesButton_disabled.
  rewrite <- !blank_whitespace.
  split; [|split; [|split; [|split]]].
  - destruct (negb (truthy (trim (topic s)))); split;
      intros H; try reflexivity; discriminate H.
  - destruct (negb (truthy (trim (storyDraft s)))); split;
      intros H; try reflexivity; discriminate H.
  - reflexivity.
  - intros s1. destruct (negb (truthy (trim (topic s)))); [discriminate|].
    intros H. injection H as <-. repeat split.
  - intros s1. destruct (negb (truthy (trim (storyDraft s)))); [discriminate|].
    intros H. injection H as <-. repeat split.
Qed.

Lemma X13_generation_guards_exact_witness :
  handleGenerateDraft_start blank_State = None /\
  whitespace_only (storyDraft blank_State) /\
  appState (statements [ setAppState GENERATING_STORY; setError None ]
              input_State) = GENERATING_STORY.
Proof.
  destruct (X13_generation_guards_exact blank_State) as [H1 [H2 _]].
  destruct (X13_generation_guards_exact input_State) as [_ [_ [_ [H3 _]]]].
  split; [|split].
  - apply H1. repeat constructor.
  - apply H2. reflexivity.
  - exact (proj1 (H3 _ eq_refl)).
Defined.

Lemma num_lt_false (a b : number) : num_lt a b = false <-> b <= a.
Proof.
  unfold num_lt. rewrite <- Qle_bool_iff.
  destruct (Qle_bool b a); split; intros H; try reflexivity; discriminate H.
Qed.

Lemma safeDuration_positive (s : State) :
  0 < duration s -> safeDuration s = duration s.
Proof.
  intros H. unfold safeDuration, num_le.
  destruct (Qle_bool (duration s) 0) eqn:E; [|reflexivity].
  apply Qle_bool_iff in E. lra.
Qed.

(** X14.  Whenever the expression that disables the draft button is
    false, the draft handler goes on, the duration is passed to the service
    as it is (the replacement of a duration that is not positive is not
    used), and the service asks for at least six scenes. *)
Theorem X14_draft_button_enabled (s : State) :
  draftButton_disabled s = false ->
  handleGenerateDraft_start s <> None /\
  safeDuration s = duration s /\
  6 <= generateStoryDraft_targetSceneCount (safeDuration s).
Proof.
  unfold draftButton_disabled. intros H.
  apply orb_false_iff in H. destruct H as [Ht Hd].
  apply num_lt_false in Hd.
  assert (Hs : safeDuration s = duration s)
    by (apply safeDuration_positive; lra).
  split; [|split].
  - unfold handleGenerateDraft_start. rewrite Ht. discriminate.
  - exact Hs.
  - rewrite Hs.
    apply (proj2 (targetSceneCount_floor_six (duration s)) Hd).
Qed.

Lemma X14_draft_button_enabled_witness :
  draftButton_disabled input_State = false /\
  safeDuration input_State = 2.
Proof.
  split; [reflexivity|].
  destruct (X14_draft_button_enabled input_State eq_refl) as [_ [H _]].
  rewrite H. reflexivity.
Defined.

(** ** The views *)

(** X15.  Every stage shows exactly one screen: the sign-in screen for the
    login stage, the two administrator screens for theirs, and for each of
    the five other stages the main view with exactly one of its three
    panels; the two loading stages show the panel of the stage they were
    entered from. *)
Theorem X15_one_panel_per_stage (s : State) :
  match App_view s with
  | LoginView => appState s = LOGIN
  | AdminLoginView => appState s = ADMIN_LOGIN
  | AdminDashboardView => appState s = ADMIN_DASHBOARD
  | MainView inputPanel reviewPanel resultsPanel =>
      (Nat.b2n inputPanel + Nat.b2n reviewPanel + Nat.b2n resultsPanel = 1)%nat /\
      (inputPanel = true <->
       appState s = INPUT \/ appState s = GENERATING_STORY) /\
      (reviewPanel = true <->
       appState s = STORY_REVIEW \/ appState s = GENERATING_SCENES) /\
      (resultsPanel = true <-> appState s = RESULTS)
  end.
Proof.
  unfold App_view.
  destruct (appState s); cbn; try reflexivity;
    (split; [reflexivity|]); repeat split; intros H;
    try reflexivity; try discriminate H; auto;
    try (destruct H as [H|H]; discriminate H).
Qed.

(** ** Signing in and out *)

(** X16.  Signing out clears the session: nobody is signed in, the stage
    is the login stage, and the topic, the dialogue, the draft, the scene
    list, the duration and the consistency mode are at their initial
    values.  It does what a confirmed reset does and more (signing out
    after a reset is signing out), and signing out twice is signing out
    once.  It keeps the activity list and the error: the user who signs in
    next starts from empty story fields and finds the error the session
    before left. *)
Theorem X16_logout_clears_session (s : State) (d : User)
  (clientId : jsstring) :
  (let s' := handleLogout s in
   user s' = None /\ appState s' = LOGIN /\
   topic s' = topic (initial_State clientId) /\
   customDialogue s' = customDialogue (initial_State clientId) /\
   storyDraft s' = storyDraft (initial_State clientId) /\
   scenes s' = scenes (initial_State clientId) /\
   duration s' = duration (initial_State clientId) /\
   allowVariations s' = allowVariations (initial_State clientId) /\
   error s' = error s /\ userDb s' = userDb s) /\
  handleLogout (handleLogout s) = handleLogout s /\
  handleLogout (handleReset true s) = handleLogout s /\
  (let s'' := handleGoogleCredentialResponse (Some d) (handleLogout s) in
   user s'' = Some d /\ appState s'' = INPUT /\
   topic s'' = [] /\ customDialogue s'' = [] /\ storyDraft s'' = [] /\
   scenes s'' = [] /\ error s'' = error s).
Proof. repeat split. Qed.

Lemma counters_updated_zero (email0 : jsstring) (db : list UserStats) :
  map storiesGenerated (updateUserActivity_map email0 0 db) =
    map storiesGenerated db /\
  map totalScenesGenerated (updateUserActivity_map email0 0 db) =
    map totalScenesGenerated db.
Proof.
  unfold updateUserActivity_map. rewrite !map_map. split; apply map_ext;
    intros u; destruct (jsstring_eqb (email (stats_user u)) email0);
    cbn; try reflexivity. lia.
Qed.

Lemma ids_updated (email0 : jsstring) (n : Z) (db : list UserStats) :
  map id (updateUserActivity_map email0 n db) = map id db.
Proof.
  unfold updateUserActivity_map. rewrite map_map. apply map_ext. intros u.
  now destruct (jsstring_eqb (email (stats_user u)) email0).
Qed.

(** X17.  Signing in, with a decoded credential or through the demo
    timer, sets the user and enters the input stage; in the activity list
    it marks the records of that email as active just now and changes no
    counter, no identifier and no email; it leaves the story fields and
    the error as they are.  A credential that cannot be decoded changes
    nothing but the sign-in error.  The demo timer does what a credential
    of the demo user does. *)
Theorem X17_sign_in_counts_nothing (s : State) (d : User) :
  (let s' := handleGoogleCredentialResponse (Some d) s in
   user s' = Some d /\ appState s' = INPUT /\
   map storiesGenerated (userDb s') = map storiesGenerated (userDb s) /\
   map totalScenesGenerated (userDb s') = map totalScenesGenerated (userDb s) /\
   map id (userDb s') = map id (userDb s) /\
   emails (userDb s') = emails (userDb s) /\
   (forall u, In u (userDb s') -> email (stats_user u) = email d ->
              lastActive u = str "Just now") /\
   topic s' = topic s /\ storyDraft s' = storyDraft s /\
   scenes s' = scenes s /\ error s' = error s) /\
  (let s' := handleGoogleCredentialResponse None s in
   loginError s' = Some (str "Failed to sign in. Token invalid.") /\
   user s' = user s /\ appState s' = appState s /\ userDb s' = userDb s) /\
  handleDemoLogin s = handleGoogleCredentialResponse (Some MOCK_USER) s.
Proof.
  split; [|repeat split].
  cbn. split; [reflexivity|]. split; [reflexivity|].
  destruct (counters_updated_zero (email d) (userDb s)) as [H1 H2].
  split; [exact H1|]. split; [exact H2|].
  split; [exact (ids_updated (email d) 0 (userDb s))|].
  split; [exact (emails_updated (email d) 0 (userDb s))|].
  split; [|repeat split].
  intros u Hu He.
  change (In u (updateUserActivity_map (email d) 0 (userDb s))) in Hu.
  unfold updateUserActivity_map in Hu.
  apply in_map_iff in Hu. destruct Hu as [u0 [<- _]].
  destruct (jsstring_eqb_spec (email (stats_user u0)) (email d)) as [E|E].
  - reflexivity.
  - contradiction.
Qed.

Lemma X17_sign_in_counts_nothing_witness :
  map storiesGenerated
    (userDb (handleGoogleCredentialResponse (Some MOCK_USER) (initial_State [])))
  = [42; 15; 8; 0]%Z /\
  map lastActive (userDb (handleDemoLogin (initial_State []))) =
    [str "2023-10-24 14:30"; str "2023-10-25 09:15"; str "2023-10-26 11:00";
     str "Just now"].
Proof.
  destruct (X17_sign_in_counts_nothing (initial_State []) MOCK_USER)
    as [[_ [_ [H _]]] [_ E]].
  split; [exact H|]. rewrite E. reflexivity.
Defined.

(** ** The activity list *)

Lemma filter_updated (userId email0 : jsstring) (n : Z) (db : list UserStats) :
  updateUserActivity_map email0 n (handleDeleteUser_filter userId db) =
  handleDeleteUser_filter userId (updateUserActivity_map email0 n db).
Proof.
  unfold updateUserActivity_map, handleDeleteUser_filter.
  induction db as [|u db IH]; [reflexivity|]. simpl.
  destruct (jsstring_eqb (email (stats_user u)) email0) eqn:Ee; simpl;
    destruct (jsstring_eqb (id u) userId); simpl; rewrite ?Ee, ?IH;
    reflexivity.
Qed.

(** X18.  A confirmed deletion removes every record of that identifier
    and nothing else: the records that stay are exactly those of the other
    identifiers, unchanged; with no such identifier in the list nothing
    changes, and with identifiers that are distinct
    exactly one record goes when there is one.  Deleting twice is deleting
    once, deleting and recording an activity can be done in either order,
    and a deletion that is not confirmed changes nothing. *)
Theorem X18_delete_user_removes (userId : jsstring) (db : list UserStats)
  (s : State) :
  let db' := handleDeleteUser_filter userId db in
  ~ In userId (map id db') /\
  (forall u, In u db' <-> In u db /\ id u <> userId) /\
  (~ In userId (map id db) -> db' = db) /\
  (NoDup (map id db) -> In userId (map id db) ->
   List.length db = S (List.length db')) /\
  handleDeleteUser_filter userId db' = db' /\
  (forall email0 n,
      updateUserActivity_map email0 n db' =
      handleDeleteUser_filter userId (updateUserActivity_map email0 n db)) /\
  userDb (handleDeleteUser userId true s) =
    handleDeleteUser_filter userId (userDb s) /\
  handleDeleteUser userId false s = s.
Proof.
  cbn zeta.
  assert (Hin : forall u, In u (handleDeleteUser_filter userId db) <->
                          In u db /\ id u <> userId).
  { intros u. unfold handleDeleteUser_filter. rewrite filter_In.
    destruct (jsstring_eqb_spec (id u) userId) as [E|E]; cbn; split;
      intros [H1 H2]; split; auto; try discriminate; contradiction. }
  assert (Hnot : ~ In userId (map id (handleDeleteUser_filter userId db))).
  { intros H. apply in_map_iff in H. destruct H as [u [E Hu]].
    apply Hin in Hu. tauto. }
  split; [exact Hnot|]. split; [exact Hin|].
  assert (Hsame : forall uid l, ~ In uid (map id l) ->
                     filter (fun u => negb (jsstring_eqb (id u) uid)) l = l).
  { intros uid. induction l as [|u l IH]; [reflexivity|]. simpl. intros H.
    destruct (jsstring_eqb_spec (id u) uid) as [E|E]; [tauto|].
    simpl. f_equal. apply IH. tauto. }
  split; [exact (Hsame userId db)|]. split; [|split; [|split; [|split]]].
  - clear Hin Hnot. unfold handleDeleteUser_filter.
    induction db as [|u db IH]; [intros _ []|].
    simpl. intros Hnd H. inversion Hnd as [|? ? Hu Hnd']; subst.
    destruct (jsstring_eqb_spec (id u) userId) as [E|E]; simpl.
    + subst userId. now rewrite (Hsame (id u) db Hu).
    + f_equal. apply IH; [exact Hnd' | tauto].
  - exact (Hsame userId _ Hnot).
  - intros email0 n. apply filter_updated.
  - reflexivity.
  - reflexivity.
Qed.

Lemma X18_delete_user_removes_witness :
  List.length INITIAL_MOCK_DB =
  S (List.length (handleDeleteUser_filter (str "2") INITIAL_MOCK_DB)).
Proof.
  destruct (X18_delete_user_removes (str "2") INITIAL_MOCK_DB (initial_State []))
    as [_ [_ [_ [H _]]]].
  apply H.
  - cbn. repeat (constructor; [cbn; intuition discriminate|]). constructor.
  - cbn. right; left. reflexivity.
Defined.

Lemma count_email_NoDup (email0 : jsstring) (db : list UserStats) :
  NoDup (emails db) -> (count_email email0 db <= 1)%nat.
Proof.
  unfold count_email, emails.
  induction db as [|u db IH]; cbn; intros H; [lia|].
  inversion H as [|? ? Hu Hnd]; subst.
  destruct (jsstring_eqb_spec (email (stats_user u)) email0) as [E|E].
  - cbn.
    assert (Hz : filter (fun u0 => jsstring_eqb (email (stats_user u0)) email0)
                   db = []).
    { clear - Hu E. induction db as [|v db IH]; [reflexivity|]. cbn in *.
      destruct (jsstring_eqb_spec (email (stats_user v)) email0) as [E'|E'].
      - exfalso. apply Hu. left. congruence.
      - apply IH. tauto. }
    rewrite Hz. cbn. lia.
  - apply IH. exact Hnd.
Qed.

Lemma fold_left_stories (db : list UserStats) (a : Z) :
  fold_left (fun acc curr => (acc + storiesGenerated curr)%Z) db a =
  (a + fold_left (fun acc curr => (acc + storiesGenerated curr)%Z) db 0)%Z.
Proof.
  revert a. induction db as [|u db IH]; intros a; cbn; [lia|].
  rewrite (IH (a + storiesGenerated u)%Z), (IH (storiesGenerated u)). lia.
Qed.

Lemma totalStories_cons (u : UserStats) (db : list UserStats) :
  dashboard_totalStories (u :: db) =
  (storiesGenerated u + dashboard_totalStories db)%Z.
Proof.
  unfold dashboard_totalStories. cbn [fold_left].
  rewrite fold_left_stories. lia.
Qed.

Lemma totalStories_updated (email0 : jsstring) (n : Z) (db : list UserStats) :
  dashboard_totalStories (updateUserActivity_map email0 n db) =
  (dashboard_totalStories db +
   (if (n >? 0)%Z then Z.of_nat (count_email email0 db) else 0))%Z.
Proof.
  induction db as [|u db IH]; [cbn; destruct (n >? 0)%Z; reflexivity|].
  change (updateUserActivity_map email0 n (u :: db))
    with ((if jsstring_eqb (email (stats_user u)) email0 then
             {| stats_user := stats_user u;
                id := id u;
                storiesGenerated :=
                  if (n >? 0)%Z then (storiesGenerated u + 1)%Z
                  else storiesGenerated u;
                totalScenesGenerated := (totalScenesGenerated u + n)%Z;
                lastActive := str "Just now";
                role := role u |}
           else u) :: updateUserActivity_map email0 n db).
  rewrite !totalStories_cons, IH. unfold count_email. cbn [filter].
  destruct (jsstring_eqb (email (stats_user u)) email0);
    cbn [storiesGenerated List.length]; destruct (n >? 0)%Z; lia.
Qed.

(** X19.  Recording [n] scenes for an email keeps the number of records,
    their order, identifiers, emails and roles.  Every counter stays or
    grows when [n] is not negative; recording [n] and then [m] scenes adds
    [n + m] to the clips of the records of that email.  On the dashboard
    the number of users is as it was, and the total of stories grows by
    the number of records of that email when [n] is positive, by at most
    one when no email is there twice, and stays when [n] is not
    positive. *)
Theorem X19_activity_update_totals (email0 : jsstring) (n m : Z)
  (db : list UserStats) :
  let db' := updateUserActivity_map email0 n db in
  dashboard_totalUsers db' = dashboard_totalUsers db /\
  map id db' = map id db /\ emails db' = emails db /\
  map role db' = map role db /\
  dashboard_totalStories db' =
    (dashboard_totalStories db +
     (if (n >? 0)%Z then Z.of_nat (count_email email0 db) else 0))%Z /\
  (NoDup (emails db) ->
   (dashboard_totalStories db <= dashboard_totalStories db'
    <= dashboard_totalStories db + 1)%Z) /\
  ((0 <= n)%Z ->
   Forall2 (fun u u' =>
              (storiesGenerated u <= storiesGenerated u')%Z /\
              (totalScenesGenerated u <= totalScenesGenerated u')%Z) db db') /\
  map totalScenesGenerated
    (updateUserActivity_map email0 m (updateUserActivity_map email0 n db)) =
  map totalScenesGenerated (updateUserActivity_map email0 (n + m) db).
Proof.
  cbn zeta.
  pose proof (totalStories_updated email0 n db) as Htot.
  split; [unfold dashboard_totalUsers, updateUserActivity_map;
          apply length_map|].
  split; [apply ids_updated|]. split; [apply emails_updated|].
  split.
  { unfold updateUserActivity_map. rewrite map_map. apply map_ext. intros u.
    now destruct (jsstring_eqb (email (stats_user u)) email0). }
  split; [exact Htot|]. split; [|split].
  - intros Hnd. rewrite Htot.
    pose proof (count_email_NoDup email0 db Hnd).
    destruct (n >? 0)%Z; lia.
  - intros Hn. clear Htot.
    induction db as [|u db IH]; simpl; constructor; [|exact IH].
    destruct (jsstring_eqb (email (stats_user u)) email0); simpl;
      [|lia]. destruct (n >? 0)%Z; lia.
  - unfold updateUserActivity_map. rewrite !map_map. apply map_ext.
    intros u. destruct (jsstring_eqb (email (stats_user u)) email0) eqn:E;
      cbn; rewrite ?E; cbn; lia.
Qed.

Lemma X19_activity_update_totals_witness :
  dashboard_totalStories INITIAL_MOCK_DB = 65%Z /\
  (65 <= dashboard_totalStories
           (updateUserActivity_map (str "alice@studio.com") 6 INITIAL_MOCK_DB)
      <= 66)%Z.
Proof.
  split; [reflexivity|].
  destruct (X19_activity_update_totals (str "alice@studio.com") 6 0 INITIAL_MOCK_DB)
    as [_ [_ [_ [_ [_ [H _]]]]]].
  apply H. cbn.
  repeat (constructor; [cbn; intuition discriminate|]). constructor.
Defined.

(** ** The download *)

Lemma digits_of_to_uint_injective (p p' : positive) :
  digits_of_uint (Pos.to_uint p) = digits_of_uint (Pos.to_uint p') -> p = p'.
Proof.
  intros H.
  pose proof (read_digits_digits (Pos.to_uint p) [] I) as H1.
  pose proof (read_digits_digits (Pos.to_uint p') [] I) as H2.
  rewrite H, H2 in H1. injection H1 as H1.
  apply (f_equal Z.of_uint) in H1. rewrite !Z_of_to_uint in H1.
  now injection H1.
Qed.

Lemma Z_toString_injective (n n' : Z) : Z_toString n = Z_toString n' -> n = n'.
Proof.
  unfold Z_toString. intros H.
  destruct n as [|p|p], n' as [|p'|p'];
    try reflexivity; try discriminate H;
    try (destruct (digits_of_to_uint_head p) as [c [t [E [_ [H0 Hm]]]]];
         rewrite E in H; injection H as H _; subst c;
         solve [discriminate H0 | discriminate Hm]);
    try (destruct (digits_of_to_uint_head p') as [c [t [E [_ [H0 Hm]]]]];
         rewrite E in H; injection H as H _; subst c;
         solve [discriminate H0 | discriminate Hm]).
  - f_equal. now apply digits_of_to_uint_injective.
  - injection H as H. f_equal. now apply digits_of_to_uint_injective.
Qed.

(** X20.  The name of the downloaded file is determined by the time of
    the download and by nothing else, and two downloads have the same name
    only at the same millisecond; the content is determined by the scene
    list alone. *)
Theorem X20_download_names_distinct (n n' : Z) (s s' : State) :
  (fst (handleDownloadAll n s) = fst (handleDownloadAll n' s') <-> n = n') /\
  (scenes s = scenes s' ->
   snd (handleDownloadAll n s) = snd (handleDownloadAll n' s')).
Proof.
  unfold handleDownloadAll. cbn [fst snd]. split.
  - split; [|now intros ->].
    intros H. apply app_inv_head in H. apply app_inv_tail in H.
    now apply Z_toString_injective.
  - now intros ->.
Qed.

Lemma X20_download_names_distinct_witness :
  snd (handleDownloadAll 1700000000000 results_State) =
  snd (handleDownloadAll 1700000000001 stale_error_State).
Proof.
  exact (proj2 (X20_download_names_distinct 1700000000000 1700000000001
                  results_State stale_error_State) eq_refl).
Defined.

(** X21.  What the scene call returned is what the export writes: when
    the call returned an array whose numbers are integers that a
    JavaScript number holds exactly, whatever its elements are otherwise,
    the downloaded document parses back to that array, and the text of
    each scene card parses back to its scene. *)
Theorem X21_received_scenes_export (env : Env) (storyText : jsstring)
  (durationMinutes : number) (allowVariations : bool) (w : World)
  (l : list json) (now : Z) (s : State) :
  fst (generateScenesFromStory env storyText durationMinutes allowVariations w)
    = Ok (JArr l) ->
  safe_integers (JArr l) ->
  JSON_parse (snd (handleDownloadAll now (setScenes l s))) = Some (JArr l) /\
  Forall (fun scene => JSON_parse (jsonPrompt scene) = Some scene) l.
Proof.
  intros Hr Hs.
  assert (Hk : keys_distinct (JArr l)).
  { revert Hr. unfold generateScenesFromStory.
    destruct (not_ (getApiKey env)); [discriminate|].
    destruct (getAiClient env w) as [ai w1].
    destruct (generateContent env ai _) as [e|text]; [discriminate|].
    destruct (not_ text); [discriminate|].
    destruct (JSON_parse (or_empty text)) as [v|] eqn:Hp; [|discriminate].
    cbn [fst]. intros H. injection H as ->.
    exact (JSON_parse_keys_distinct _ _ Hp). }
  pose proof (canonical_of_parsed _ Hk Hs) as Hc.
  split.
  - exact (JSON_parse_stringify (JArr l) Hc).
  - apply canonical_JArr in Hc. revert Hc. apply Forall_impl.
    intros scene. apply JSON_parse_stringify.
Qed.

Lemma X21_received_scenes_export_witness :
  safe_integers (JArr two_scenes) /\
  JSON_parse (snd (handleDownloadAll 1700000000000
                     (setScenes two_scenes review_State)))
    = Some (JArr two_scenes).
Proof.
  assert (H : safe_integers (JArr two_scenes)) by (cbn; repeat split; lia).
  split; [exact H|].
  exact (proj1 (X21_received_scenes_export
                  (example_env (Some (JSON_stringify2 (JArr two_scenes))))
                  (str "Once upon a time") 1 false fresh_World two_scenes
                  1700000000000 review_State eq_refl H)).
Defined.

(** ** The component as a transition system *)

Ltac handlers_cbn :=
  cbn [step Config_update current pending
       handleGoogleCredentialResponse handleDemoLogin handleLogout handleReset
       handleBackToInput handleAdminLoginSubmit handleExitAdmin
       handleDeleteUser handleGenerateDraft_start handleGenerateDraft_settle
       handleGenerateScenes_start handleGenerateScenes_settle
       updateUserActivity statements fold_left app
       setAppState setUser setGoogleClientId setShowClientConfig setLoginError
       setTopic setCustomDialogue setDuration setStoryDraft setScenes setError
       setAllowVariations setAdminPassword setAdminError setUserDb
       appState user googleClientId showClientConfig loginError topic
       customDialogue duration storyDraft scenes error allowVariations
       adminPassword adminError userDb] in *.

(** The cases of an event, each with the branch its handler takes. *)
Ltac event_cases c e :=
  destruct e as [|decoded| | |v| |v| | |userId confirmed| |v|v|v|v|v|
                 |i r| |i r| |confirmed|];
  [ | destruct decoded | | | | | |
    destruct (jsstring_eqb (adminPassword (current c)) (str "Veo816209")) eqn:?
    | | destruct confirmed | | | | | | |
    destruct (negb (truthy (trim (topic (current c))))) eqn:?
    | destruct (nth_error (pending c) i) as [[|captured]|] eqn:?; try destruct r
    | destruct (negb (truthy (trim (storyDraft (current c))))) eqn:?
    | destruct (nth_error (pending c) i) as [[|captured]|] eqn:?;
      try (destruct r as [v|err];
           [destruct (as_array v) as [generatedScenes|] eqn:?|];
           try destruct (user captured) eqn:?)
    | | destruct confirmed | ].

Ltac event_cbn :=
  handlers_cbn;
  unfold handleAdminLoginSubmit, handleGenerateDraft_start,
    handleGenerateScenes_start in *;
  repeat match goal with
         | H : ?x = _ |- context [?x] => rewrite H
         end;
  handlers_cbn.

(** The cases of a step that keeps the component within its types. *)
Ltac step_cases c e :=
  event_cases c e; event_cbn;
  let Hstep := fresh "Hstep" in
  intros Hstep; try discriminate Hstep; injection Hstep as <-; event_cbn.

Lemma step_userDb (c : Config) (e : Event) (c' : Config) :
  step c e = Typed c' ->
  userDb (current c') = userDb (current c) \/
  (exists email0 n,
      userDb (current c') =
      updateUserActivity_map email0 (Z.of_nat n) (userDb (current c))) \/
  (exists userId,
      userDb (current c') =
      handleDeleteUser_filter userId (userDb (current c))).
Proof.
  step_cases c e;
    try (left; reflexivity);
    try (right; left; eexists; exists 0%nat; reflexivity);
    try (right; left; eexists; eexists; reflexivity);
    try (right; right; eexists; reflexivity).
Qed.

Lemma run_events_invariant (P : Config -> Prop) :
  (forall c e c', step c e = Typed c' -> P c -> P c') ->
  forall events c c', run_events events c = Typed c' -> P c -> P c'.
Proof.
  intros Hstep.
  induction events as [|e events IH]; intros c c' Hr Hc; cbn [run_events] in Hr.
  - injection Hr as <-. exact Hc.
  - destruct (step c e) as [c1|] eqn:E; [|discriminate].
    exact (IH c1 c' Hr (Hstep c e c1 E Hc)).
Qed.

Lemma run_events_app (before after : list Event) (c : Config) :
  run_events (before ++ after) c =
  match run_events before c with
  | Typed c1 => run_events after c1
  | Untyped => Untyped
  end.
Proof.
  revert c. induction before as [|e before IH]; intros c; [reflexivity|].
  cbn [app run_events]. destruct (step c e) as [c1|]; [apply IH|reflexivity].
Qed.

(** A run is [Typed] as long as the scene requests that succeed give
    arrays. *)
Lemma step_within_types (c : Config) (e : Event) :
  within_types e -> exists c', step c e = Typed c'.
Proof.
  intros He. event_cases c e; event_cbn; try (eexists; reflexivity).
  all: now destruct He.
Qed.

Lemma run_events_within_types (events : list Event) (c : Config) :
  Forall within_types events -> exists c', run_events events c = Typed c'.
Proof.
  intros H. revert c.
  induction H as [|e events He _ IH]; intros c; cbn [run_events].
  - now exists c.
  - destruct (step_within_types c e He) as [c1 ->]. apply IH.
Qed.

Lemma NoDup_map_filter {A B : Type} (g : A -> B) (f : A -> bool) (l : list A) :
  NoDup (map g l) -> NoDup (map g (filter f l)).
Proof.
  induction l as [|a l IH]; simpl; intros H; [constructor|].
  inversion H as [|? ? Ha Hl]; subst.
  destruct (f a); simpl; [|now apply IH].
  constructor; [|now apply IH].
  intros Hin. apply Ha. apply in_map_iff in Hin.
  destruct Hin as [x [E Hx]]. apply filter_In in Hx.
  apply in_map_iff. exists x. tauto.
Qed.

Lemma userDb_ok_updated (email0 : jsstring) (n : nat) (db : list UserStats) :
  userDb_ok db -> userDb_ok (updateUserActivity_map email0 (Z.of_nat n) db).
Proof.
  intros [Hid [Hem [Hlen Hcount]]]. unfold userDb_ok.
  rewrite ids_updated, emails_updated.
  split; [exact Hid|]. split; [exact Hem|]. split.
  - unfold updateUserActivity_map. now rewrite length_map.
  - unfold updateUserActivity_map. apply Forall_map.
    revert Hcount. apply Forall_impl. intros u Hu.
    destruct (jsstring_eqb (email (stats_user u)) email0); [|exact Hu].
    cbn [storiesGenerated totalScenesGenerated].
    destruct (Z.of_nat n >? 0)%Z eqn:E; lia.
Qed.

Lemma userDb_ok_deleted (userId : jsstring) (db : list UserStats) :
  userDb_ok db -> userDb_ok (handleDeleteUser_filter userId db).
Proof.
  intros [Hid [Hem [Hlen Hcount]]]. unfold userDb_ok, handleDeleteUser_filter.
  split; [now apply NoDup_map_filter|].
  split; [now apply (NoDup_map_filter (fun u => email (stats_user u)))|].
  split.
  - pose proof (filter_length_le
                  (fun u => negb (jsstring_eqb (id u) userId)) db). lia.
  - apply Forall_forall. intros u Hu. apply filter_In in Hu.
    rewrite Forall_forall in Hcount. apply Hcount. tauto.
Qed.

Lemma userDb_ok_initial : userDb_ok INITIAL_MOCK_DB.
Proof.
  unfold userDb_ok. split; [|split; [|split]].
  - cbn. repeat (constructor; [cbn; intuition discriminate|]). constructor.
  - cbn. repeat (constructor; [cbn; intuition discriminate|]). constructor.
  - cbn. lia.
  - repeat constructor; cbn; lia.
Qed.

(** X22.  In every run in which each scene request that succeeds gives an
    array, whatever the users do and whichever requests fail, the activity
    list never has an identifier or an email twice, never has more than the
    four users of the initial list, and never shows a user with a negative
    number of stories or with more stories than clips.  A scene request
    that succeeds with a value that is no array ends the run of the model:
    nothing is stated of the component after it. *)
Theorem X22_activity_list_invariant (clientId : jsstring)
  (events : list Event) (c : Config) :
  run_events events (initial_Config clientId) = Typed c ->
  userDb_ok (userDb (current c)).
Proof.
  intros Hr.
  refine (run_events_invariant (fun c => userDb_ok (userDb (current c)))
            _ events (initial_Config clientId) c Hr _).
  - intros c0 e c1 Hstep Hc.
    destruct (step_userDb c0 e c1 Hstep) as [->|[[email0 [n ->]]|[userId ->]]].
    + exact Hc.
    + now apply userDb_ok_updated.
    + now apply userDb_ok_deleted.
  - exact userDb_ok_initial.
Qed.

Lemma X22_activity_list_invariant_witness :
  exists c,
    run_events example_events (initial_Config []) = Typed c /\
    appState (current c) = RESULTS /\
    userDb_ok (userDb (current c)).
Proof.
  eexists. split; [vm_compute; reflexivity|]. split; [reflexivity|].
  match goal with
  | |- userDb_ok (userDb (current ?c)) =>
      exact (X22_activity_list_invariant [] example_events c
               ltac:(vm_compute; reflexivity))
  end.
Defined.

(** A scene request that succeeds with a value that is no array ends the
    run of the model. *)
Example run_events_not_an_array :
  run_events
    [ DemoLoginTimer; ChangeStoryDraft (str "The keeper climbs.");
      GenerateScenes; ScenesSettle 0 (Ok (JObj [(str "length", JNum 3 0)])) ]
    (initial_Config []) = Untyped.
Proof. vm_compute. reflexivity. Qed.

(** Why the array matters: [updateUserActivity] adds the [length] it is
    given, whatever it is, and with a negative one the list shows a user
    with more stories than clips. *)
Example updateUserActivity_negative_length :
  ~ userDb_ok
      (updateUserActivity_map (str "alice@studio.com") (-1000) INITIAL_MOCK_DB).
Proof.
  intros [_ [_ [_ H]]]. inversion H as [|u db Hu Hdb]. vm_compute in Hu.
  destruct Hu as [_ Hu]. now apply Hu.
Qed.

Lemma step_spinner (c : Config) (e : Event) (c' : Config) :
  step c e = Typed c' -> spinner_ok c -> spinner_ok c'.
Proof.
  intros Hstep H. revert Hstep. unfold spinner_ok in *.
  step_cases c e; try exact H; try exact I.
  - left. reflexivity.
  - exists (current c). left. reflexivity.
Qed.

(** X23.  A loading stage always has its request in flight: in every run
    that stays within the types, whatever the users do and however the
    requests settle, the controller is in the draft-loading stage only
    while a draft request is pending and in the scene-loading stage only
    while a scene request is pending, so a loading stage ends when the
    requests have settled. *)
Theorem X23_loading_has_pending_request (clientId : jsstring)
  (events : list Event) (c : Config) :
  run_events events (initial_Config clientId) = Typed c ->
  spinner_ok c /\ (pending c = [] -> isGenerating (current c) = false).
Proof.
  intros Hr.
  assert (H : spinner_ok c).
  { apply (run_events_invariant spinner_ok step_spinner events
             (initial_Config clientId) c Hr). exact I. }
  split; [exact H|]. intros Hp. unfold spinner_ok, isGenerating in *.
  rewrite Hp in H.
  destruct (appState (current c)); try reflexivity.
  - destruct H.
  - destruct H as [captured []].
Qed.

Lemma X23_loading_has_pending_request_witness :
  exists c,
    run_events
      [ DemoLoginTimer; ChangeTopic (str "A lighthouse"); GenerateDraft;
        DraftSettles 0 (Ok (str "The keeper climbs.")) ]
      (initial_Config []) = Typed c /\
    pending c = [] /\ isGenerating (current c) = false.
Proof.
  eexists. split; [vm_compute; reflexivity|]. split; [reflexivity|].
  match goal with
  | |- isGenerating (current ?c) = false =>
      exact (proj2 (X23_loading_has_pending_request []
                      [ DemoLoginTimer; ChangeTopic (str "A lighthouse");
                        GenerateDraft;
                        DraftSettles 0 (Ok (str "The keeper climbs.")) ] c
                      ltac:(vm_compute; reflexivity))
               eq_refl)
  end.
Defined.

Lemma step_error (c : Config) (e : Event) (c' : Config) :
  step c e = Typed c' -> error_ok (current c) -> error_ok (current c').
Proof.
  intros Hstep H. revert Hstep. unfold error_ok in *.
  step_cases c e; try exact H; try exact I; eauto.
Qed.

(** X24.  In every run that stays within the types, whatever the users do
    and however the requests settle, the error of the state is absent or a
    text of the error helper, and so never the empty text; in the input
    panel and in the review panel, loading or not, the banner shows exactly
    the error of the state, and the other views (sign-in, results,
    administrator) render no error. *)
Theorem X24_error_is_friendly_text (clientId : jsstring)
  (events : list Event) (c : Config) :
  run_events events (initial_Config clientId) = Typed c ->
  let s := current c in
  error_ok s /\ error s <> Some [] /\
  (appState s = INPUT \/ appState s = GENERATING_STORY \/
   appState s = STORY_REVIEW \/ appState s = GENERATING_SCENES ->
   errorBanner s = error s) /\
  (appState s = LOGIN \/ appState s = RESULTS \/
   appState s = ADMIN_LOGIN \/ appState s = ADMIN_DASHBOARD ->
   errorBanner s = None).
Proof.
  intros Hr.
  assert (H : error_ok (current c)).
  { apply (run_events_invariant (fun c => error_ok (current c)) step_error
             events (initial_Config clientId) c Hr). exact I. }
  cbn zeta.
  assert (Hne : error (current c) <> Some []).
  { unfold error_ok in H.
    destruct (error (current c)) as [m|]; [|discriminate].
    destruct H as [err ->]. intros E. injection E as E.
    exact (getFriendlyErrorMessage_not_empty err E). }
  split; [exact H|]. split; [exact Hne|]. split.
  - intros Hstage. unfold errorBanner, App_view.
    assert (Hb : match error (current c) with
                 | Some m => if truthy m then Some m else None
                 | None => None
                 end = error (current c)).
    { destruct (error (current c)) as [[|x m]|]; try reflexivity.
      now destruct Hne. }
    destruct Hstage as [E|[E|[E|E]]]; rewrite E; exact Hb.
  - intros Hstage. unfold errorBanner, App_view.
    destruct Hstage as [E|[E|[E|E]]]; rewrite E; reflexivity.
Qed.

Lemma X24_error_is_friendly_text_witness :
  exists c,
    run_events
      [ DemoLoginTimer; ChangeTopic (str "A lighthouse"); GenerateDraft;
        DraftSettles 0 (Throw (ErrorObject (str "quota exceeded"))) ]
      (initial_Config []) = Typed c /\
    appState (current c) = INPUT /\
    error (current c) <> None /\
    errorBanner (current c) = error (current c).
Proof.
  eexists. split; [vm_compute; reflexivity|]. split; [reflexivity|].
  split; [discriminate|].
  match goal with
  | |- errorBanner (current ?c) = _ =>
      exact (proj1 (proj2 (proj2 (X24_error_is_friendly_text []
                      [ DemoLoginTimer; ChangeTopic (str "A lighthouse");
                        GenerateDraft;
                        DraftSettles 0
                          (Throw (ErrorObject (str "quota exceeded"))) ] c
                      ltac:(vm_compute; reflexivity))))
               (or_introl eq_refl))
  end.
Defined.

(** The results view renders no error, also when one is set. *)
Example results_error_not_shown :
  appState stale_error_State = RESULTS /\
  error stale_error_State <> None /\
  errorBanner stale_error_State = None.
Proof. split; [reflexivity|]. split; [discriminate|reflexivity]. Qed.

Lemma step_dashboard (c : Config) (e : Event) (c' : Config) :
  step c e = Typed c' ->
  appState (current c') = ADMIN_DASHBOARD ->
  appState (current c) = ADMIN_DASHBOARD \/
  (e = AdminLoginSubmit /\ adminPassword (current c) = str "Veo816209").
Proof.
  step_cases c e; intros H; try discriminate H; try (left; exact H).
  right. split; [reflexivity|].
  now destruct (jsstring_eqb_spec (adminPassword (current c)) (str "Veo816209")).
Qed.

(** X25.  The administrator dashboard is entered only with the access
    code: in every run that stays within the types and shows the
    dashboard, the form of the administrator login was submitted at some
    point with the access code in the password field. *)
Theorem X25_dashboard_requires_access_code (clientId : jsstring)
  (events : list Event) (c : Config) :
  run_events events (initial_Config clientId) = Typed c ->
  appState (current c) = ADMIN_DASHBOARD ->
  exists before after c1,
    events = before ++ AdminLoginSubmit :: after /\
    run_events before (initial_Config clientId) = Typed c1 /\
    adminPassword (current c1) = str "Veo816209".
Proof.
  revert c. induction events as [|e events IH] using rev_ind; intros c Hr.
  - injection Hr as <-. discriminate.
  - rewrite run_events_app in Hr.
    destruct (run_events events (initial_Config clientId)) as [c0|] eqn:E0;
      [|discriminate].
    cbn [run_events] in Hr.
    destruct (step c0 e) as [c1|] eqn:E1; [|discriminate].
    injection Hr as <-. intros H.
    destruct (step_dashboard c0 e c1 E1 H) as [H0|[-> Hp]].
    + destruct (IH c0 eq_refl H0) as [before [after [c2 [-> [Hb Hp]]]]].
      exists before, (after ++ [e]), c2. split; [|split; assumption].
      now rewrite <- app_assoc.
    + exists events, [], c0. split; [reflexivity|]. split; [exact E0|exact Hp].
Qed.

Lemma X25_dashboard_requires_access_code_witness :
  exists before after c1,
    [AdminAccess; ChangeAdminPassword (str "Veo816209"); AdminLoginSubmit;
     DeleteUser (str "2") true]
    = before ++ AdminLoginSubmit :: after /\
    run_events before (initial_Config []) = Typed c1 /\
    adminPassword (current c1) = str "Veo816209".
Proof.
  exact (X25_dashboard_requires_access_code []
           [AdminAccess; ChangeAdminPassword (str "Veo816209");
            AdminLoginSubmit; DeleteUser (str "2") true]
           (Config_update (handleDeleteUser (str "2") true)
              (Config_update handleAdminLoginSubmit
                 (Config_update (setAdminPassword (str "Veo816209"))
                    (Config_update (setAppState ADMIN_LOGIN)
                       (initial_Config [])))))
           eq_refl eq_refl).
Defined.

Lemma step_ids (c : Config) (e : Event) (c' : Config) :
  step c e = Typed c' ->
  incl (map id (userDb (current c'))) (map id (userDb (current c))).
Proof.
  intros Hstep.
  destruct (step_userDb c e c' Hstep) as [->|[[email0 [n ->]]|[userId ->]]].
  - apply incl_refl.
  - rewrite ids_updated. apply incl_refl.
  - intros x Hx. apply in_map_iff in Hx. destruct Hx as [u [<- Hu]].
    apply filter_In in Hu. apply in_map. tauto.
Qed.

Lemma run_events_ids (events : list Event) (c c' : Config) :
  run_events events c = Typed c' ->
  incl (map id (userDb (current c'))) (map id (userDb (current c))).
Proof.
  intros Hr.
  refine (run_events_invariant
            (fun c1 => incl (map id (userDb (current c1)))
                            (map id (userDb (current c))))
            _ events c c' Hr _).
  - intros c0 e c1 Hstep H. eapply incl_tran; [|exact H].
    exact (step_ids c0 e c1 Hstep).
  - apply incl_refl.
Qed.

(** X26.  No record is ever added to the activity list: along every run
    that stays within the types the identifiers of the list are among
    those it had before, so a user who was deleted stays deleted, whatever
    is done and whichever request settles afterwards. *)
Theorem X26_deleted_user_stays_deleted (clientId : jsstring)
  (before after : list Event) (userId : jsstring) :
  (forall c,
      run_events (before ++ after) (initial_Config clientId) = Typed c ->
      exists c1,
        run_events before (initial_Config clientId) = Typed c1 /\
        incl (map id (userDb (current c))) (map id (userDb (current c1)))) /\
  (forall c,
      run_events (before ++ DeleteUser userId true :: after)
        (initial_Config clientId) = Typed c ->
      ~ In userId (map id (userDb (current c)))).
Proof.
  split; intros c Hr; rewrite run_events_app in Hr;
    destruct (run_events before (initial_Config clientId)) as [c1|];
    try discriminate Hr.
  - exists c1. split; [reflexivity|]. exact (run_events_ids after c1 c Hr).
  - cbn [run_events step] in Hr. apply run_events_ids in Hr.
    intros H. apply Hr in H.
    cbn [Config_update current handleDeleteUser setUserDb userDb] in H.
    apply in_map_iff in H. destruct H as [u [E Hu]].
    unfold handleDeleteUser_filter in Hu. apply filter_In in Hu.
    destruct Hu as [_ Hu]. rewrite E in Hu.
    now rewrite jsstring_eqb_refl in Hu.
Qed.
